(** * AI gateway of Sentinel Copilot: response cache, failover router, streaming decoder

    Shallow embedding of [services/api.js] (the [ResponseCache] object,
    [ApiService.call] / [ApiService.stream] and the two provider adapters)
    and of the [StorageIDB] wrapper (documents and chunks, analytics,
    settings and global statistics, tool history, quiz reviews).

    Conventions of the embedding:
    - a JavaScript string is the list of its UTF-16 code units ([jsstring]);
    - 32-bit integer operators ([<<], [|]) are written on [Z] with the
      wrap-around of [ToInt32] spelled out;
    - the [Map] behind the cache is an association list in insertion order;
    - [Date.now()] is an explicit argument, the network is an explicit oracle,
      callbacks are recorded in an event trace;
    - an IndexedDB object store with a key generator is the list of its
      records in key order with the generator's number, a store keyed by a
      string property is a map from that string. *)

From Stdlib Require Import ZArith NArith List Bool Lia Ascii String.
From Stdlib Require Import Permutation Sorted.
Import ListNotations.

Set Implicit Arguments.
Local Open Scope Z_scope.

(* ================================================================== *)
(** ** JavaScript strings *)
(* ================================================================== *)

Module JsString.

(** One UTF-16 code unit. *)
Definition code_unit := N.

Definition jsstring := list code_unit.

(** Code unit of an ASCII character, and the string of an ASCII literal. *)
Definition cu (a : ascii) : code_unit := N_of_ascii a.

Definition lit (s : string) : jsstring := map cu (list_ascii_of_string s).

Definition unit_eqb (a b : code_unit) : bool := N.eqb a b.

(** [a === b] on strings. *)
Fixpoint eqb (a b : jsstring) : bool :=
  match a, b with
  | [], [] => true
  | x :: a', y :: b' => unit_eqb x y && eqb a' b'
  | _, _ => false
  end.

(** [s.slice(0, n)] for a non-negative [n]. *)
Definition slice0 (n : nat) (s : jsstring) : jsstring := firstn n s.

(** [s.charCodeAt(i)] read as an integer. *)
Definition charCode (c : code_unit) : Z := Z.of_N c.

(** [s.startsWith(p)] *)
Fixpoint startsWith (p s : jsstring) : bool :=
  match p, s with
  | [], _ => true
  | x :: p', y :: s' => unit_eqb x y && startsWith p' s'
  | _ :: _, [] => false
  end.

(** White space and line terminators removed by [String.prototype.trim]:
    TAB, LF, VT, FF, CR, SP, NBSP, OGHAM SPACE, U+2000..U+200A, LS, PS,
    NNBSP, MMSP, IDEOGRAPHIC SPACE and the BOM U+FEFF. *)
Definition isWhiteSpace (c : code_unit) : bool :=
  ((9 <=? c) && (c <=? 13) || (c =? 32) || (c =? 160) || (c =? 5760)
   || (8192 <=? c) && (c <=? 8202) || (c =? 8232) || (c =? 8233)
   || (c =? 8239) || (c =? 8287) || (c =? 12288) || (c =? 65279))%N.

Fixpoint trimStart (s : jsstring) : jsstring :=
  match s with
  | c :: s' => if isWhiteSpace c then trimStart s' else s
  | [] => []
  end.

Definition trimEnd (s : jsstring) : jsstring := rev (trimStart (rev s)).

(** [s.trim()] *)
Definition trim (s : jsstring) : jsstring := trimEnd (trimStart s).

(** [s.split(sep)] for a one-unit separator: always at least one piece. *)
Fixpoint split (sep : code_unit) (s : jsstring) : list jsstring :=
  match s with
  | [] => [[]]
  | c :: s' =>
      if unit_eqb c sep then [] :: split sep s'
      else match split sep s' with
           | piece :: rest => (c :: piece) :: rest
           | [] => [[c]]
           end
  end.

(** [s.replace(p, '')] for a string pattern [p]: the first occurrence of
    [p] is removed, a string without occurrence is returned as it is. *)
Fixpoint removeFirst (p s : jsstring) : jsstring :=
  if startsWith p s then skipn (List.length p) s
  else match s with
       | [] => []
       | c :: s' => c :: removeFirst p s'
       end.

(** A literal in which every apostrophe stands for a double quote
    (U+0022), to write JSON text. *)
Definition q (s : string) : jsstring :=
  map (fun c => if unit_eqb c (cu "'") then 34%N else c) (lit s).

(** Truthiness of a string: every string but the empty one. *)
Definition truthy (s : jsstring) : bool :=
  match s with [] => false | _ :: _ => true end.

(** [hay] contains [needle] as a contiguous substring. *)
Definition contains (hay needle : jsstring) : Prop :=
  exists pre post, hay = pre ++ needle ++ post.

End JsString.

Import JsString.

(* ================================================================== *)
(** ** 32-bit integer arithmetic of the key hash *)
(* ================================================================== *)

Module Int32.

(** [ToInt32]: reduction modulo 2^32 into the signed range. *)
Definition ToInt32 (z : Z) : Z := (z + 2 ^ 31) mod 2 ^ 32 - 2 ^ 31.

(** [x << n]: both operands go through [ToInt32] / [ToUint32]; the shift
    count is taken modulo 32 and the result is again a signed 32-bit value. *)
Definition shl (x n : Z) : Z := ToInt32 (Z.shiftl (ToInt32 x) (n mod 32)).

(** [x | 0] *)
Definition or0 (x : Z) : Z := Z.lor (ToInt32 x) (ToInt32 0).

Definition in_range (z : Z) : Prop := - 2 ^ 31 <= z < 2 ^ 31.

End Int32.

Import Int32.

(* ================================================================== *)
(** ** The insertion-ordered [Map] of the cache *)
(* ================================================================== *)

Module JsMap.
Section WithValue.

Variable V : Type.

(** Entries in insertion order, oldest first; keys are strings. *)
Definition t := list (jsstring * V).

Definition empty : t := [].

(** [m.size] *)
Definition size (m : t) : nat := List.length m.

(** [m.get(k)], [None] standing for [undefined]. *)
Fixpoint get (k : jsstring) (m : t) : option V :=
  match m with
  | [] => None
  | (k', v) :: m' => if JsString.eqb k k' then Some v else get k m'
  end.

(** [m.has(k)] *)
Definition has (k : jsstring) (m : t) : bool :=
  match get k m with Some _ => true | None => false end.

(** [m.set(k, v)]: a present key keeps its place and takes the new value,
    a new key goes to the end. *)
Fixpoint set (k : jsstring) (v : V) (m : t) : t :=
  match m with
  | [] => [(k, v)]
  | (k', v') :: m' =>
      if JsString.eqb k k' then (k, v) :: m' else (k', v') :: set k v m'
  end.

(** [m.delete(k)] *)
Fixpoint delete (k : jsstring) (m : t) : t :=
  match m with
  | [] => []
  | (k', v') :: m' =>
      if JsString.eqb k k' then m' else (k', v') :: delete k m'
  end.

(** [m.keys()] *)
Definition keys (m : t) : list jsstring := map fst m.

(** [m.keys().next().value], [None] for the [undefined] of an empty map. *)
Definition first_key (m : t) : option jsstring :=
  match m with
  | [] => None
  | (k, _) :: _ => Some k
  end.

(** [m.delete(x)] where [x] may be [undefined]: no string key equals it. *)
Definition delete_opt (k : option jsstring) (m : t) : t :=
  match k with
  | Some k => delete k m
  | None => m
  end.

End WithValue.
End JsMap.

(* ================================================================== *)
(** ** ResponseCache *)
(* ================================================================== *)

Module ResponseCache.

(** The object stored per key: [{ response, timestamp }]. *)
Record CacheEntry : Type := mkEntry {
  response : jsstring;
  timestamp : Z
}.

Definition cache := JsMap.t CacheEntry.

Definition maxSize : nat := 100.

(** [30 * 60 * 1000] milliseconds. *)
Definition ttlMs : Z := 30 * 60 * 1000.

(** Digit of [Number.prototype.toString(36)]: [0-9] then [a-z]. *)
Definition digit36 (d : N) : code_unit :=
  (if d <? 10 then 48 + d else 97 + (d - 10))%N.

Fixpoint digits36 (fuel : nat) (n : N) (acc : jsstring) : jsstring :=
  match fuel with
  | O => acc
  | S fuel' =>
      let acc' := digit36 (n mod 36) :: acc in
      if (n / 36 =? 0)%N then acc' else digits36 fuel' (n / 36)%N acc'
  end.

(** [h.toString(36)] for an integer [h]. *)
Definition toString36 (h : Z) : jsstring :=
  let mag := Z.abs_N h in
  let ds := digits36 (S (N.size_nat mag)) mag [] in
  if h <? 0 then cu "-" :: ds else ds.

(** Body of the loop: [hash = ((hash << 5) - hash) + c; hash |= 0]. *)
Definition hash_step (hash : Z) (c : code_unit) : Z :=
  or0 ((shl hash 5 - hash) + charCode c).

(** The loop over [str], from [hash = 0]. *)
Definition hash_of (str : jsstring) : Z := fold_left hash_step str 0.

(** The template string [`${model}:${systemPrompt.slice(0, 200)}:${userPrompt}`]. *)
Definition key_string (systemPrompt userPrompt model : jsstring) : jsstring :=
  model ++ lit ":" ++ slice0 200 systemPrompt ++ lit ":" ++ userPrompt.

Definition generateKey (systemPrompt userPrompt model : jsstring) : jsstring :=
  toString36 (hash_of (key_string systemPrompt userPrompt model)).

(** [get(key)] at time [now = Date.now()]: the value returned ([None] for
    [null]) and the cache afterwards. *)
Definition get (key : jsstring) (now : Z) (c : cache) : option jsstring * cache :=
  match JsMap.get key c with
  | None => (None, c)
  | Some entry =>
      if now - timestamp entry >? ttlMs
      then (None, JsMap.delete key c)
      else (Some (response entry), c)
  end.

(** [set(key, response)] at time [now = Date.now()]. *)
Definition set (key : jsstring) (resp : jsstring) (now : Z) (c : cache) : cache :=
  let c1 :=
    if (maxSize <=? JsMap.size c)%nat
    then JsMap.delete_opt (JsMap.first_key c) c
    else c in
  JsMap.set key (mkEntry resp now) c1.

(** [clear()] *)
Definition clear (c : cache) : cache := JsMap.empty CacheEntry.

(** A use of the cache object, with the clock reading it sees. *)
Inductive op : Type :=
| OpGet (key : jsstring) (now : Z)
| OpSet (key : jsstring) (resp : jsstring) (now : Z)
| OpClear.

Definition step (c : cache) (o : op) : cache :=
  match o with
  | OpGet key now => snd (get key now c)
  | OpSet key resp now => set key resp now c
  | OpClear => clear c
  end.

Definition run (ops : list op) (c : cache) : cache := fold_left step ops c.


Definition stored (entries : list (jsstring * jsstring * Z)) : cache :=
  map (fun e => (fst (fst e), mkEntry (snd (fst e)) (snd e))) entries.



(** [n] entries with the keys ["0"], ["1"], ... in base 36, set at
    times [0], [1], ... *)
Definition numbered (n : nat) : list (jsstring * jsstring * Z) :=
  map (fun i => (toString36 (Z.of_nat i), lit "r", Z.of_nat i)) (seq 0 n).

(** A cache holding [maxSize] entries. *)
Definition full_cache : cache := stored (numbered maxSize).

End ResponseCache.

(* ================================================================== *)
(** ** JSON values, [JSON.parse] and the conversions applied to a delta *)
(* ================================================================== *)

Module Json.

(** A JSON number, kept as the exact decimal of its literal:
    [(-1)^negative * mantissa * 10^exp10]. *)
Record number : Type := mkNumber {
  negative : bool;
  mantissa : N;
  exp10 : Z
}.

#[local] Unset Elimination Schemes.
Inductive json : Type :=
| JNull
| JBool (b : bool)
| JNumber (n : number)
| JString (s : jsstring)
| JArray (elems : list json)
| JObject (fields : list (jsstring * json)).
#[local] Set Elimination Schemes.

(** *** Lexical helpers *)

Definition isChar (c : code_unit) (a : ascii) : bool := unit_eqb c (cu a).

(** The double quote, U+0022. *)
Definition quote : code_unit := 34%N.

(** JSON white space: space, TAB, LF, CR. *)
Definition isJsonSpace (c : code_unit) : bool :=
  ((c =? 32) || (c =? 9) || (c =? 10) || (c =? 13))%N.

Fixpoint skip_ws (s : jsstring) : jsstring :=
  match s with
  | c :: s' => if isJsonSpace c then skip_ws s' else s
  | [] => []
  end.

Definition digit_val (c : code_unit) : option N :=
  (if (48 <=? c) && (c <=? 57) then Some (c - 48) else None)%N.

Definition hex_val (c : code_unit) : option N :=
  (if (48 <=? c) && (c <=? 57) then Some (c - 48)
   else if (97 <=? c) && (c <=? 102) then Some (c - 87)
   else if (65 <=? c) && (c <=? 70) then Some (c - 55)
   else None)%N.

Definition hex4 (a b c d : code_unit) : option code_unit :=
  match hex_val a, hex_val b, hex_val c, hex_val d with
  | Some x, Some y, Some z, Some w => Some (((x * 16 + y) * 16 + z) * 16 + w)%N
  | _, _, _, _ => None
  end.

(** The character denoted by a one-letter escape. *)
Definition escape (e : code_unit) : option code_unit :=
  if unit_eqb e quote then Some 34%N
  else if isChar e "\" then Some 92%N
  else if isChar e "/" then Some 47%N
  else if isChar e "b" then Some 8%N
  else if isChar e "f" then Some 12%N
  else if isChar e "n" then Some 10%N
  else if isChar e "r" then Some 13%N
  else if isChar e "t" then Some 9%N
  else None.

(** The rest of a string literal after its opening quote: the decoded
    string and the input after the closing quote. *)
Fixpoint string_body (s : jsstring) (acc : jsstring) : option (jsstring * jsstring) :=
  match s with
  | [] => None
  | c :: r =>
      if unit_eqb c quote then Some (rev acc, r)
      else if isChar c "\" then
        match r with
        | [] => None
        | e :: r1 =>
            if isChar e "u" then
              match r1 with
              | h1 :: h2 :: h3 :: h4 :: r2 =>
                  match hex4 h1 h2 h3 h4 with
                  | Some u => string_body r2 (u :: acc)
                  | None => None
                  end
              | _ => None
              end
            else
              match escape e with
              | Some u => string_body r1 (u :: acc)
              | None => None
              end
        end
      else if (c <? 32)%N then None
      else string_body r (c :: acc)
  end.

(** A maximal run of decimal digits: its value, its length, the rest. *)
Fixpoint digits (s : jsstring) (acc : N) (len : nat) : N * nat * jsstring :=
  match s with
  | c :: r =>
      match digit_val c with
      | Some d => digits r (acc * 10 + d)%N (S len)
      | None => (acc, len, s)
      end
  | [] => (acc, len, [])
  end.

(** Integer part: [0] alone, or a digit [1-9] followed by digits. *)
Definition int_part (s : jsstring) : option (N * jsstring) :=
  match s with
  | c :: r =>
      if isChar c "0" then Some (0%N, r)
      else match digit_val c with
           | Some d => let '(m, _, r') := digits r d 1 in Some (m, r')
           | None => None
           end
  | [] => None
  end.

(** Optional fraction: the mantissa extended by the fraction digits and
    the number of those digits. *)
Definition frac_part (m : N) (s : jsstring) : option (N * nat * jsstring) :=
  match s with
  | c :: r =>
      if isChar c "." then
        match digits r m 0 with
        | (_, O, _) => None
        | (m', S k, r') => Some (m', S k, r')
        end
      else Some (m, O, s)
  | [] => Some (m, O, [])
  end.

(** Optional exponent. *)
Definition exp_part (s : jsstring) : option (Z * jsstring) :=
  match s with
  | c :: r =>
      if isChar c "e" || isChar c "E" then
        let '(sign, r1) :=
          match r with
          | p :: r' => if isChar p "+" then (1, r')
                       else if isChar p "-" then (-1, r') else (1, r)
          | [] => (1, r)
          end in
        match digits r1 0 0 with
        | (_, O, _) => None
        | (e, S _, r2) => Some (sign * Z.of_N e, r2)
        end
      else Some (0, s)
  | [] => Some (0, [])
  end.

Definition number_lit (s : jsstring) : option (json * jsstring) :=
  let '(neg, s1) :=
    match s with
    | c :: r => if isChar c "-" then (true, r) else (false, s)
    | [] => (false, s)
    end in
  match int_part s1 with
  | None => None
  | Some (m, s2) =>
      match frac_part m s2 with
      | None => None
      | Some (m', k, s3) =>
          match exp_part s3 with
          | None => None
          | Some (e, s4) => Some (JNumber (mkNumber neg m' (e - Z.of_nat k)), s4)
          end
      end
  end.

Definition keyword (w : string) (v : json) (s : jsstring) : option (json * jsstring) :=
  if startsWith (lit w) s then Some (v, skipn (String.length w) s) else None.

(** *** The grammar: value, array elements, object members *)

Fixpoint value (fuel : nat) (s : jsstring) {struct fuel} : option (json * jsstring) :=
  match fuel with
  | O => None
  | S fuel' =>
      match skip_ws s with
      | [] => None
      | c :: r =>
          if isChar c "{" then
            match skip_ws r with
            | c' :: r' => if isChar c' "}" then Some (JObject [], r')
                          else members fuel' r []
            | [] => None
            end
          else if isChar c "[" then
            match skip_ws r with
            | c' :: r' => if isChar c' "]" then Some (JArray [], r')
                          else elements fuel' r []
            | [] => None
            end
          else if unit_eqb c quote then
            match string_body r [] with
            | Some (str, r') => Some (JString str, r')
            | None => None
            end
          else if isChar c "t" then keyword "true" (JBool true) (c :: r)
          else if isChar c "f" then keyword "false" (JBool false) (c :: r)
          else if isChar c "n" then keyword "null" JNull (c :: r)
          else number_lit (c :: r)
      end
  end
with elements (fuel : nat) (s : jsstring) (acc : list json) {struct fuel}
  : option (json * jsstring) :=
  match fuel with
  | O => None
  | S fuel' =>
      match value fuel' s with
      | None => None
      | Some (v, r) =>
          match skip_ws r with
          | c :: r' =>
              if isChar c "," then elements fuel' r' (v :: acc)
              else if isChar c "]" then Some (JArray (rev (v :: acc)), r')
              else None
          | [] => None
          end
      end
  end
with members (fuel : nat) (s : jsstring) (acc : list (jsstring * json)) {struct fuel}
  : option (json * jsstring) :=
  match fuel with
  | O => None
  | S fuel' =>
      match skip_ws s with
      | q :: r =>
          if unit_eqb q quote then
            match string_body r [] with
            | None => None
            | Some (k, r1) =>
                match skip_ws r1 with
                | colon :: r2 =>
                    if isChar colon ":" then
                      match value fuel' r2 with
                      | None => None
                      | Some (v, r3) =>
                          match skip_ws r3 with
                          | c :: r4 =>
                              if isChar c "," then members fuel' r4 ((k, v) :: acc)
                              else if isChar c "}" then Some (JObject (rev ((k, v) :: acc)), r4)
                              else None
                          | [] => None
                          end
                      end
                    else None
                | [] => None
                end
            end
          else None
      | [] => None
      end
  end.

(** [JSON.parse(text)]: [None] when a [SyntaxError] is thrown.  Every
    recursive call is made after at least one character was consumed one
    or two calls earlier, so twice the length of the text is enough fuel
    ([JsonTheory.parse_fuel_enough]). *)
Definition parse (text : jsstring) : option json :=
  match value (2 * List.length text + 2) text with
  | Some (v, r) => match skip_ws r with [] => Some v | _ :: _ => None end
  | None => None
  end.

End Json.

Module JsValue.
Import Json.

(** *** Property access on a parsed value

    [None] stands for [undefined].  The values come from [JSON.parse], so
    an object has its own data properties and nothing else that the names
    read here ([choices], [0], [delta], [content]) could resolve to. *)

(** Own property of an object; of duplicate names the last one wins. *)
Fixpoint own (name : jsstring) (fields : list (jsstring * json)) : option json :=
  match fields with
  | [] => None
  | (k, v) :: fields' =>
      match own name fields' with
      | Some v' => Some v'
      | None => if JsString.eqb name k then Some v else None
      end
  end.

(** [v.name] for a non-nullish [v] and a name that is not an index. *)
Definition prop (name : string) (v : json) : option json :=
  match v with
  | JObject fields => own (lit name) fields
  | _ => None
  end.

(** [v[0]] for a non-nullish [v]. *)
Definition index0 (v : json) : option json :=
  match v with
  | JArray elems => nth_error elems 0
  | JString (c :: _) => Some (JString [c])
  | JObject fields => own (lit "0") fields
  | _ => None
  end.

(** [x?.access]: [undefined] when [x] is [undefined] or [null]. *)
Definition optional (access : json -> option json) (x : option json) : option json :=
  match x with
  | None | Some JNull => None
  | Some v => access v
  end.

(** [parsed.choices?.[0]?.delta?.content]; the outer [None] is the
    [TypeError] of reading a property of [null]. *)
Definition delta_content (parsed : json) : option (option json) :=
  match parsed with
  | JNull => None
  | _ => Some (optional (prop "content")
                (optional (prop "delta")
                  (optional index0 (prop "choices" parsed))))
  end.

(** The double of a number literal is [0] or [-0] exactly when the decimal
    is zero or rounds to zero, that is, lies at or below [2^-1075]. *)
Definition number_is_zero (n : number) : bool :=
  (mantissa n =? 0)%N
  || ((exp10 n <? 0)
      && (Z.of_N (mantissa n) * 2 ^ 1075 <=? 10 ^ (- exp10 n))).

(** Truthiness. *)
Definition truthy (v : json) : bool :=
  match v with
  | JNull => false
  | JBool b => b
  | JNumber n => negb (number_is_zero n)
  | JString s => JsString.truthy s
  | JArray _ | JObject _ => true
  end.

(** [x || ''] *)
Definition or_empty (x : option json) : json :=
  match x with
  | Some v => if truthy v then v else JString []
  | None => JString []
  end.

(** *** Text built by [+=]

    The accumulated text is a string whose units are code units, except
    that the decimal rendering of a number ([Number::toString], a
    floating-point algorithm) is kept as one unexpanded unit. *)
Inductive text_unit : Type :=
| U (c : code_unit)
| NumberText (n : number).

Definition text := list text_unit.

Definition of_string (s : jsstring) : text := map U s.

Fixpoint join (sep : text) (parts : list text) : text :=
  match parts with
  | [] => []
  | [p] => p
  | p :: rest => p ++ sep ++ join sep rest
  end.

Fixpoint sequence (l : list (option text)) : option (list text) :=
  match l with
  | [] => Some []
  | Some t :: l' =>
      match sequence l' with Some ts => Some (t :: ts) | None => None end
  | None :: _ => None
  end.

Definition has_own (name : string) (fields : list (jsstring * json)) : bool :=
  match own (lit name) fields with Some _ => true | None => false end.

(** String conversion of a value inside [fullText + delta]; [None] is the
    [TypeError] thrown for an object whose own [toString] property (a
    JSON value, hence not callable) hides the inherited method.  An
    array is joined with commas, [null] elements giving the empty string. *)
Fixpoint ToString (v : json) : option text :=
  match v with
  | JNull => Some (of_string (lit "null"))
  | JBool true => Some (of_string (lit "true"))
  | JBool false => Some (of_string (lit "false"))
  | JNumber n => Some [NumberText n]
  | JString s => Some (of_string s)
  | JArray elems =>
      let element (e : json) : option text :=
        match e with
        | JNull => Some []
        | _ => ToString e
        end in
      match sequence (map element elems) with
      | Some parts => Some (join (of_string (lit ",")) parts)
      | None => None
      end
  | JObject fields =>
      if has_own "toString" fields then None
      else Some (of_string (lit "[object Object]"))
  end.

End JsValue.

(* ================================================================== *)
(** ** ApiService: [call] and [stream] *)
(* ================================================================== *)

Module ApiService.
Import Json JsValue.

(** [apiKeys]: each key is absent ([undefined]) or a string. *)
Record ApiKeys : Type := mkKeys {
  cerebras : option jsstring;
  gemini : option jsstring
}.

(** The destructured [options], defaults already applied
    ([systemPrompt = ''], [useCache = true], [stream = false], ...). *)
Record Options : Type := mkOptions {
  systemPrompt : jsstring;
  userPrompt : jsstring;
  apiKeys : ApiKeys;
  model : jsstring;
  useCache : bool;
  stream_flag : bool
}.

(** [if (apiKeys.x)]: a key counts when it is a non-empty string. *)
Definition present (key : option jsstring) : bool :=
  match key with
  | Some k => JsString.truthy k
  | None => false
  end.

(** How one adapter call ([Cerebras.call] / [Gemini.call]) settles: the
    completion text, or an [Error] with its [message]. *)
Inductive outcome : Type :=
| Returns (text : jsstring)
| Throws (message : jsstring).

(** How the streamed body ends: the reader reports [done], or a read
    rejects. *)
Inductive ReadEnd : Type :=
| ReaderDone
| ReaderFails (message : jsstring).

(** The response body of the streaming request.  [reads] lists, read by
    read, the text the streaming [TextDecoder] returns for the bytes of
    that read. *)
Record Body : Type := mkBody {
  reads : list jsstring;
  ending : ReadEnd
}.

(** The streaming [fetch]: it rejects, or yields a response with its
    [ok] flag, [statusText] and body. *)
Inductive FetchResult : Type :=
| FetchRejects (message : jsstring)
| FetchResponse (ok : bool) (statusText : jsstring) (body : Body).

(** What the network answers during one invocation. *)
Record Network : Type := mkNetwork {
  CerebrasCall : outcome;
  GeminiCall : outcome;
  CerebrasStream : FetchResult
}.

(** The clock readings of one invocation of [call]: [Date.now()] inside
    [ResponseCache.get] and, after the awaited request, inside
    [ResponseCache.set]. *)
Record Clock : Type := mkClock {
  atLookup : Z;
  atStore : Z
}.

(** A request that went out, with how it settled. *)
Inductive NetCall : Type :=
| ToCerebras (o : outcome)
| ToGemini (o : outcome).

Inductive Provider : Type :=
| ProviderCache       (* 'cache' *)
| ProviderCerebras    (* 'cerebras' *)
| ProviderGemini.     (* 'gemini' *)

(** The object [call] resolves with.  [failover = None] is an object
    without that property.  [responseTime] (a wall-clock difference) is
    left out. *)
Record CallResult : Type := mkResult {
  response : jsstring;
  provider : Provider;
  cached : bool;
  failover : option bool
}.

(** The promise returned by [call]: fulfilled with a result or rejected
    with an [Error] carrying a message. *)
Inductive Settled : Type :=
| Resolved (r : CallResult)
| Rejected (message : jsstring).

(** Everything observable of one invocation of [call]. *)
Record CallRun : Type := mkRun {
  settled : Settled;
  cache_after : ResponseCache.cache;
  requests : list NetCall
}.

Definition no_keys_message : jsstring :=
  lit "No API keys configured. Please add an API key in settings.".

(** The message built when both providers fail. *)
Definition both_failed (cerebrasMessage geminiMessage : jsstring) : jsstring :=
  lit "Both APIs failed. Cerebras: " ++ cerebrasMessage
    ++ lit ", Gemini: " ++ geminiMessage.

(** [if (useCache && !stream) ResponseCache.set(generateKey(..., m), response)] *)
Definition store (o : Options) (m : jsstring) (resp : jsstring) (clk : Clock)
    (c : ResponseCache.cache) : ResponseCache.cache :=
  if useCache o && negb (stream_flag o)
  then ResponseCache.set
         (ResponseCache.generateKey (systemPrompt o) (userPrompt o) m)
         resp (atStore clk) c
  else c.

(** [if (useCache && !stream) ... ResponseCache.get(cacheKey)]: the value
    looked up ([None] when the block is skipped or [get] returns [null])
    and the cache afterwards. *)
Definition lookup (clk : Clock) (o : Options) (c : ResponseCache.cache)
    : option jsstring * ResponseCache.cache :=
  if useCache o && negb (stream_flag o)
  then ResponseCache.get
         (ResponseCache.generateKey (systemPrompt o) (userPrompt o) (model o))
         (atLookup clk) c
  else (None, c).

(** [ApiService.call(options)] *)
Definition call (net : Network) (clk : Clock) (o : Options)
    (c : ResponseCache.cache) : CallRun :=
  (* Check cache first; [if (cached)] passes on a non-empty string *)
  let '(hit, c1) := lookup clk o c in
  match hit with
  | Some (u :: cachedText) =>
      mkRun (Resolved (mkResult (u :: cachedText) ProviderCache true None)) c1 []
  | _ =>
      (* Try Cerebras first *)
      if present (cerebras (apiKeys o)) then
        match CerebrasCall net with
        | Returns resp =>
            mkRun (Resolved (mkResult resp ProviderCerebras false None))
                  (store o (model o) resp clk c1)
                  [ToCerebras (Returns resp)]
        | Throws cerebrasMessage =>
            (* Failover to Gemini if available *)
            if present (gemini (apiKeys o)) then
              match GeminiCall net with
              | Returns resp =>
                  mkRun (Resolved (mkResult resp ProviderGemini false (Some true)))
                        (store o (model o) resp clk c1)
                        [ToCerebras (Throws cerebrasMessage); ToGemini (Returns resp)]
              | Throws geminiMessage =>
                  mkRun (Rejected (both_failed cerebrasMessage geminiMessage)) c1
                        [ToCerebras (Throws cerebrasMessage);
                         ToGemini (Throws geminiMessage)]
              end
            else
              mkRun (Rejected cerebrasMessage) c1
                    [ToCerebras (Throws cerebrasMessage)]
        end
      (* Only Gemini available *)
      else if present (gemini (apiKeys o)) then
        match GeminiCall net with
        | Returns resp =>
            mkRun (Resolved (mkResult resp ProviderGemini false None))
                  (store o (lit "gemini") resp clk c1)
                  [ToGemini (Returns resp)]
        | Throws geminiMessage =>
            mkRun (Rejected geminiMessage) c1 [ToGemini (Throws geminiMessage)]
        end
      else
        mkRun (Rejected no_keys_message) c1 []
  end.

(** *** Streaming *)

(** The callbacks invoked, in order. *)
Inductive event : Type :=
| OnChunk (delta : json)
| OnComplete (fullText : text)
| OnError (message : jsstring).

(** State of the read loop: [fullText] and the callbacks made so far. *)
Record Session : Type := mkSession {
  fullText : text;
  emitted : list event
}.

Definition sentinel : jsstring := lit "[DONE]".

Definition prefix : jsstring := lit "data:".

(** [chunk.split('\n').filter(line => line.trim().startsWith('data:'))] *)
Definition frame_lines (chunk : jsstring) : list jsstring :=
  filter (fun line => startsWith prefix (trim line)) (split 10%N chunk).

(** [line.replace('data:', '').trim()] *)
Definition payload (line : jsstring) : jsstring :=
  trim (removeFirst prefix line).

(** The [try] block: the truthy delta to emit with its text, or [None]
    when the block throws or the delta is falsy. *)
Definition frame_delta (data : jsstring) : option (json * text) :=
  match parse data with
  | None => None
  | Some parsed =>
      match delta_content parsed with
      | None => None
      | Some content =>
          let delta := or_empty content in
          if truthy delta then
            match ToString delta with
            | Some t => Some (delta, t)
            | None => None
            end
          else None
      end
  end.

(** One iteration of [for (const line of lines)]. *)
Definition process_line (st : Session) (line : jsstring) : Session :=
  let data := payload line in
  if JsString.eqb data sentinel then st
  else match frame_delta data with
       | Some (delta, t) =>
           mkSession (fullText st ++ t) (emitted st ++ [OnChunk delta])
       | None => st
       end.

(** One iteration of [while (true)] on a read that is not [done]. *)
Definition process_read (st : Session) (chunk : jsstring) : Session :=
  fold_left process_line (frame_lines chunk) st.

Definition read_loop (rs : list jsstring) (st : Session) : Session :=
  fold_left process_read rs st.

(** Is the callback an [onComplete]? *)
Definition is_complete (e : event) : bool :=
  match e with OnComplete _ => true | _ => false end.

Definition streaming_error (statusText : jsstring) : jsstring :=
  lit "Cerebras streaming error: " ++ statusText.

(** [{ ...options, stream: false }] *)
Definition without_stream (o : Options) : Options :=
  mkOptions (systemPrompt o) (userPrompt o) (apiKeys o) (model o) (useCache o) false.

(** Everything observable of one invocation of [stream]: the callbacks
    it makes, in order, and the cache afterwards. *)
Record StreamRun : Type := mkStreamRun {
  callbacks : list event;
  cache_after_stream : ResponseCache.cache
}.

(** [ApiService.stream(options, onChunk, onComplete, onError)] *)
Definition stream (net : Network) (clk : Clock) (o : Options)
    (c : ResponseCache.cache) : StreamRun :=
  if negb (present (cerebras (apiKeys o))) then
    (* Fall back to non-streaming if only Gemini available *)
    let run := call net clk (without_stream o) c in
    match settled run with
    | Resolved result =>
        mkStreamRun [OnChunk (JString (response result));
                     OnComplete (of_string (response result))]
                    (cache_after run)
    | Rejected message => mkStreamRun [OnError message] (cache_after run)
    end
  else
    match CerebrasStream net with
    | FetchRejects message => mkStreamRun [OnError message] c
    | FetchResponse false statusText _ =>
        mkStreamRun [OnError (streaming_error statusText)] c
    | FetchResponse true _ body =>
        let st := read_loop (reads body) (mkSession [] []) in
        match ending body with
        | ReaderDone => mkStreamRun (emitted st ++ [OnComplete (fullText st)]) c
        | ReaderFails message => mkStreamRun (emitted st ++ [OnError message]) c
        end
    end.

(** The streaming call ends normally: on the streaming path the request
    succeeds and the reader reports [done]; on the fallback path (no
    Cerebras key) the non-streaming [call] resolves. *)
Definition completes_normally (net : Network) (clk : Clock) (o : Options)
    (c : ResponseCache.cache) : Prop :=
  if present (cerebras (apiKeys o))
  then exists statusText rs,
         CerebrasStream net = FetchResponse true statusText (mkBody rs ReaderDone)
  else exists r, settled (call net clk (without_stream o) c) = Resolved r.

End ApiService.

(* ================================================================== *)
(** ** Concrete requests, answers and bodies used below *)
(* ================================================================== *)

Module Scenarios.
Import Json JsValue ApiService.

(** [{systemPrompt: "S", userPrompt: "2+2?", model: "llama-3.3-70b"}]
    with the given keys, [useCache] and [stream] at their defaults. *)
Definition request (keys : ApiKeys) : Options :=
  mkOptions (lit "S") (lit "2+2?") keys (lit "llama-3.3-70b") true false.

Definition primary_only : ApiKeys := mkKeys (Some (lit "k1")) None.
Definition secondary_only : ApiKeys := mkKeys None (Some (lit "k2")).
Definition both_keys : ApiKeys := mkKeys (Some (lit "k1")) (Some (lit "k2")).
Definition no_keys : ApiKeys := mkKeys None None.

Definition idle_stream : FetchResult := FetchRejects (lit "unused").

(** Both providers answer ["4"]. *)
Definition answering : Network :=
  mkNetwork (Returns (lit "4")) (Returns (lit "4")) idle_stream.

(** Both providers fail. *)
Definition failing : Network :=
  mkNetwork (Throws (lit "rate limit")) (Throws (lit "quota exceeded")) idle_stream.

(** A first invocation at time 1000 (answer stored at 1200) and a second
    one a minute later, well inside the 30 minutes. *)
Definition first_clock : Clock := mkClock 1000 1200.
Definition second_clock : Clock := mkClock 61200 61400.

Definition empty_cache : ResponseCache.cache := JsMap.empty ResponseCache.CacheEntry.

(** The event frame carrying the delta [s]. *)
Definition frame (s : string) : jsstring :=
  q "data: {'choices':[{'delta':{'content':'" ++ lit s ++ q "'}}]}" ++ [10%N].

Definition done_frame : jsstring := lit "data: [DONE]" ++ [10%N].

(** A successful streaming response with the given reads. *)
Definition streaming (rs : list jsstring) : Network :=
  mkNetwork (Throws (lit "unused")) (Throws (lit "unused"))
            (FetchResponse true (lit "OK") (mkBody rs ReaderDone)).

(** One frame delivered whole, and the same bytes delivered in two reads
    that cut the frame inside its JSON payload. *)
Definition whole_read : list jsstring := [frame "hi"].

Definition cut_read : list jsstring :=
  [firstn 30 (frame "hi"); skipn 30 (frame "hi")].

End Scenarios.

Module MoreScenarios.
Import Json JsValue ApiService Scenarios.

(** A streaming request answered with a status that is not OK; the body
    holds a frame all the same. *)
Definition refusing : Network :=
  mkNetwork (Throws (lit "unused")) (Throws (lit "unused"))
            (FetchResponse false (lit "Too Many Requests")
               (mkBody [frame "ignored"] ReaderDone)).

(** The callback that closes a streaming call. *)
Definition is_terminal (e : event) : bool :=
  match e with
  | OnChunk _ => false
  | OnComplete _ | OnError _ => true
  end.

End MoreScenarios.

(* ================================================================== *)
(** ** The provider adapters: [Cerebras.call] and [Gemini.call] *)
(* ================================================================== *)

Module Adapters.
Import Json JsValue.

(** What [fetch] gives: it rejects (the network failed), or it resolves
    with a response, of which the adapters read [ok], [statusText] and the
    body text handed to [response.json()]. *)
Inductive HttpResult : Type :=
| FetchFails (message : jsstring)
| HttpResponse (ok : bool) (statusText : jsstring) (body : jsstring).

(** What an adapter throws: an [Error] built by the adapter with its
    message; a [TypeError] raised by a property read on [undefined] or
    [null] or by a failed string conversion; the [SyntaxError] of
    [response.json()] on a body that is not JSON; or whatever [fetch]
    rejected with, passed on. *)
Inductive thrown : Type :=
| ErrorWith (message : text)
| TypeError
| SyntaxError
| NetworkFailure (message : jsstring).

(** How an adapter call settles; the value returned may be [undefined]
    ([None]) or any JSON value. *)
Inductive result : Type :=
| Returned (content : option json)
| Thrown (e : thrown).

(** [x.name] and [x[0]] without [?.]: a [TypeError] ([None]) when [x] is
    [undefined] or [null]. *)
Definition strict (access : json -> option json) (x : option json)
    : option (option json) :=
  match x with
  | None | Some JNull => None
  | Some v => Some (access v)
  end.

(** Chains property reads, stopping at the first [TypeError]. *)
Definition andThen (x : option (option json)) (access : json -> option json)
    : option (option json) :=
  match x with
  | None => None
  | Some v => strict access v
  end.

(** [data.choices[0].message.content] *)
Definition Cerebras_content (data : json) : option (option json) :=
  andThen (andThen (andThen (strict (prop "choices") (Some data)) index0)
                   (prop "message"))
          (prop "content").

(** [data.candidates[0].content.parts[0].text] *)
Definition Gemini_content (data : json) : option (option json) :=
  andThen (andThen (andThen (andThen (andThen
    (strict (prop "candidates") (Some data)) index0)
    (prop "content")) (prop "parts")) index0) (prop "text").

(** [errorData.error?.message]; the outer [None] is the [TypeError] of
    reading [error] of [null]. *)
Definition error_message (errorData : json) : option (option json) :=
  match errorData with
  | JNull => None
  | _ => Some (optional (prop "message") (prop "error" errorData))
  end.

(** [new Error(errorData.error?.message || fallback)] as it is thrown,
    where [errorData] is [await response.json().catch(() => ({}))]. *)
Definition error_of (fallback body : jsstring) : thrown :=
  let errorData := match parse body with Some d => d | None => JObject [] end in
  match error_message errorData with
  | None => TypeError
  | Some m =>
      match m with
      | Some v =>
          if truthy v then
            match ToString v with
            | Some t => ErrorWith t
            | None => TypeError
            end
          else ErrorWith (of_string fallback)
      | None => ErrorWith (of_string fallback)
      end
  end.

(** The part shared by the two adapters, after [fetch]. *)
Definition settle (label : string) (content : json -> option (option json))
    (http : HttpResult) : result :=
  match http with
  | FetchFails message => Thrown (NetworkFailure message)
  | HttpResponse false statusText body =>
      Thrown (error_of (lit label ++ statusText) body)
  | HttpResponse true _ body =>
      match parse body with
      | None => Thrown SyntaxError
      | Some data =>
          match content data with
          | None => Thrown TypeError
          | Some v => Returned v
          end
      end
  end.

(** [Cerebras.call(prompt, apiKey, context, model, systemPrompt)], given
    what the request comes back with. *)
Definition Cerebras_call (http : HttpResult) : result :=
  settle "Cerebras API error: " Cerebras_content http.

(** [Gemini.call(prompt, apiKey, context, systemPrompt)] likewise. *)
Definition Gemini_call (http : HttpResult) : result :=
  settle "Gemini API error: " Gemini_content http.

(** A text without unexpanded number is a string. *)
Fixpoint as_string (t : text) : option jsstring :=
  match t with
  | [] => Some []
  | U c :: t' => option_map (cons c) (as_string t')
  | NumberText _ :: _ => None
  end.

(** Is [seen], the outcome of the adapter call as [ApiService.call] sees
    it (the completion, or the [message] of what was thrown), an outcome
    of the adapter result [r]?  A completion is seen as it is returned.
    An [Error] built by the adapter is seen with its message, and so is a
    failure of [fetch].  The message of a [TypeError] or a [SyntaxError]
    is worded by the engine, and so is the expansion of a number in a
    message: any message is admitted there.  A completion that is not a
    string is outside what [call] is modelled for. *)
Definition agrees (r : result) (seen : ApiService.outcome) : bool :=
  match r, seen with
  | Returned (Some (JString s)), ApiService.Returns s' => JsString.eqb s s'
  | Thrown (ErrorWith t), ApiService.Throws m =>
      match as_string t with
      | Some s => JsString.eqb s m
      | None => true
      end
  | Thrown (NetworkFailure m'), ApiService.Throws m => JsString.eqb m' m
  | Thrown TypeError, ApiService.Throws _ => true
  | Thrown SyntaxError, ApiService.Throws _ => true
  | _, _ => false
  end.

(** A message under which a thrown value can be seen: its own where it
    has one, [wording] where the engine words it. *)
Definition message_of (wording : jsstring) (e : thrown) : jsstring :=
  match e with
  | ErrorWith t =>
      match as_string t with
      | Some s => s
      | None => wording
      end
  | NetworkFailure m => m
  | TypeError | SyntaxError => wording
  end.

(** The body of a Cerebras completion and of a Gemini completion with the
    content [v]. *)
Definition Cerebras_shape (v : json) : json :=
  JObject [(lit "choices",
            JArray [JObject [(lit "message", JObject [(lit "content", v)])]])].

Definition Gemini_shape (v : json) : json :=
  JObject [(lit "candidates",
            JArray [JObject [(lit "content",
              JObject [(lit "parts", JArray [JObject [(lit "text", v)]])])]])].

End Adapters.

Module AdapterScenarios.
Import Json JsValue Adapters.

(** HTTP 401 with the structured error body of the provider. *)
Definition unauthorized : HttpResult :=
  HttpResponse false (lit "Unauthorized")
    (q "{'error':{'message':'Invalid API key','code':401}}").

(** HTTP 502 with an HTML body. *)
Definition bad_gateway : HttpResult :=
  HttpResponse false (lit "Bad Gateway") (lit "<html>502</html>").

Definition Cerebras_ok : HttpResult :=
  HttpResponse true (lit "OK")
    (q "{'id':'c1','choices':[{'index':0,'message':{'role':'assistant','content':'4'}}]}").

(** HTTP 500 with the body [null], and HTTP 404 with a number for a
    message. *)
Definition null_body : HttpResult :=
  HttpResponse false (lit "Internal Server Error") (lit "null").

Definition numeric_message : HttpResult :=
  HttpResponse false (lit "Not Found") (q "{'error':{'message':404}}").

Definition Gemini_ok : HttpResult :=
  HttpResponse true (lit "OK")
    (q "{'candidates':[{'content':{'role':'model','parts':[{'text':'4'}]}}]}").

End AdapterScenarios.

(* ================================================================== *)
(** ** Arrays and object stores *)
(* ================================================================== *)

Module JsArray.
Section WithElement.

Variable A : Type.

(** [Array.prototype.sort(compare)] with a consistent comparator: the
    sort is stable, so the result is the one of any stable sort; it is
    written here as an insertion sort.  [compare a b <= 0] keeps [a] before
    [b]. *)
Fixpoint insert (compare : A -> A -> Z) (x : A) (l : list A) : list A :=
  match l with
  | [] => [x]
  | y :: l' => if compare x y <=? 0 then x :: y :: l' else y :: insert compare x l'
  end.

Definition sort (compare : A -> A -> Z) (l : list A) : list A :=
  fold_right (insert compare) [] l.

(** [a.slice(0, limit)]: a negative [limit] counts from the end. *)
Definition slice_to (limit : Z) (l : list A) : list A :=
  if limit <? 0
  then firstn (List.length l - Z.to_nat (- limit)) l
  else firstn (Z.to_nat limit) l.

(** [a.slice(-n)] for a positive [n]: the last [n] elements. *)
Definition slice_last (n : nat) (l : list A) : list A :=
  skipn (List.length l - n) l.

End WithElement.
End JsArray.

Module ObjectStore.
Section WithValue.

Variable V : Type.

(** An object store created with [{ keyPath: 'id', autoIncrement: true }]:
    its records in key order, each with its [id], and the current number of
    the key generator. *)
Record t : Type := mkStore {
  rows : list (Z * V);
  nextKey : Z
}.

Definition empty : t := mkStore [] 1.

(** [store.add(value)] for a value without [id]: the generator supplies
    the key, which is the request's result. *)
Definition add (v : V) (s : t) : Z * t :=
  (nextKey s, mkStore (rows s ++ [(nextKey s, v)]) (nextKey s + 1)).

Fixpoint put_row (id : Z) (v : V) (rs : list (Z * V)) : list (Z * V) :=
  match rs with
  | [] => [(id, v)]
  | (k, w) :: rs' =>
      if id =? k then (id, v) :: rs'
      else if id <? k then (id, v) :: (k, w) :: rs'
      else (k, w) :: put_row id v rs'
  end.

(** [store.put(value)] for a value whose [id] is [id]: the record under
    that key is replaced, or the value is inserted; a key at or above the
    generator's number moves the generator past it. *)
Definition put (id : Z) (v : V) (s : t) : Z * t :=
  (id, mkStore (put_row id v (rows s)) (Z.max (nextKey s) (id + 1))).

(** [store.get(id)], [None] for [undefined]. *)
Definition get (id : Z) (s : t) : option V :=
  option_map snd (find (fun r => fst r =? id) (rows s)).

(** [store.delete(id)] *)
Definition delete (id : Z) (s : t) : t :=
  mkStore (filter (fun r => negb (fst r =? id)) (rows s)) (nextKey s).

(** [store.getAll()] *)
Definition getAll (s : t) : list (Z * V) := rows s.

(** [store.index(name).getAll(value)], the index being on the property
    read by [indexed]: the records with that value, in key order. *)
Definition getAllByIndex (indexed : V -> bool) (s : t) : list (Z * V) :=
  filter (fun r => indexed (snd r)) (rows s).

(** Keys strictly ascending and all below the generator's number. *)
Fixpoint ascending (bound : Z) (rs : list (Z * V)) : Prop :=
  match rs with
  | [] => True
  | (k, _) :: rs' => bound < k /\ ascending k rs'
  end.

Definition wf (s : t) : Prop :=
  ascending 0 (rows s) /\ Forall (fun r => fst r < nextKey s) (rows s).

End WithValue.
End ObjectStore.

(* ================================================================== *)
(** ** Quiz reviews: spaced repetition *)
(* ================================================================== *)

Module QuizReviews.

(** The argument of [saveQuizReview], [{ subjectId, question, options,
    correctAnswer, userAnswer, isCorrect, topic, difficulty, type }]: the
    object the quiz view builds.  The function reads [subjectId],
    [question] and [isCorrect]; the other properties are stored as they
    come, [None] standing for [undefined].  The object has no [id]. *)
Record Answer : Type := mkAnswer {
  subjectId : jsstring;
  question : jsstring;
  options : option Json.json;
  correctAnswer : option Json.json;
  userAnswer : option Json.json;
  isCorrect : bool;
  topic : option Json.json;
  difficulty : option Json.json;
  type : option Json.json
}.

(** A record of the [quiz_reviews] store, without its [id]. *)
Record Review : Type := mkReview {
  answer : Answer;
  questionHash : Z;
  correctCount : Z;
  totalAttempts : Z;
  lastAttempt : Z;
  lastCorrect : bool;
  nextReview : Z;
  createdAt : Z
}.

Definition store := ObjectStore.t Review.

Definition DAY : Z := 86400000.

(** [_calculateNextReview(correctCount)] with [now = Date.now()]. *)
Definition _calculateNextReview (now : Z) (correctCount : Z) : Z :=
  if correctCount <=? 0 then now + 1 * DAY
  else if correctCount =? 1 then now + 3 * DAY
  else if correctCount =? 2 then now + 7 * DAY
  else now + 30 * DAY.

(** [_simpleHash(str)] *)
Definition _simpleHash (str : jsstring) : Z :=
  fold_left (fun hash c => or0 ((shl hash 5 - hash) + charCode c)) str 0.

(** [x || 0] on a number. *)
Definition or_zero (x : Z) : Z := if x =? 0 then 0 else x.

(** [existing.find(r => r.subjectId === review.subjectId)] over
    [existing = _getAllByIndex('quiz_reviews', 'questionHash', hash)]: the
    first record, in key order, with that hash and that subject. *)
Definition existingForSubject (subject : jsstring) (hash : Z) (s : store)
    : option (Z * Review) :=
  find (fun r => JsString.eqb (subjectId (answer (snd r))) subject)
       (ObjectStore.getAllByIndex (fun r => questionHash r =? hash) s).

(** [saveQuizReview(review)]: [now] is the clock at entry, [later] the
    clock read inside [_calculateNextReview]; the result is the key the
    request resolves with, and the store afterwards.  The record written
    for a known question is a copy of the stored one, [id] included, so
    [put] replaces it under its key; the record added for a new question
    is built from [review], which has no [id], so the key generator
    supplies the key. *)
Definition saveQuizReview (now later : Z) (review : Answer) (s : store)
    : Z * store :=
  let hash := _simpleHash (question review) in
  match existingForSubject (subjectId review) hash s with
  | Some (id, existing) =>
      (* Update existing review *)
      let count :=
        if isCorrect review then or_zero (correctCount existing) + 1 else 0 in
      ObjectStore.put id
        (mkReview (answer existing)
                  (questionHash existing)
                  count
                  (or_zero (totalAttempts existing) + 1)
                  now
                  (isCorrect review)
                  (_calculateNextReview later count)
                  (createdAt existing))
        s
  | None =>
      (* New review entry *)
      ObjectStore.add
        (mkReview review hash
                  (if isCorrect review then 1 else 0)
                  1
                  now
                  (isCorrect review)
                  (_calculateNextReview later (if isCorrect review then 1 else 0))
                  now)
        s
  end.

(** [getDueReviews(subjectId, limit)] with [now = Date.now()]. *)
Definition getDueReviews (now : Z) (subject : jsstring) (limit : Z) (s : store)
    : list (Z * Review) :=
  let all :=
    ObjectStore.getAllByIndex
      (fun r => JsString.eqb (subjectId (answer r)) subject) s in
  JsArray.slice_to limit
    (JsArray.sort (fun a b => nextReview (snd a) - nextReview (snd b))
       (filter (fun r => nextReview (snd r) <=? now) all)).

(** One call of [saveQuizReview] with its two clock readings. *)
Record Save : Type := mkSave {
  atEntry : Z;
  atSchedule : Z;
  saved : Answer
}.

Definition run (saves : list Save) (s : store) : store :=
  fold_left (fun s x => snd (saveQuizReview (atEntry x) (atSchedule x) (saved x) s))
            saves s.

(** The clock does not run backwards during the call. *)
Definition timely (x : Save) : Prop := atEntry x <= atSchedule x.

(** The pair a review is found by. *)
Definition review_key (r : Z * Review) : jsstring * Z :=
  (subjectId (answer (snd r)), questionHash (snd r)).

(** What holds of every record the function writes. *)
Definition row_ok (r : Review) : Prop :=
  1 <= totalAttempts r /\
  0 <= correctCount r <= totalAttempts r /\
  lastCorrect r = (0 <? correctCount r) /\
  questionHash r = _simpleHash (question (answer r)) /\
  lastAttempt r + DAY <= nextReview r.

Definition invariant (s : store) : Prop :=
  ObjectStore.wf s /\ 0 < ObjectStore.nextKey s /\
  NoDup (map review_key (ObjectStore.rows s)) /\
  Forall (fun r => row_ok (snd r)) (ObjectStore.rows s).

(** The value of the polynomial [c1 * 31^(n-1) + ... + cn], before it is
    cut to 32 bits. *)
Definition polynomial (str : jsstring) : Z :=
  fold_left (fun acc c => 31 * acc + charCode c) str 0.

(** Does the record carry that hash and that subject? *)
Definition matches (subject : jsstring) (hash : Z) (r : Z * Review) : bool :=
  (questionHash (snd r) =? hash) && JsString.eqb (subjectId (answer (snd r))) subject.

(** The comparator of [getDueReviews]: [a.nextReview - b.nextReview]. *)
Definition by_due_time (a b : Z * Review) : Z := nextReview (snd a) - nextReview (snd b).

(** The reviews of a subject that are due at [now], before sorting. *)
Definition due_now (now : Z) (subject : jsstring) (s : store) : list (Z * Review) :=
  filter (fun r => nextReview (snd r) <=? now)
    (ObjectStore.getAllByIndex
       (fun r => JsString.eqb (subjectId (answer r)) subject) s).

(** A first answer to the question [text], right or wrong. *)
Definition answered (subject : string) (text : string) (right : bool) : Answer :=
  mkAnswer (lit subject) (lit text) None None None right None None None.

End QuizReviews.

(* ================================================================== *)
(** ** Tool history *)
(* ================================================================== *)

Module ToolHistory.

(** A record of the [tool_history] store, without its [id]. *)
Record Usage : Type := mkUsage {
  toolId : jsstring;
  toolName : jsstring;
  subjectId : jsstring;
  inputs : list Json.json;
  success : bool;
  timestamp : Z
}.

Definition store := ObjectStore.t Usage.

(** [recordToolUsage(toolId, toolName, subjectId, inputs, success)] with
    [now = Date.now()]. *)
Definition recordToolUsage (now : Z) (id name subject : jsstring)
    (args : list Json.json) (ok : bool) (s : store) : Z * store :=
  ObjectStore.add (mkUsage id name subject args ok now) s.

(** The comparator [(a, b) => b.timestamp - a.timestamp]. *)
Definition newest_first (a b : Z * Usage) : Z :=
  timestamp (snd b) - timestamp (snd a).

Definition of_subject (subject : jsstring) (s : store) : list (Z * Usage) :=
  ObjectStore.getAllByIndex (fun u => JsString.eqb (subjectId u) subject) s.

(** [getRecentTools(subjectId, limit)] *)
Definition getRecentTools (subject : jsstring) (limit : Z) (s : store)
    : list (Z * Usage) :=
  JsArray.slice_to limit (JsArray.sort newest_first (of_subject subject s)).

(** [getAllToolHistory(limit)] *)
Definition getAllToolHistory (limit : Z) (s : store) : list (Z * Usage) :=
  JsArray.slice_to limit (JsArray.sort newest_first (ObjectStore.getAll s)).

(** [getTotalToolExecutions()] *)
Definition getTotalToolExecutions (s : store) : nat :=
  List.length (ObjectStore.getAll s).

(** The value kept per tool: [{ count, lastUsed }]. *)
Record Count : Type := mkCount {
  count : Z;
  lastUsed : Z
}.

(** The names every object inherits from [Object.prototype].  Read on the
    fresh [counts] object they give a function (an object for
    [__proto__]), which is truthy, so the loop never creates an own
    property of such a name. *)
Definition inherited (name : jsstring) : bool :=
  existsb (fun n => JsString.eqb name (lit n))
    ["constructor"; "__proto__"; "__defineGetter__"; "__defineSetter__";
     "__lookupGetter__"; "__lookupSetter__"; "hasOwnProperty";
     "isPrototypeOf"; "propertyIsEnumerable"; "toLocaleString";
     "toString"; "valueOf"]%string.

(** One turn of the loop of [getToolUsageCounts].  For an inherited name
    the increments land on the inherited object and [counts] itself stays
    as it is. *)
Definition count_entry (counts : JsMap.t Count) (entry : Z * Usage)
    : JsMap.t Count :=
  let id := toolId (snd entry) in
  if inherited id then counts
  else
    let current :=
      match JsMap.get id counts with
      | Some c => c
      | None => mkCount 0 0
      end in
    let counted := count current + 1 in
    let last :=
      if timestamp (snd entry) >? lastUsed current
      then timestamp (snd entry) else lastUsed current in
    JsMap.set id (mkCount counted last) counts.

(** [getToolUsageCounts(subjectId)]: the own properties of the object
    returned, by tool id. *)
Definition getToolUsageCounts (subject : jsstring) (s : store) : JsMap.t Count :=
  fold_left count_entry (of_subject subject s) (JsMap.empty Count).

(** The summary expected for a list of usages of one tool. *)
Definition summary (entries : list (Z * Usage)) : option Count :=
  match entries with
  | [] => None
  | _ :: _ =>
      Some (mkCount (Z.of_nat (List.length entries))
                    (fold_left Z.max (map (fun e => timestamp (snd e)) entries) 0))
  end.

Definition of_tool (id : jsstring) (entries : list (Z * Usage)) : list (Z * Usage) :=
  filter (fun e => JsString.eqb (toolId (snd e)) id) entries.

(** What the loop of [getToolUsageCounts] has under [id] after the entries
    [l], having started with [c]. *)
Definition counted (c : option Count) (l : list (Z * Usage)) : option Count :=
  match l with
  | [] => c
  | _ :: _ =>
      let start := match c with Some x => x | None => mkCount 0 0 end in
      Some (mkCount (count start + Z.of_nat (List.length l))
                    (fold_left Z.max (map (fun e => timestamp (snd e)) l)
                               (lastUsed start)))
  end.

End ToolHistory.

(* ================================================================== *)
(** ** Settings and global statistics *)
(* ================================================================== *)

Module GlobalStats.
Import Json.

(** The [settings] and the [global_stats] store, both with
    [{ keyPath: 'key' }]: per key the [value] of its record, [None] for a
    record whose [value] is [undefined]. *)
Definition store := JsMap.t (option json).

(** [record?.value ?? defaultValue] for [record = await _get(store, key)]. *)
Definition value_or (defaultValue : json) (record : option (option json)) : json :=
  match record with
  | Some (Some JNull) => defaultValue
  | Some (Some v) => v
  | Some None => defaultValue
  | None => defaultValue
  end.

(** [getGlobalStat(key, defaultValue)] *)
Definition getGlobalStat (key : jsstring) (defaultValue : json) (s : store) : json :=
  value_or defaultValue (JsMap.get key s).

(** [setGlobalStat(key, value)] *)
Definition setGlobalStat (key : jsstring) (value : option json) (s : store) : store :=
  JsMap.set key value s.

(** [getSetting(key, defaultValue)] *)
Definition getSetting (key : jsstring) (defaultValue : json) (s : store) : json :=
  value_or defaultValue (JsMap.get key s).

(** [setSetting(key, value)] *)
Definition setSetting (key : jsstring) (value : option json) (s : store) : store :=
  JsMap.set key value s.

(** [array.includes(topic)] for a string [topic]. *)
Definition includes (topic : jsstring) (elems : list json) : bool :=
  existsb (fun e => match e with
                    | JString t => JsString.eqb t topic
                    | _ => false
                    end) elems.

(** [text.includes(topic)]: does [topic] occur in [text]? *)
Fixpoint occurs (topic text : jsstring) : bool :=
  startsWith topic text
  || match text with
     | [] => false
     | _ :: text' => occurs topic text'
     end.

(** [addLearnedTopic(topic)]: the number returned and the store
    afterwards, or [None] when the call rejects with a [TypeError]
    ([includes] or [push] is not a function of the stored value). *)
Definition addLearnedTopic (topic : jsstring) (s : store) : option (nat * store) :=
  match getGlobalStat (lit "topicsLearned") (JArray []) s with
  | JArray topics =>
      if includes topic topics then Some (List.length topics, s)
      else Some (List.length (topics ++ [JString topic]),
                 setGlobalStat (lit "topicsLearned")
                               (Some (JArray (topics ++ [JString topic]))) s)
  | JString text =>
      if occurs topic text then Some (List.length text, s) else None
  | _ => None
  end.

(** Adding topics one after the other, stopping at the first rejection. *)
Fixpoint learn (topics : list jsstring) (s : store) : option store :=
  match topics with
  | [] => Some s
  | t :: rest =>
      match addLearnedTopic t s with
      | Some (_, s') => learn rest s'
      | None => None
      end
  end.

End GlobalStats.

(* ================================================================== *)
(** ** Per-subject analytics *)
(* ================================================================== *)

Module Analytics.

(** An element of [quizScores]: [{ score, total, timestamp }]. *)
Record QuizScore : Type := mkQuizScore {
  score : Z;
  total : Z;
  q_timestamp : Z
}.

(** An element of [sessions], as [endSession] builds it:
    [{ timestamp, duration, interactions }]. *)
Record StudySession : Type := mkStudySession {
  s_timestamp : Z;
  duration : Z;
  interactions : Z
}.

(** A record of the [analytics] store, keyed by [subjectId]; a property
    that the record lacks is [None]. *)
Record Record_ : Type := mkRecord {
  studyTime : option Z;
  quizScores : option (list QuizScore);
  weakTopics : option (list jsstring);
  sessions : option (list StudySession);
  lastAccessed : option Z
}.

Definition store := JsMap.t Record_.

(** The [updates] argument; a property that is not given is [None]. *)
Record Updates : Type := mkUpdates {
  u_studyTime : option Z;
  u_quizScore : option Z;
  u_quizTotal : option Z;
  u_session : option StudySession;
  u_weakTopic : option jsstring
}.

(** [getAnalytics(subjectId)].  The function returns
    [this._get('analytics', subjectId) || {...}]; [_get] returns a promise,
    which is truthy, so the object after [||] is never used and the call
    resolves with the stored record, or with [undefined] ([None]) when
    there is none. *)
Definition getAnalytics (subject : jsstring) (s : store) : option Record_ :=
  JsMap.get subject s.

(** [x || 0] and [x || []] on a property that may be missing. *)
Definition number_or_zero (x : option Z) : Z :=
  match x with Some z => z | None => 0 end.

Definition list_or_empty (A : Type) (x : option (list A)) : list A :=
  match x with Some l => l | None => [] end.

(** [if (updates.studyTime)]: given and not zero. *)
Definition given_number (x : option Z) : bool :=
  match x with Some z => negb (z =? 0) | None => false end.

(** [if (updates.weakTopic)]: given and not empty. *)
Definition given_text (x : option jsstring) : bool :=
  match x with Some t => JsString.truthy t | None => false end.

(** [[...new Set(l)]]: the first occurrence of every element, in order. *)
Fixpoint unique (seen l : list jsstring) : list jsstring :=
  match l with
  | [] => []
  | x :: l' =>
      if existsb (JsString.eqb x) seen then unique seen l'
      else x :: unique (x :: seen) l'
  end.

(** Does the update read a property of [existing]? *)
Definition reads_existing (u : Updates) : bool :=
  given_number (u_studyTime u)
  || match u_quizScore u with Some _ => true | None => false end
  || match u_session u with Some _ => true | None => false end
  || given_text (u_weakTopic u).

(** The record [merged] built from an existing record. *)
Definition merge (scoredAt_ accessedAt : Z) (existing : Record_) (u : Updates) : Record_ :=
  let time :=
    if given_number (u_studyTime u)
    then Some (number_or_zero (studyTime existing) + number_or_zero (u_studyTime u))
    else studyTime existing in
  let scores :=
    match u_quizScore u with
    | Some sc =>
        Some (list_or_empty (quizScores existing)
              ++ [mkQuizScore sc
                    (if given_number (u_quizTotal u)
                     then number_or_zero (u_quizTotal u) else 10)
                    scoredAt_])
    | None => quizScores existing
    end in
  let sess :=
    match u_session u with
    | Some x =>
        let all := list_or_empty (sessions existing) ++ [x] in
        Some (if (100 <? Z.of_nat (List.length all))
              then JsArray.slice_last 100 all else all)
    | None => sessions existing
    end in
  let weak :=
    match u_weakTopic u with
    | Some t =>
        if JsString.truthy t
        then Some (unique [] (list_or_empty (weakTopics existing) ++ [t]))
        else weakTopics existing
    | None => weakTopics existing
    end in
  mkRecord time scores weak sess (Some accessedAt).

(** [updateAnalytics(subjectId, updates)]: the store afterwards, or [None]
    when the call rejects.  Without a stored record [existing] is
    [undefined], and the first property read on it throws a [TypeError]
    before anything is written; an update that reads nothing writes a
    record with [subjectId] and [lastAccessed] only. *)
Definition updateAnalytics (scoredAt_ accessedAt : Z) (subject : jsstring)
    (u : Updates) (s : store) : option store :=
  match getAnalytics subject s with
  | Some existing =>
      Some (JsMap.set subject (merge scoredAt_ accessedAt existing u) s)
  | None =>
      if reads_existing u then None
      else Some (JsMap.set subject
                   (mkRecord None None None None (Some accessedAt)) s)
  end.

(** The update [endSession] sends: study time and a session. *)
Definition session_update (minutes : Z) (x : StudySession) : Updates :=
  mkUpdates (Some minutes) None None (Some x) None.

(** The updates [recordQuiz] sends: a score, and one per weak topic. *)
Definition quiz_update (sc tot : Z) : Updates :=
  mkUpdates None (Some sc) (Some tot) None None.

Definition weak_topic_update (t : jsstring) : Updates :=
  mkUpdates None None None None (Some t).

(** One call with its clock readings. *)
Record Call : Type := mkCall {
  c_scoredAt : Z;
  c_accessedAt : Z;
  c_subject : jsstring;
  c_updates : Updates
}.

(** A sequence of calls; a call that rejects leaves the store as it is
    (its caller catches or drops the rejection). *)
Definition run (calls : list Call) (s : store) : store :=
  fold_left (fun s c =>
               match updateAnalytics (c_scoredAt c) (c_accessedAt c)
                                     (c_subject c) (c_updates c) s with
               | Some s' => s'
               | None => s
               end) calls s.

(** The study time that the calls for [subject] carry, summed. *)
Fixpoint study_minutes (subject : jsstring) (calls : list Call) : Z :=
  match calls with
  | [] => 0
  | c :: rest =>
      (if JsString.eqb (c_subject c) subject
       then number_or_zero (u_studyTime (c_updates c)) else 0)
      + study_minutes subject rest
  end.

(** The number of calls for [subject] that carry a quiz score. *)
Fixpoint quiz_count (subject : jsstring) (calls : list Call) : nat :=
  match calls with
  | [] => O
  | c :: rest =>
      ((if JsString.eqb (c_subject c) subject
        then match u_quizScore (c_updates c) with Some _ => 1 | None => 0 end
        else 0)
       + quiz_count subject rest)%nat
  end.

End Analytics.

(* ================================================================== *)
(** ** Documents and their chunks *)
(* ================================================================== *)

Module Documents.

(** A chunk as [saveChunks] receives it, [{ text, page, charStart,
    charEnd }]; it has no [id]. *)
Record ChunkText : Type := mkChunkText {
  text : jsstring;
  page : Z;
  charStart : Z;
  charEnd : Z
}.

(** A record of the [chunks] store, without its [id]. *)
Record Chunk : Type := mkChunk {
  content : ChunkText;
  documentId : Z;
  subjectId : jsstring;
  createdAt : Z
}.

(** A record of the [documents] store, without its [id] and its blob. *)
Record Document : Type := mkDocument {
  d_subjectId : jsstring;
  filename : jsstring;
  size : Z;
  uploadedAt : Z;
  pageCount : Z
}.

(** The two stores. *)
Record Db : Type := mkDb {
  documents : ObjectStore.t Document;
  chunks : ObjectStore.t Chunk
}.

(** The loop of [saveChunks]: one [store.add] per chunk, [clock i] being
    the reading of [Date.now()] for the chunk at index [i]. *)
Fixpoint add_chunks (document : Z) (subject : jsstring) (clock : nat -> Z)
    (i : nat) (l : list ChunkText) (s : ObjectStore.t Chunk)
    : ObjectStore.t Chunk :=
  match l with
  | [] => s
  | c :: rest =>
      add_chunks document subject clock (S i) rest
        (snd (ObjectStore.add (mkChunk c document subject (clock i)) s))
  end.

(** [saveChunks(documentId, subjectId, chunks)]: the number it resolves
    with and the stores afterwards. *)
Definition saveChunks (document : Z) (subject : jsstring) (clock : nat -> Z)
    (l : list ChunkText) (db : Db) : nat * Db :=
  (List.length l,
   mkDb (documents db) (add_chunks document subject clock 0 l (chunks db))).

(** [getChunksForDocument(documentId)] *)
Definition getChunksForDocument (document : Z) (db : Db) : list (Z * Chunk) :=
  ObjectStore.getAllByIndex (fun c => documentId c =? document) (chunks db).

(** [getChunksBySubject(subjectId)] *)
Definition getChunksBySubject (subject : jsstring) (db : Db) : list (Z * Chunk) :=
  ObjectStore.getAllByIndex (fun c => JsString.eqb (subjectId c) subject) (chunks db).

(** [deleteDocument(documentId)]: every chunk found under the document is
    deleted by its [id], then the document. *)
Definition deleteDocument (document : Z) (db : Db) : Db :=
  mkDb (ObjectStore.delete document (documents db))
       (fold_left (fun s chunk => ObjectStore.delete (fst chunk) s)
                  (getChunksForDocument document db) (chunks db)).

(** The records [saveChunks] adds, with the keys they get from a
    generator at [key]. *)
Fixpoint added (document : Z) (subject : jsstring) (clock : nat -> Z)
    (i : nat) (key : Z) (l : list ChunkText) : list (Z * Chunk) :=
  match l with
  | [] => []
  | c :: rest =>
      (key, mkChunk c document subject (clock i))
      :: added document subject clock (S i) (key + 1) rest
  end.

End Documents.

(* ================================================================== *)
(** * Properties *)
(* ================================================================== *)

(* ================================================================== *)
(** ** The definitions on small inputs *)
(* ================================================================== *)

Module Samples.
Import ResponseCache Json JsValue ApiService Scenarios.

Example split_lines :
  split 10%N (lit "a" ++ [10%N] ++ lit "bc" ++ [10%N])
  = [lit "a"; lit "bc"; []].
Proof. reflexivity. Qed.

Example split_empty : split 10%N [] = [[]].
Proof. reflexivity. Qed.

Example trim_both_ends :
  trim ([9%N; 32%N] ++ lit "data: x" ++ [32%N; 13%N]) = lit "data: x".
Proof. reflexivity. Qed.

Example replace_first_only :
  removeFirst (lit "data:") (lit " data: a data: b") = lit "  a data: b".
Proof. reflexivity. Qed.

Example toString36_samples :
  map toString36 [0; 35; 36; -1; 2147483647; -2147483648]
  = map lit ["0"; "z"; "10"; "-1"; "zik0zj"; "-zik0zk"]%string.
Proof. vm_compute. reflexivity. Qed.

Example hash_of_Aa : hash_of (lit "Aa") = 2112.
Proof. vm_compute. reflexivity. Qed.

(** The hash wraps into the negative range. *)
Example hash_of_wraps :
  hash_of (lit "The quick brown fox jumps over the lazy dog") = -609428141.
Proof. vm_compute. reflexivity. Qed.

Example generateKey_samples :
  generateKey (lit "S") (lit "2+2?") (lit "llama-3.3-70b") = lit "-in71kl" /\
  generateKey (lit "S") (lit "2+2?") (lit "gemini") = lit "wi48he".
Proof. vm_compute. split; reflexivity. Qed.

Example parse_frame_payload :
  parse (q "{'choices':[{'delta':{'content':'hi'}}]}")
  = Some (JObject [(lit "choices",
            JArray [JObject [(lit "delta",
              JObject [(lit "content", JString (lit "hi"))])]])]).
Proof. vm_compute. reflexivity. Qed.

Example parse_values :
  parse (q " [1, -2.50e+3, true, null, 'aA\n', {}] ")
  = Some (JArray [JNumber (mkNumber false 1 0); JNumber (mkNumber true 250 1);
                  JBool true; JNull; JString (lit "aA" ++ [10%N]); JObject []]).
Proof. vm_compute. reflexivity. Qed.

Example parse_rejects :
  map parse [q "{'choices':[{'delta':{'con"; lit "[DONE]"; lit "01"; lit "[1,]";
             q "{'a':1,}"; lit "1."; lit "tru"; q "'abc"; lit ""; lit "1 2"]
  = repeat None 10.
Proof. vm_compute. reflexivity. Qed.

Example delta_of_frame :
  frame_delta (payload (frame "hi")) = Some (JString (lit "hi"), of_string (lit "hi")).
Proof. vm_compute. reflexivity. Qed.

(** No delta: a frame with an empty content, one without [choices], the
    [null] payload. *)
Example frames_without_delta :
  map frame_delta [q "{'choices':[{'delta':{'content':''}}]}";
                   q "{'id':'x'}"; lit "null"]
  = [None; None; None].
Proof. vm_compute. reflexivity. Qed.

Example zero_is_falsy :
  map (fun s => option_map truthy (parse (lit s))) ["0"; "-0"; "0.0e7"; "1e-400"; "5e-324"]%string
  = [Some false; Some false; Some false; Some false; Some true].
Proof. vm_compute. reflexivity. Qed.

(** The scenario of the specification: a first call answered by the primary
    provider, the same call again served from the cache. *)
Example first_call_then_cached :
  let first := call answering first_clock (request primary_only) empty_cache in
  settled first = Resolved (mkResult (lit "4") ProviderCerebras false None) /\
  requests first = [ToCerebras (Returns (lit "4"))] /\
  settled (call answering second_clock (request primary_only) (cache_after first))
  = Resolved (mkResult (lit "4") ProviderCache true None).
Proof. vm_compute. repeat split; reflexivity. Qed.

End Samples.

Module JsStringFacts.

Lemma eqb_refl (s : jsstring) : eqb s s = true.
Proof.
  induction s as [|c s IH]; simpl; [reflexivity|].
  unfold unit_eqb. now rewrite N.eqb_refl, IH.
Qed.

Lemma eqb_eq (a b : jsstring) : eqb a b = true <-> a = b.
Proof.
  split.
  - revert b. induction a as [|x a IH]; intros [|y b] H; simpl in H;
      try discriminate; [reflexivity|].
    apply andb_true_iff in H. destruct H as [Hxy Hab].
    apply N.eqb_eq in Hxy. apply IH in Hab. now subst.
  - intros ->. apply eqb_refl.
Qed.

Lemma eqb_neq (a b : jsstring) : eqb a b = false <-> a <> b.
Proof.
  split.
  - intros H E. apply eqb_eq in E. congruence.
  - intros H. destruct (eqb a b) eqn:E; [|reflexivity].
    apply eqb_eq in E. contradiction.
Qed.

End JsStringFacts.

Module Int32Facts.

Lemma ToInt32_range (z : Z) : in_range (ToInt32 z).
Proof.
  unfold in_range, ToInt32.
  pose proof (Z.mod_pos_bound (z + 2 ^ 31) (2 ^ 32) ltac:(lia)). lia.
Qed.

Lemma ToInt32_id (z : Z) : in_range z -> ToInt32 z = z.
Proof.
  unfold in_range, ToInt32. intros H.
  rewrite Z.mod_small by lia. lia.
Qed.

Lemma or0_ToInt32 (x : Z) : or0 x = ToInt32 x.
Proof. unfold or0. change (ToInt32 0) with 0. apply Z.lor_0_r. Qed.

Lemma ToInt32_congr (a b : Z) :
  a mod 2 ^ 32 = b mod 2 ^ 32 -> ToInt32 a = ToInt32 b.
Proof.
  intros H. unfold ToInt32.
  rewrite (Z.add_mod a), (Z.add_mod b), H by lia. reflexivity.
Qed.

Lemma ToInt32_mod (z : Z) : ToInt32 z mod 2 ^ 32 = z mod 2 ^ 32.
Proof.
  unfold ToInt32.
  rewrite Zminus_mod, Zmod_mod, <- Zminus_mod.
  f_equal. lia.
Qed.

End Int32Facts.

Module JsMapFacts.
Section WithValue.

Variable V : Type.
Implicit Types (m : JsMap.t V) (k : jsstring) (v : V).

Import JsMap.



Lemma delete_first_key (m : t V) :
  delete_opt (first_key m) m = tl m.
Proof.
  destruct m as [|[k v] m]; simpl; [reflexivity|].
  now rewrite JsStringFacts.eqb_refl.
Qed.

Lemma get_set_same (k : jsstring) (v : V) (m : t V) :
  get k (set k v m) = Some v.
Proof.
  induction m as [|[k' v'] m IH]; simpl.
  - now rewrite JsStringFacts.eqb_refl.
  - destruct (JsString.eqb k k') eqn:E; simpl.
    + now rewrite JsStringFacts.eqb_refl.
    + now rewrite E.
Qed.

Lemma get_set_other (k k' : jsstring) (v : V) (m : t V) :
  k' <> k -> get k' (set k v m) = get k' m.
Proof.
  intros Hne. induction m as [|[k0 v0] m IH]; simpl.
  - apply JsStringFacts.eqb_neq in Hne. now rewrite Hne.
  - destruct (JsString.eqb k k0) eqn:E; simpl.
    + apply JsStringFacts.eqb_eq in E. subst k0.
      apply JsStringFacts.eqb_neq in Hne. now rewrite Hne.
    + destruct (JsString.eqb k' k0); [reflexivity|exact IH].
Qed.


Lemma set_present_keys (k : jsstring) (v : V) (m : t V) :
  has k m = true -> keys (set k v m) = keys m.
Proof.
  unfold has. induction m as [|[k' v'] m IH]; simpl; [discriminate|].
  destruct (JsString.eqb k k') eqn:E; simpl.
  - apply JsStringFacts.eqb_eq in E. now subst.
  - intros H. now rewrite IH.
Qed.

Lemma has_keys (k : jsstring) (m : t V) :
  has k m = true <-> In k (keys m).
Proof.
  unfold has. induction m as [|[k' v'] m IH]; simpl.
  - split; [discriminate|tauto].
  - destruct (JsString.eqb k k') eqn:E.
    + apply JsStringFacts.eqb_eq in E. subst. tauto.
    + apply JsStringFacts.eqb_neq in E. rewrite IH.
      split; [tauto|]. intros [H|H]; [congruence|exact H].
Qed.

End WithValue.
End JsMapFacts.

(* ================================================================== *)
(** ** The parser does not run out of fuel *)
(* ================================================================== *)

Module JsonTheory.
Import Json.

Lemma skip_ws_le (s : jsstring) :
  (List.length (skip_ws s) <= List.length s)%nat.
Proof.
  induction s as [|c s IH]; simpl; [lia|].
  destruct (isJsonSpace c); simpl; lia.
Qed.

Lemma skip_ws_cons (s r : jsstring) (c : code_unit) :
  skip_ws s = c :: r -> (List.length r < List.length s)%nat.
Proof.
  intros E. pose proof (skip_ws_le s) as H. rewrite E in H. simpl in H. lia.
Qed.

Lemma string_body_lt (n : nat) : forall s acc str r,
  (List.length s <= n)%nat ->
  string_body s acc = Some (str, r) ->
  (List.length r < List.length s)%nat.
Proof.
  induction n as [|n IH]; intros s acc str r Hn E.
  - destruct s; [discriminate E|simpl in Hn; lia].
  - destruct s as [|c s]; [discriminate E|]. simpl in E, Hn.
    destruct (unit_eqb c quote).
    { injection E as _ <-. simpl. lia. }
    destruct (isChar c "\").
    + destruct s as [|e s1]; [discriminate E|].
      destruct (isChar e "u").
      * destruct s1 as [|h1 [|h2 [|h3 [|h4 s2]]]]; try discriminate E.
        destruct (hex4 h1 h2 h3 h4); [|discriminate E].
        apply IH in E; simpl in *; lia.
      * destruct (escape e); [|discriminate E].
        apply IH in E; simpl in *; lia.
    + destruct (c <? 32)%N; [discriminate E|].
      apply IH in E; simpl; lia.
Qed.

Lemma digits_le (s : jsstring) : forall acc len m k r,
  digits s acc len = (m, k, r) -> (List.length r <= List.length s)%nat.
Proof.
  induction s as [|c s IH]; intros acc len m k r E; simpl in E.
  - injection E as _ _ <-. simpl. lia.
  - destruct (digit_val c).
    + apply IH in E. simpl. lia.
    + injection E as _ _ <-. simpl. lia.
Qed.

Lemma int_part_lt (s r : jsstring) (m : N) :
  int_part s = Some (m, r) -> (List.length r < List.length s)%nat.
Proof.
  unfold int_part. destruct s as [|c s]; [discriminate|].
  destruct (isChar c "0").
  - intros E. injection E as _ <-. simpl. lia.
  - destruct (digit_val c) as [d|]; [|discriminate].
    destruct (digits s d 1) as [[m' k] r'] eqn:Ed.
    intros E. injection E as _ <-.
    apply digits_le in Ed. simpl. lia.
Qed.

Lemma frac_part_le (s r : jsstring) (m m' : N) (k : nat) :
  frac_part m s = Some (m', k, r) -> (List.length r <= List.length s)%nat.
Proof.
  unfold frac_part. destruct s as [|c s].
  - intros E. injection E as _ _ <-. simpl. lia.
  - destruct (isChar c ".").
    + destruct (digits s m 0) as [[m1 [|k1]] r1] eqn:Ed; [discriminate|].
      intros E. injection E as _ _ <-.
      apply digits_le in Ed. simpl. lia.
    + intros E. injection E as _ _ <-. simpl. lia.
Qed.

Lemma exp_part_le (s r : jsstring) (e : Z) :
  exp_part s = Some (e, r) -> (List.length r <= List.length s)%nat.
Proof.
  unfold exp_part. destruct s as [|c s].
  - intros E. injection E as _ <-. simpl. lia.
  - destruct (isChar c "e" || isChar c "E").
    + destruct (match s with
                | [] => (1, s)
                | p :: r' => if isChar p "+" then (1, r')
                             else if isChar p "-" then (-1, r') else (1, s)
                end) as [sign r1] eqn:Es.
      assert (Hr1 : (List.length r1 <= List.length s)%nat).
      { destruct s as [|p s'].
        - injection Es as _ <-. simpl. lia.
        - destruct (isChar p "+"); [injection Es as _ <-; simpl; lia|].
          destruct (isChar p "-"); injection Es as _ <-; simpl; lia. }
      destruct (digits r1 0 0) as [[e1 [|k1]] r2] eqn:Ed; [discriminate|].
      intros E. injection E as _ <-.
      apply digits_le in Ed. simpl. lia.
    + intros E. injection E as _ <-. simpl. lia.
Qed.

Lemma number_lit_lt (s r : jsstring) (v : json) :
  number_lit s = Some (v, r) -> (List.length r < List.length s)%nat.
Proof.
  unfold number_lit.
  destruct (match s with
            | [] => (false, s)
            | c :: r0 => if isChar c "-" then (true, r0) else (false, s)
            end) as [neg s1] eqn:Es.
  assert (Hs1 : (List.length s1 <= List.length s)%nat).
  { destruct s as [|c s'].
    - injection Es as _ <-. simpl. lia.
    - destruct (isChar c "-"); injection Es as _ <-; simpl; lia. }
  destruct (int_part s1) as [[m s2]|] eqn:Ei; [|discriminate].
  destruct (frac_part m s2) as [[[m' k] s3]|] eqn:Ef; [|discriminate].
  destruct (exp_part s3) as [[e s4]|] eqn:Ee; [|discriminate].
  intros E. injection E as _ <-.
  apply int_part_lt in Ei. apply frac_part_le in Ef. apply exp_part_le in Ee.
  lia.
Qed.

Lemma startsWith_length (p s : jsstring) :
  startsWith p s = true -> (List.length p <= List.length s)%nat.
Proof.
  revert s. induction p as [|x p IH]; intros [|y s] H; simpl in *;
    try lia; try discriminate.
  apply andb_true_iff in H. destruct H as [_ H]. apply IH in H. lia.
Qed.

Lemma lit_length (w : string) : List.length (lit w) = String.length w.
Proof.
  unfold lit. rewrite length_map.
  induction w as [|a w IH]; simpl; [reflexivity|now rewrite IH].
Qed.

Lemma keyword_lt (w : string) (v v' : json) (s r : jsstring) :
  (0 < String.length w)%nat ->
  keyword w v s = Some (v', r) -> (List.length r < List.length s)%nat.
Proof.
  unfold keyword. intros Hw.
  destruct (startsWith (lit w) s) eqn:E; [|discriminate].
  intros H. injection H as _ <-.
  apply startsWith_length in E. rewrite lit_length in E.
  rewrite length_skipn. lia.
Qed.

(** One unfolding of each function of the grammar. *)
Lemma value_S (fuel : nat) (s : jsstring) :
  value (S fuel) s
  = match skip_ws s with
    | [] => None
    | c :: r =>
        if isChar c "{" then
          match skip_ws r with
          | c' :: r' => if isChar c' "}" then Some (JObject [], r')
                        else members fuel r []
          | [] => None
          end
        else if isChar c "[" then
          match skip_ws r with
          | c' :: r' => if isChar c' "]" then Some (JArray [], r')
                        else elements fuel r []
          | [] => None
          end
        else if unit_eqb c quote then
          match string_body r [] with
          | Some (str, r') => Some (JString str, r')
          | None => None
          end
        else if isChar c "t" then keyword "true" (JBool true) (c :: r)
        else if isChar c "f" then keyword "false" (JBool false) (c :: r)
        else if isChar c "n" then keyword "null" JNull (c :: r)
        else number_lit (c :: r)
    end.
Proof. reflexivity. Qed.

Lemma elements_S (fuel : nat) (s : jsstring) (acc : list json) :
  elements (S fuel) s acc
  = match value fuel s with
    | None => None
    | Some (v, r) =>
        match skip_ws r with
        | c :: r' =>
            if isChar c "," then elements fuel r' (v :: acc)
            else if isChar c "]" then Some (JArray (rev (v :: acc)), r')
            else None
        | [] => None
        end
    end.
Proof. reflexivity. Qed.

Lemma members_S (fuel : nat) (s : jsstring) (acc : list (jsstring * json)) :
  members (S fuel) s acc
  = match skip_ws s with
    | q :: r =>
        if unit_eqb q quote then
          match string_body r [] with
          | None => None
          | Some (k, r1) =>
              match skip_ws r1 with
              | colon :: r2 =>
                  if isChar colon ":" then
                    match value fuel r2 with
                    | None => None
                    | Some (v, r3) =>
                        match skip_ws r3 with
                        | c :: r4 =>
                            if isChar c "," then members fuel r4 ((k, v) :: acc)
                            else if isChar c "}" then Some (JObject (rev ((k, v) :: acc)), r4)
                            else None
                        | [] => None
                        end
                    end
                  else None
              | [] => None
              end
          end
        else None
    | [] => None
    end.
Proof. reflexivity. Qed.

(** Every successful parse consumes input. *)
Lemma consumes (fuel : nat) :
  (forall s v r, value fuel s = Some (v, r) ->
     (List.length r < List.length s)%nat) /\
  (forall s acc v r, elements fuel s acc = Some (v, r) ->
     (List.length r < List.length s)%nat) /\
  (forall s acc v r, members fuel s acc = Some (v, r) ->
     (List.length r < List.length s)%nat).
Proof.
  induction fuel as [|fuel (IHv & IHe & IHm)].
  { repeat split; intros; discriminate. }
  repeat split.
  - intros s v r. rewrite value_S.
    destruct (skip_ws s) as [|c r0] eqn:Es; [discriminate|].
    apply skip_ws_cons in Es.
    destruct (isChar c "{").
    { destruct (skip_ws r0) as [|c' r'] eqn:Er; [discriminate|].
      apply skip_ws_cons in Er.
      destruct (isChar c' "}").
      - intros E. injection E as _ <-. lia.
      - intros E. apply IHm in E. lia. }
    destruct (isChar c "[").
    { destruct (skip_ws r0) as [|c' r'] eqn:Er; [discriminate|].
      apply skip_ws_cons in Er.
      destruct (isChar c' "]").
      - intros E. injection E as _ <-. lia.
      - intros E. apply IHe in E. lia. }
    destruct (unit_eqb c quote).
    { destruct (string_body r0 []) as [[str r']|] eqn:Eb; [|discriminate].
      intros E. injection E as _ <-.
      apply (string_body_lt (n := List.length r0)) in Eb; lia. }
    assert (Hk : forall w v0, (0 < String.length w)%nat ->
                   keyword w v0 (c :: r0) = Some (v, r) ->
                   (List.length r < List.length s)%nat).
    { intros w v0 Hw E. apply keyword_lt in E; [simpl in E; lia|exact Hw]. }
    destruct (isChar c "t"); [apply Hk; simpl; lia|].
    destruct (isChar c "f"); [apply Hk; simpl; lia|].
    destruct (isChar c "n"); [apply Hk; simpl; lia|].
    intros E. apply number_lit_lt in E. simpl in E. lia.
  - intros s acc v r. rewrite elements_S.
    destruct (value fuel s) as [[v0 r0]|] eqn:Ev; [|discriminate].
    apply IHv in Ev.
    destruct (skip_ws r0) as [|c r'] eqn:Er; [discriminate|].
    apply skip_ws_cons in Er.
    destruct (isChar c ",").
    + intros E. apply IHe in E. lia.
    + destruct (isChar c "]"); [|discriminate].
      intros E. injection E as _ <-. lia.
  - intros s acc v r. rewrite members_S.
    destruct (skip_ws s) as [|q0 r0] eqn:Es; [discriminate|].
    apply skip_ws_cons in Es.
    destruct (unit_eqb q0 quote); [|discriminate].
    destruct (string_body r0 []) as [[k r1]|] eqn:Eb; [|discriminate].
    apply (string_body_lt (n := List.length r0)) in Eb; [|lia].
    destruct (skip_ws r1) as [|colon r2] eqn:E1; [discriminate|].
    apply skip_ws_cons in E1.
    destruct (isChar colon ":"); [|discriminate].
    destruct (value fuel r2) as [[v0 r3]|] eqn:Ev; [|discriminate].
    apply IHv in Ev.
    destruct (skip_ws r3) as [|c r4] eqn:E3; [discriminate|].
    apply skip_ws_cons in E3.
    destruct (isChar c ",").
    + intros E. apply IHm in E. lia.
    + destruct (isChar c "}"); [|discriminate].
      intros E. injection E as _ <-. lia.
Qed.

(** Above twice the length of the input, one more unit of fuel changes
    nothing. *)
Lemma fuel_step (fuel : nat) :
  (forall s, (2 * List.length s + 1 <= fuel)%nat ->
     value (S fuel) s = value fuel s) /\
  (forall s acc, (2 * List.length s + 2 <= fuel)%nat ->
     elements (S fuel) s acc = elements fuel s acc) /\
  (forall s acc, (2 * List.length s + 1 <= fuel)%nat ->
     members (S fuel) s acc = members fuel s acc).
Proof.
  induction fuel as [|fuel (IHv & IHe & IHm)].
  { repeat split; intros; lia. }
  repeat split.
  - intros s Hf. rewrite (value_S (S fuel)), (value_S fuel).
    destruct (skip_ws s) as [|c r0] eqn:Es; [reflexivity|].
    apply skip_ws_cons in Es.
    destruct (isChar c "{").
    { destruct (skip_ws r0) as [|c' r']; [reflexivity|].
      destruct (isChar c' "}"); [reflexivity|]. apply IHm. lia. }
    destruct (isChar c "["); [|reflexivity].
    destruct (skip_ws r0) as [|c' r']; [reflexivity|].
    destruct (isChar c' "]"); [reflexivity|]. apply IHe. lia.
  - intros s acc Hf. rewrite (elements_S (S fuel)), (elements_S fuel).
    rewrite IHv by lia.
    destruct (value fuel s) as [[v0 r0]|] eqn:Ev; [|reflexivity].
    apply (proj1 (consumes fuel)) in Ev.
    destruct (skip_ws r0) as [|c r'] eqn:Er; [reflexivity|].
    apply skip_ws_cons in Er.
    destruct (isChar c ","); [|reflexivity]. apply IHe. lia.
  - intros s acc Hf. rewrite (members_S (S fuel)), (members_S fuel).
    destruct (skip_ws s) as [|q0 r0] eqn:Es; [reflexivity|].
    apply skip_ws_cons in Es.
    destruct (unit_eqb q0 quote); [|reflexivity].
    destruct (string_body r0 []) as [[k r1]|] eqn:Eb; [|reflexivity].
    apply (string_body_lt (n := List.length r0)) in Eb; [|lia].
    destruct (skip_ws r1) as [|colon r2] eqn:E1; [reflexivity|].
    apply skip_ws_cons in E1.
    destruct (isChar colon ":"); [|reflexivity].
    rewrite IHv by lia.
    destruct (value fuel r2) as [[v0 r3]|] eqn:Ev; [|reflexivity].
    apply (proj1 (consumes fuel)) in Ev.
    destruct (skip_ws r3) as [|c r4] eqn:E3; [reflexivity|].
    apply skip_ws_cons in E3.
    destruct (isChar c ","); [|reflexivity]. apply IHm. lia.
Qed.

(** The fuel [parse] gives is enough: any larger amount yields the same
    result, so [parse] returns [None] only for text that is not JSON. *)
Lemma parse_fuel_enough (text : jsstring) (extra : nat) :
  value (extra + (2 * List.length text + 2)) text
  = value (2 * List.length text + 2) text.
Proof.
  induction extra as [|extra IH]; [reflexivity|].
  rewrite <- IH. simpl plus. apply (proj1 (fuel_step _)). lia.
Qed.

End JsonTheory.

(* ================================================================== *)
(** ** The cache: size bound and eviction order *)
(* ================================================================== *)

Module CacheTheory.
Import ResponseCache JsMapFacts.

Lemma maxSize_pos : (0 < maxSize)%nat.
Proof. unfold maxSize. lia. Qed.

(** What [set] does, by cases on the capacity test. *)
Lemma set_below (key resp : jsstring) (now : Z) (c : cache) :
  (JsMap.size c < maxSize)%nat ->
  set key resp now c = JsMap.set key (mkEntry resp now) c.
Proof.
  intros H. unfold set.
  destruct (Nat.leb_spec maxSize (JsMap.size c)) as [Hle|_]; [lia|reflexivity].
Qed.

Lemma set_at_capacity (key resp : jsstring) (now : Z) (c : cache) :
  (maxSize <= JsMap.size c)%nat ->
  set key resp now c = JsMap.set key (mkEntry resp now) (tl c).
Proof.
  intros H. unfold set.
  destruct (Nat.leb_spec maxSize (JsMap.size c)) as [_|Hlt]; [|lia].
  now rewrite delete_first_key.
Qed.















(** C5, as stated, fails: the cache holds [maxSize] entries, the key
    ["5"] is one of them, and setting it again removes the oldest entry,
    the one under ["0"]. *)
Lemma set_present_key_evicts_oldest :
  JsMap.size full_cache = maxSize /\
  JsMap.has (toString36 5) full_cache = true /\
  JsMap.has (toString36 0) full_cache = true /\
  JsMap.has (toString36 0) (set (toString36 5) (lit "new") 1000 full_cache) = false /\
  JsMap.size (set (toString36 5) (lit "new") 1000 full_cache) = pred maxSize.
Proof. vm_compute. repeat split; reflexivity. Qed.

(** C5, amended.  [set(key, text)] leaves [key] bound to the new text and
    time.  While the cache holds fewer than [maxSize] entries no other key
    is touched.  Once it holds [maxSize] entries the entry at the head of
    the insertion order is removed before the insertion, whether or not
    [key] is already present. *)
Theorem set_overwrites_and_evicts_at_capacity
    (key resp : jsstring) (now : Z) (c : cache) :
  JsMap.get key (set key resp now c) = Some (mkEntry resp now) /\
  ((JsMap.size c < maxSize)%nat ->
     forall other, other <> key ->
       JsMap.get other (set key resp now c) = JsMap.get other c) /\
  ((maxSize <= JsMap.size c)%nat ->
     exists oldest entry rest,
       c = (oldest, entry) :: rest /\
       set key resp now c = JsMap.set key (mkEntry resp now) rest).
Proof.
  repeat split.
  - unfold set. apply get_set_same.
  - intros Hlt other Hne. rewrite set_below by exact Hlt.
    now apply get_set_other.
  - intros Hge. pose proof maxSize_pos as Hpos.
    destruct c as [|[oldest entry] rest]; [simpl in Hge; lia|].
    exists oldest, entry, rest. split; [reflexivity|].
    now rewrite set_at_capacity.
Qed.

Lemma set_overwrites_and_evicts_at_capacity_witness :
  exists oldest entry rest,
    full_cache = (oldest, entry) :: rest /\
    set (toString36 5) (lit "new") 1000 full_cache
    = JsMap.set (toString36 5) (mkEntry (lit "new") 1000) rest.
Proof.
  apply (proj2 (proj2 (set_overwrites_and_evicts_at_capacity
                         (toString36 5) (lit "new") 1000 full_cache))).
  vm_compute. lia.
Defined.

End CacheTheory.

(* ================================================================== *)
(** ** The cache key *)
(* ================================================================== *)

Module KeyTheory.
Import ResponseCache Int32Facts JsMapFacts.

(** One round of the loop is [31 * hash + c] reduced to 32 bits. *)
Lemma hash_step_spec (hash : Z) (c : code_unit) :
  hash_step hash c = ToInt32 (31 * hash + charCode c).
Proof.
  unfold hash_step. rewrite or0_ToInt32. apply ToInt32_congr.
  unfold shl. change (5 mod 32) with 5.
  rewrite Z.shiftl_mul_pow2 by lia.
  rewrite Zplus_mod, Zminus_mod, ToInt32_mod.
  rewrite Zmult_mod, ToInt32_mod, <- Zmult_mod.
  rewrite <- Zminus_mod, <- Zplus_mod.
  f_equal. change (2 ^ 5) with 32. lia.
Qed.

Lemma hash_step_range (hash : Z) (c : code_unit) : in_range (hash_step hash c).
Proof. rewrite hash_step_spec. apply ToInt32_range. Qed.

Lemma fold_hash_range (str : jsstring) : forall hash,
  in_range hash -> in_range (fold_left hash_step str hash).
Proof.
  induction str as [|c str IH]; intros hash Hh; simpl; [exact Hh|].
  apply IH. apply hash_step_range.
Qed.

Lemma hash_of_range (str : jsstring) : in_range (hash_of str).
Proof. apply fold_hash_range. unfold in_range. lia. Qed.

(** Two rounds, on any starting value. *)
Lemma two_steps (hash : Z) (a b : code_unit) :
  hash_step (hash_step hash a) b
  = ToInt32 (961 * hash + (31 * charCode a + charCode b)).
Proof.
  rewrite !hash_step_spec. apply ToInt32_congr.
  rewrite Zplus_mod, Zmult_mod, ToInt32_mod, <- Zmult_mod, <- Zplus_mod.
  f_equal. lia.
Qed.

(** ["Aa"] and ["BB"] hash alike after every prefix. *)
Lemma Aa_BB_collide (pre : jsstring) :
  hash_of (pre ++ lit "Aa") = hash_of (pre ++ lit "BB").
Proof.
  unfold hash_of. rewrite !fold_left_app.
  change (lit "Aa") with [65%N; 97%N]. change (lit "BB") with [66%N; 66%N].
  simpl. rewrite !two_steps. reflexivity.
Qed.

Lemma generateKey_Aa_BB (systemPrompt model : jsstring) :
  generateKey systemPrompt (lit "Aa") model
  = generateKey systemPrompt (lit "BB") model.
Proof.
  unfold generateKey, key_string. f_equal.
  rewrite !app_assoc. apply Aa_BB_collide.
Qed.

(** An entry stored under a key is served to any lookup of that key made
    no later than [ttlMs] after it was stored. *)
Lemma get_after_set (key resp : jsstring) (stored_at now : Z) (c : cache) :
  now - stored_at <= ttlMs ->
  get key now (set key resp stored_at c)
  = (Some resp, set key resp stored_at c).
Proof.
  intros Hfresh. unfold get.
  assert (E : JsMap.get key (set key resp stored_at c)
              = Some (mkEntry resp stored_at)).
  { unfold set. apply get_set_same. }
  rewrite E. simpl.
  destruct (Z.gtb_spec (now - stored_at) ttlMs) as [Hgt|_]; [lia|reflexivity].
Qed.

(** C10.  Every key is the base-36 rendering of a signed 32-bit integer,
    so at most [2^32] keys exist; and two requests that differ in the
    user prompt alone (["Aa"] against ["BB"], under any system prompt and
    model) get the same key, so that a response stored for the first is
    returned by a lookup for the second within the time to live. *)
Theorem generateKey_range_and_collision :
  (forall systemPrompt userPrompt model : jsstring,
      exists h : Z,
        - 2 ^ 31 <= h < 2 ^ 31 /\
        generateKey systemPrompt userPrompt model = toString36 h) /\
  (exists userPrompt1 userPrompt2 : jsstring,
      userPrompt1 <> userPrompt2 /\
      forall systemPrompt model : jsstring,
        generateKey systemPrompt userPrompt1 model
        = generateKey systemPrompt userPrompt2 model /\
        forall (resp : jsstring) (stored_at now : Z) (c : cache),
          now - stored_at <= ttlMs ->
          fst (get (generateKey systemPrompt userPrompt2 model) now
                   (set (generateKey systemPrompt userPrompt1 model)
                        resp stored_at c))
          = Some resp).
Proof.
  split.
  - intros systemPrompt userPrompt model.
    exists (hash_of (key_string systemPrompt userPrompt model)).
    split; [apply hash_of_range|reflexivity].
  - exists (lit "Aa"), (lit "BB"). split; [discriminate|].
    intros systemPrompt model. split; [apply generateKey_Aa_BB|].
    intros resp stored_at now c Hfresh.
    rewrite <- generateKey_Aa_BB. now rewrite get_after_set.
Qed.

End KeyTheory.

(* ================================================================== *)
(** ** The failover router *)
(* ================================================================== *)

Module RouterTheory.
Import ResponseCache ApiService Scenarios.

(** Case analysis following the branches of [call]. *)
Ltac call_cases net clk o c :=
  unfold call;
  destruct (lookup clk o c) as [[[|u cachedText]|] c1];
  destruct (present (cerebras (apiKeys o)));
  destruct (present (gemini (apiKeys o)));
  destruct (CerebrasCall net);
  destruct (GeminiCall net);
  simpl.

Lemma both_failed_contains (e1 e2 : jsstring) :
  contains (both_failed e1 e2) e1 /\ contains (both_failed e1 e2) e2.
Proof.
  unfold both_failed. split.
  - exists (lit "Both APIs failed. Cerebras: "), (lit ", Gemini: " ++ e2).
    reflexivity.
  - exists (lit "Both APIs failed. Cerebras: " ++ e1 ++ lit ", Gemini: "), [].
    rewrite app_nil_r, <- !app_assoc. reflexivity.
Qed.

(** C1: the code at a request it can receive.  Only the Gemini key is
    set; the first call is answered by Gemini with ["4"] and stored, the
    same request a minute later is not served from the cache: it goes to
    Gemini again and comes back with [cached = false].  The entry was stored
    under the key of the model name ["gemini"], the lookup uses the key of
    the requested model. *)
Theorem gemini_only_repeat_goes_to_network :
  let first := call answering first_clock (request secondary_only) empty_cache in
  let second := call answering second_clock (request secondary_only) (cache_after first) in
  settled first = Resolved (mkResult (lit "4") ProviderGemini false None) /\
  JsMap.keys (cache_after first)
  = [generateKey (lit "S") (lit "2+2?") (lit "gemini")] /\
  generateKey (lit "S") (lit "2+2?") (lit "gemini")
  <> generateKey (lit "S") (lit "2+2?") (lit "llama-3.3-70b") /\
  atLookup second_clock - atStore first_clock <= ttlMs /\
  settled second = Resolved (mkResult (lit "4") ProviderGemini false None) /\
  requests second = [ToGemini (Returns (lit "4"))].
Proof.
  vm_compute. repeat split; try reflexivity; discriminate.
Qed.

(** The same for every request answered on the Gemini-only path from an
    empty cache: unless the two keys happen to coincide, the repeat finds
    nothing under the key it looks up and goes to Gemini again. *)
Lemma gemini_only_repeat_misses
    (net1 net2 : Network) (clk1 clk2 : Clock) (o : Options) (resp : jsstring) :
  useCache o = true -> stream_flag o = false ->
  present (cerebras (apiKeys o)) = false ->
  present (gemini (apiKeys o)) = true ->
  GeminiCall net1 = Returns resp ->
  generateKey (systemPrompt o) (userPrompt o) (model o)
  <> generateKey (systemPrompt o) (userPrompt o) (lit "gemini") ->
  requests (call net2 clk2 o (cache_after (call net1 clk1 o empty_cache)))
  = [ToGemini (GeminiCall net2)].
Proof.
  intros Hcache Hstream Hk1 Hk2 Hg Hkeys.
  assert (Hfirst : cache_after (call net1 clk1 o empty_cache)
                   = [(generateKey (systemPrompt o) (userPrompt o) (lit "gemini"),
                       mkEntry resp (atStore clk1))]).
  { unfold call, lookup, store. rewrite Hcache, Hstream, Hk1, Hk2, Hg. reflexivity. }
  rewrite Hfirst. unfold call, lookup. rewrite Hcache, Hstream, Hk1, Hk2. simpl.
  unfold get. simpl.
  apply JsStringFacts.eqb_neq in Hkeys. rewrite Hkeys.
  destruct (GeminiCall net2); reflexivity.
Qed.
(** With the Cerebras key set the repeat is served from the cache,
    whichever provider answered the first call. *)
Lemma repeat_hits_cache_with_primary_key
    (net1 net2 : Network) (clk1 clk2 : Clock) (o : Options) (c : cache) (r : CallResult) :
  useCache o = true -> stream_flag o = false ->
  present (cerebras (apiKeys o)) = true ->
  settled (call net1 clk1 o c) = Resolved r ->
  requests (call net1 clk1 o c) <> [] ->
  response r <> [] ->
  atLookup clk2 - atStore clk1 <= ttlMs ->
  settled (call net2 clk2 o (cache_after (call net1 clk1 o c)))
  = Resolved (mkResult (response r) ProviderCache true None) /\
  requests (call net2 clk2 o (cache_after (call net1 clk1 o c))) = [].
Proof.
  intros Hcache Hstream Hkey Hres Hreq Hne Hfresh.
  assert (Hafter : cache_after (call net1 clk1 o c)
                   = set (generateKey (systemPrompt o) (userPrompt o) (model o))
                         (response r) (atStore clk1) (snd (lookup clk1 o c))).
  { revert Hres Hreq. unfold call, store. rewrite Hcache, Hstream, Hkey.
    destruct (lookup clk1 o c) as [[[|u cachedText]|] c1]; simpl;
      destruct (CerebrasCall net1); simpl;
      try (destruct (present (gemini (apiKeys o))); simpl);
      try (destruct (GeminiCall net1); simpl);
      intros Hres Hreq; try congruence;
      injection Hres as <-; reflexivity. }
  assert (Hlook : lookup clk2 o (cache_after (call net1 clk1 o c))
                  = (Some (response r), cache_after (call net1 clk1 o c))).
  { unfold lookup. rewrite Hcache, Hstream. simpl.
    rewrite Hafter. now apply KeyTheory.get_after_set. }
  unfold call at 1 3. rewrite Hlook.
  destruct (response r) as [|u rest]; [congruence|]. split; reflexivity.
Qed.

(** C2, as stated, fails: a cache hit resolves with an object that has
    no [failover] property at all, not one set to [false]. *)
Lemma cache_hit_has_no_failover_field :
  let first := call answering first_clock (request primary_only) empty_cache in
  let second := call answering second_clock (request primary_only) (cache_after first) in
  settled second = Resolved (mkResult (lit "4") ProviderCache true None) /\
  failover (mkResult (lit "4") ProviderCache true None) <> Some false.
Proof. vm_compute. split; [reflexivity|discriminate]. Qed.

(** C2, amended.  On a result of [call] the [failover] property is
    either absent or [true], never [false]; it is [true] exactly when
    Gemini answered after the Cerebras call had failed; and a result from
    the cache has [provider = 'cache'], [cached = true], no [failover]
    property, and was produced without any request. *)
Theorem failover_present_only_after_failover
    (net : Network) (clk : Clock) (o : Options) (c : cache) (r : CallResult) :
  settled (call net clk o c) = Resolved r ->
  failover r <> Some false /\
  (failover r = Some true <->
     exists e, requests (call net clk o c)
               = [ToCerebras (Throws e); ToGemini (Returns (response r))]) /\
  (forall u cachedText, fst (lookup clk o c) = Some (u :: cachedText) ->
     r = mkResult (u :: cachedText) ProviderCache true None /\
     requests (call net clk o c) = []) /\
  (provider r = ProviderCache <-> cached r = true) /\
  (cached r = true -> failover r = None /\ requests (call net clk o c) = []).
Proof.
  call_cases net clk o c; intros Hres;
    try discriminate Hres; injection Hres as <-; simpl;
    (split; [discriminate|]);
    (split; [split; [try discriminate; try (intros _; eexists; reflexivity)
                    |intros [e He]; try discriminate He; reflexivity]|]);
    (split; [intros u' t' Hhit; try discriminate Hhit;
             injection Hhit as <- <-; split; reflexivity|]);
    (split; [split; intros H; try discriminate H; reflexivity|]);
    intros H; try discriminate H; split; reflexivity.
Qed.

Lemma failover_present_only_after_failover_witness :
  failover (mkResult (lit "4") ProviderGemini false (Some true)) = Some true <->
  exists e,
    requests (call (mkNetwork (Throws (lit "down")) (Returns (lit "4")) idle_stream)
                   first_clock (request both_keys) empty_cache)
    = [ToCerebras (Throws e); ToGemini (Returns (lit "4"))].
Proof.
  apply (failover_present_only_after_failover
           (mkNetwork (Throws (lit "down")) (Returns (lit "4")) idle_stream)
           first_clock (request both_keys) empty_cache).
  vm_compute. reflexivity.
Defined.

(** C7.  Both keys are set and both provider calls were made and failed,
    Cerebras with message [e1] and Gemini with message [e2]: [call]
    rejects with one error whose message holds [e1] and [e2] unchanged. *)
Theorem both_fail_message_keeps_both
    (net : Network) (clk : Clock) (o : Options) (c : cache) (e1 e2 : jsstring) :
  present (cerebras (apiKeys o)) = true ->
  present (gemini (apiKeys o)) = true ->
  requests (call net clk o c) = [ToCerebras (Throws e1); ToGemini (Throws e2)] ->
  exists message,
    settled (call net clk o c) = Rejected message /\
    message = both_failed e1 e2 /\
    contains message e1 /\ contains message e2.
Proof.
  intros Hk1 Hk2. revert Hk1 Hk2.
  call_cases net clk o c; intros Hk1 Hk2 Hreq; try congruence.
  all: injection Hreq as <- <-.
  all: eexists; split; [reflexivity|]; split; [reflexivity|].
  all: apply both_failed_contains.
Qed.

(** When the lookup gives nothing, both keys are set and both providers
    fail, these are the two requests made. *)
Lemma both_fail_requests
    (net : Network) (clk : Clock) (o : Options) (c : cache) (e1 e2 : jsstring) :
  (forall u cachedText, fst (lookup clk o c) <> Some (u :: cachedText)) ->
  present (cerebras (apiKeys o)) = true ->
  present (gemini (apiKeys o)) = true ->
  CerebrasCall net = Throws e1 ->
  GeminiCall net = Throws e2 ->
  requests (call net clk o c) = [ToCerebras (Throws e1); ToGemini (Throws e2)].
Proof.
  intros Hmiss Hk1 Hk2 H1 H2. unfold call. rewrite Hk1, Hk2, H1, H2.
  destruct (lookup clk o c) as [[[|u cachedText]|] c1]; simpl; try reflexivity.
  exfalso. now apply (Hmiss u cachedText).
Qed.

Lemma both_fail_message_keeps_both_witness :
  exists message,
    settled (call failing first_clock (request both_keys) empty_cache)
    = Rejected message /\
    message = both_failed (lit "rate limit") (lit "quota exceeded") /\
    contains message (lit "rate limit") /\
    contains message (lit "quota exceeded").
Proof.
  apply both_fail_message_keeps_both; vm_compute; reflexivity.
Defined.

(** C9, as stated, fails: no key is set, yet the request is answered
    from the entry an earlier call stored, and nothing is rejected. *)
Lemma no_keys_served_from_cache :
  let first := call answering first_clock (request primary_only) empty_cache in
  let second := call answering second_clock (request no_keys) (cache_after first) in
  present (cerebras (apiKeys (request no_keys))) = false /\
  present (gemini (apiKeys (request no_keys))) = false /\
  settled second = Resolved (mkResult (lit "4") ProviderCache true None) /\
  settled second <> Rejected no_keys_message.
Proof. vm_compute. repeat split; try reflexivity; discriminate. Qed.

(** C9, amended.  With neither key set [call] issues no request.  It
    rejects with the configuration error unless the cache lookup returns a
    non-empty text, and in that case it resolves with that text as a cached
    result. *)
Theorem no_keys_no_request
    (net : Network) (clk : Clock) (o : Options) (c : cache) :
  present (cerebras (apiKeys o)) = false ->
  present (gemini (apiKeys o)) = false ->
  requests (call net clk o c) = [] /\
  (forall u cachedText, fst (lookup clk o c) = Some (u :: cachedText) ->
     settled (call net clk o c)
     = Resolved (mkResult (u :: cachedText) ProviderCache true None)) /\
  ((forall u cachedText, fst (lookup clk o c) <> Some (u :: cachedText)) ->
     settled (call net clk o c) = Rejected no_keys_message).
Proof.
  intros Hk1 Hk2. unfold call. rewrite Hk1, Hk2.
  destruct (lookup clk o c) as [[[|u cachedText]|] c1]; simpl;
    (split; [reflexivity|]); split;
    try (intros u' t' H; try discriminate H; injection H as <- <-; reflexivity);
    try (intros _; reflexivity).
  intros H. exfalso. now apply (H u cachedText).
Qed.

Lemma no_keys_no_request_witness :
  requests (call answering first_clock (request no_keys) empty_cache) = [] /\
  settled (call answering first_clock (request no_keys) empty_cache)
  = Rejected no_keys_message.
Proof.
  destruct (@no_keys_no_request answering first_clock (request no_keys) empty_cache)
    as (Hreq & _ & Hrej); try (vm_compute; reflexivity).
  split; [exact Hreq|].
  apply Hrej. vm_compute. intros u t H. discriminate H.
Defined.

End RouterTheory.

(* ================================================================== *)
(** ** The streaming decoder *)
(* ================================================================== *)

Module StreamTheory.
Import Json JsValue ApiService Scenarios.

(** What holds of a session at every point of the read loop: the
    callbacks so far are [onChunk] calls, and [fullText] is the
    concatenation of the texts of their arguments. *)
Definition consistent (st : Session) : Prop :=
  exists chunks texts,
    emitted st = map OnChunk chunks /\
    fullText st = List.concat texts /\
    Forall2 (fun delta t => ToString delta = Some t) chunks texts.

Lemma consistent_start : consistent (mkSession [] []).
Proof. exists [], []. repeat split. constructor. Qed.

Lemma frame_delta_text (data : jsstring) (delta : json) (t : text) :
  frame_delta data = Some (delta, t) -> ToString delta = Some t.
Proof.
  unfold frame_delta.
  destruct (parse data) as [parsed|]; [|discriminate].
  destruct (delta_content parsed) as [content|]; [|discriminate].
  destruct (truthy (or_empty content)); [|discriminate].
  destruct (ToString (or_empty content)) as [t'|] eqn:E; [|discriminate].
  intros H. injection H as <- <-. exact E.
Qed.

Lemma process_line_consistent (st : Session) (line : jsstring) :
  consistent st -> consistent (process_line st line).
Proof.
  intros (chunks & texts & Hem & Hfull & Hall). unfold process_line.
  destruct (JsString.eqb (payload line) sentinel).
  - exists chunks, texts. auto.
  - destruct (frame_delta (payload line)) as [[delta t]|] eqn:E.
    + exists (chunks ++ [delta]), (texts ++ [t]). simpl. repeat split.
      * rewrite Hem, map_app. reflexivity.
      * rewrite Hfull, concat_app. simpl. now rewrite app_nil_r.
      * apply Forall2_app; [exact Hall|].
        constructor; [|constructor]. eapply frame_delta_text, E.
    + exists chunks, texts. auto.
Qed.

Lemma process_lines_consistent (lines : list jsstring) : forall st,
  consistent st -> consistent (fold_left process_line lines st).
Proof.
  induction lines as [|line lines IH]; intros st Hst; simpl; [exact Hst|].
  apply IH. now apply process_line_consistent.
Qed.

Lemma read_loop_consistent (rs : list jsstring) : forall st,
  consistent st -> consistent (read_loop rs st).
Proof.
  unfold read_loop.
  induction rs as [|r rs IH]; intros st Hst; simpl; [exact Hst|].
  apply IH. unfold process_read. now apply process_lines_consistent.
Qed.

Lemma one_completion (chunks : list json) (t : text) :
  List.length (filter is_complete (map OnChunk chunks ++ [OnComplete t])) = 1%nat.
Proof.
  rewrite filter_app. simpl. rewrite length_app. simpl.
  induction chunks as [|delta chunks IH]; simpl; [reflexivity|exact IH].
Qed.

Lemma concat_of_strings (strs : list jsstring) (texts : list text) :
  Forall2 (fun delta t => ToString delta = Some t) (map JString strs) texts ->
  List.concat texts = of_string (List.concat strs).
Proof.
  revert texts. induction strs as [|s strs IH]; intros texts H.
  - inversion H. reflexivity.
  - simpl in H. inversion H as [|delta t ds ts Hhead Htail]; subst.
    simpl in Hhead. injection Hhead as <-.
    simpl. unfold of_string in *. rewrite map_app. f_equal. now apply IH.
Qed.

(** C6.  When a streaming call ends normally, the callbacks are a run
    of [onChunk] calls followed by one [onComplete], there is exactly one
    [onComplete], and its argument is the concatenation, in order, of the
    texts of the [onChunk] arguments; for string arguments that is the
    concatenation of the strings themselves.  This covers the read loop
    and the fallback through [call]. *)
Theorem complete_text_is_concatenation_of_chunks
    (net : Network) (clk : Clock) (o : Options) (c : ResponseCache.cache) :
  completes_normally net clk o c ->
  exists chunks texts,
    callbacks (stream net clk o c)
    = map OnChunk chunks ++ [OnComplete (List.concat texts)] /\
    Forall2 (fun delta t => ToString delta = Some t) chunks texts /\
    List.length (filter is_complete (callbacks (stream net clk o c))) = 1%nat /\
    (forall strs, chunks = map JString strs ->
       List.concat texts = of_string (List.concat strs)).
Proof.
  unfold completes_normally, stream.
  destruct (present (cerebras (apiKeys o))); simpl.
  - intros (statusText & rs & ->). simpl.
    destruct (@read_loop_consistent rs (mkSession [] []) consistent_start)
      as (chunks & texts & Hem & Hfull & Hall).
    exists chunks, texts. rewrite Hem, Hfull.
    repeat split; [exact Hall|apply one_completion|].
    intros strs ->. now apply concat_of_strings.
  - intros (r & ->). simpl.
    exists [JString (response r)], [of_string (response r)]. simpl.
    rewrite app_nil_r. repeat split.
    + constructor; [reflexivity|constructor].
    + intros strs Hs. destruct strs as [|s [|s' strs]]; try discriminate.
      injection Hs as <-. simpl. now rewrite app_nil_r.
Qed.

Lemma complete_text_is_concatenation_of_chunks_witness :
  exists chunks texts,
    callbacks (stream (streaming [frame "Hel" ++ frame "lo"; frame "!"])
                      first_clock (request primary_only) empty_cache)
    = map OnChunk chunks ++ [OnComplete (List.concat texts)] /\
    Forall2 (fun delta t => ToString delta = Some t) chunks texts /\
    List.length (filter is_complete
      (callbacks (stream (streaming [frame "Hel" ++ frame "lo"; frame "!"])
                         first_clock (request primary_only) empty_cache))) = 1%nat /\
    (forall strs, chunks = map JString strs ->
       List.concat texts = of_string (List.concat strs)).
Proof.
  apply complete_text_is_concatenation_of_chunks.
  vm_compute. eexists. eexists. reflexivity.
Defined.

(** *** Where a read is cut *)

Lemma split_app_sep (sep : code_unit) (a b : jsstring) :
  split sep (a ++ sep :: b) = split sep a ++ split sep b.
Proof.
  induction a as [|x a IH]; simpl.
  - unfold unit_eqb. now rewrite N.eqb_refl.
  - destruct (unit_eqb x sep); [now rewrite IH|].
    rewrite IH. destruct (split sep a) as [|piece rest] eqn:E; [|reflexivity].
    destruct a; simpl in E; [discriminate|].
    destruct (unit_eqb c sep); [discriminate|].
    destruct (split sep a); discriminate.
Qed.

Lemma frame_lines_app_newline (a b : jsstring) :
  frame_lines (a ++ 10%N :: b) = frame_lines a ++ frame_lines b.
Proof. unfold frame_lines. now rewrite split_app_sep, filter_app. Qed.

(** Two reads, the first ending with a line feed, are decoded like the
    one read holding both: nothing is lost or doubled at such a cut. *)
Lemma cut_at_newline_is_harmless (a b : jsstring) (st : Session) :
  read_loop [a ++ [10%N]; b] st = read_loop [a ++ 10%N :: b] st.
Proof.
  unfold read_loop, process_read. simpl.
  rewrite !frame_lines_app_newline, !fold_left_app.
  reflexivity.
Qed.

Lemma frame_lines_nil : frame_lines [] = [].
Proof. reflexivity. Qed.

Lemma process_read_app_newline (a b : jsstring) (st : Session) :
  process_read st (a ++ 10%N :: b) = process_read (process_read st a) b.
Proof.
  unfold process_read. now rewrite frame_lines_app_newline, fold_left_app.
Qed.

(** Reads that each end with a line feed, however many lines each holds,
    are decoded like the single read of their concatenation: the callbacks
    and the accumulated text do not depend on where, among the line ends,
    the reader cuts. *)
Lemma reads_cut_at_line_ends (segments : list jsstring) : forall st,
  read_loop (map (fun l => l ++ [10%N]) segments) st
  = process_read st (List.concat (map (fun l => l ++ [10%N]) segments)).
Proof.
  unfold read_loop.
  induction segments as [|l segments IH]; intros st; simpl; [reflexivity|].
  rewrite IH, <- app_assoc. simpl.
  rewrite (process_read_app_newline l), (process_read_app_newline l).
  reflexivity.
Qed.

(** C3: the code at a stream it can receive.  The body is one well-formed
    frame with the delta ["hi"].  Delivered in one read it is emitted once.
    Delivered in two reads that cut it inside the JSON payload, the first
    part does not parse and the second part does not start with [data:], so
    nothing is emitted and [onComplete] gets the empty text. *)
Theorem frame_cut_inside_payload_is_dropped :
  List.concat cut_read = List.concat whole_read /\
  callbacks (stream (streaming whole_read) first_clock (request primary_only) empty_cache)
  = [OnChunk (JString (lit "hi")); OnComplete (of_string (lit "hi"))] /\
  callbacks (stream (streaming cut_read) first_clock (request primary_only) empty_cache)
  = [OnComplete []].
Proof. vm_compute. repeat split; reflexivity. Qed.

(** A corrupt frame followed by valid frames, lines delivered whole: the
    corrupt one is skipped and every valid delta is emitted once. *)
Lemma corrupt_frame_then_valid_frames :
  callbacks (stream (streaming [q "data: {'choices':[{'delta'" ++ [10%N] ++ frame "a";
                                frame "b" ++ frame "c"])
                    first_clock (request primary_only) empty_cache)
  = [OnChunk (JString (lit "a")); OnChunk (JString (lit "b"));
     OnChunk (JString (lit "c")); OnComplete (of_string (lit "abc"))].
Proof. vm_compute. reflexivity. Qed.

(** C4, as stated, fails: a frame that follows the [[DONE]] frame, in the
    same read or in a later one, is still emitted. *)
Lemma frame_after_sentinel_is_emitted :
  callbacks (stream (streaming [done_frame ++ frame "late"])
                    first_clock (request primary_only) empty_cache)
  = [OnChunk (JString (lit "late")); OnComplete (of_string (lit "late"))] /\
  callbacks (stream (streaming [done_frame; frame "late"])
                    first_clock (request primary_only) empty_cache)
  = [OnChunk (JString (lit "late")); OnComplete (of_string (lit "late"))].
Proof. vm_compute. split; reflexivity. Qed.

Lemma read_loop_app (rs1 rs2 : list jsstring) (st : Session) :
  read_loop (rs1 ++ rs2) st = read_loop rs2 (read_loop rs1 st).
Proof. unfold read_loop. apply fold_left_app. Qed.

(** The frames of a read that holds a whole line: those before the line,
    the line if it is a frame, those after it. *)
Lemma frame_lines_around (before line after : jsstring) :
  split 10%N line = [line] ->
  frame_lines (before ++ 10%N :: line ++ 10%N :: after)
  = frame_lines before
    ++ (if startsWith prefix (trim line) then [line] else [])
    ++ frame_lines after.
Proof.
  intros Hline. rewrite !frame_lines_app_newline.
  unfold frame_lines at 2. rewrite Hline. reflexivity.
Qed.

Lemma frame_lines_from (line after : jsstring) :
  split 10%N line = [line] ->
  frame_lines (line ++ 10%N :: after)
  = (if startsWith prefix (trim line) then [line] else []) ++ frame_lines after.
Proof.
  intros Hline. rewrite frame_lines_app_newline.
  unfold frame_lines at 1. rewrite Hline. reflexivity.
Qed.

(** A line that [process_line] passes over is passed over by
    [process_read] as well, wherever it stands in the read. *)
Lemma process_read_skips (line : jsstring) :
  split 10%N line = [line] ->
  (forall st, process_line st line = st) ->
  (forall (before after : jsstring) st,
      process_read st (before ++ 10%N :: line ++ 10%N :: after)
      = process_read st (before ++ 10%N :: after)) /\
  (forall (after : jsstring) st,
      process_read st (line ++ 10%N :: after) = process_read st after) /\
  (forall (before : jsstring) st,
      process_read st (before ++ 10%N :: line) = process_read st before) /\
  (forall st, process_read st line = st).
Proof.
  intros Hline Hskip.
  assert (Hframes : forall st,
            fold_left process_line
              (if startsWith prefix (trim line) then [line] else []) st = st).
  { intros st. destruct (startsWith prefix (trim line)); simpl;
      [apply Hskip|reflexivity]. }
  assert (Halone : forall st, process_read st line = st).
  { intros st. unfold process_read, frame_lines. rewrite Hline. simpl.
    apply Hframes. }
  split; [|split; [|split; [|exact Halone]]].
  - intros before after st. unfold process_read.
    pose proof (frame_lines_around before after Hline) as Earound.
    pose proof (frame_lines_app_newline before after) as Eplain.
    unfold code_unit in Earound, Eplain |- *. rewrite Earound, Eplain.
    rewrite !fold_left_app. now rewrite Hframes.
  - intros after st. unfold process_read.
    pose proof (frame_lines_from after Hline) as Efrom.
    unfold code_unit in Efrom |- *. rewrite Efrom, fold_left_app.
    now rewrite Hframes.
  - intros before st. rewrite process_read_app_newline. apply Halone.
Qed.

Lemma read_loop_one (rs1 rs2 : list jsstring) (chunk chunk' : jsstring) :
  (forall st, process_read st chunk = process_read st chunk') ->
  forall st, read_loop (rs1 ++ chunk :: rs2) st = read_loop (rs1 ++ chunk' :: rs2) st.
Proof.
  intros H st. rewrite !read_loop_app. unfold read_loop. simpl. now rewrite H.
Qed.

Lemma read_loop_without (rs1 rs2 : list jsstring) (chunk : jsstring) :
  (forall st, process_read st chunk = st) ->
  forall st, read_loop (rs1 ++ chunk :: rs2) st = read_loop (rs1 ++ rs2) st.
Proof.
  intros H st. rewrite !read_loop_app. unfold read_loop. simpl. now rewrite H.
Qed.

(** What [stream] calls back on the streaming path, by the reads. *)
Lemma stream_by_reads (net : Network) (clk : Clock) (o : Options)
    (c : ResponseCache.cache) (statusText : jsstring) (body : Body) :
  present (cerebras (apiKeys o)) = true ->
  CerebrasStream net = FetchResponse true statusText body ->
  callbacks (stream net clk o c)
  = emitted (read_loop (reads body) (mkSession [] []))
    ++ [match ending body with
        | ReaderDone => OnComplete (fullText (read_loop (reads body) (mkSession [] [])))
        | ReaderFails message => OnError message
        end].
Proof.
  intros Hkey Hnet. unfold stream. rewrite Hkey, Hnet. simpl.
  now destruct (ending body).
Qed.

(** C4, amended.  A line of a read whose payload is [[DONE]] makes no
    callback and leaves the accumulated text as it is, and it does not end
    the loop.  Inside a read, [process_read] goes on with the lines after
    it: a read that holds the line, in the middle, first or last, is
    processed like the same read without the line; a read that is this
    line alone changes nothing, and [read_loop] goes on with the reads
    after it.  So [stream] makes the same callbacks, the closing one
    included, for a response that holds the line in one of its reads as
    for the response without that line: every frame that follows the
    sentinel, in the same read or in a later one, is decoded and emitted,
    and the loop ends only with the reads. *)
Theorem sentinel_is_skipped_not_terminal (line : jsstring) :
  split 10%N line = [line] ->
  payload line = sentinel ->
  (forall st, process_line st line = st) /\
  (forall (before after : jsstring) st,
      process_read st (before ++ 10%N :: line ++ 10%N :: after)
      = process_read st (before ++ 10%N :: after)) /\
  (forall (after : jsstring) st,
      process_read st (line ++ 10%N :: after) = process_read st after) /\
  (forall (before : jsstring) st,
      process_read st (before ++ 10%N :: line) = process_read st before) /\
  (forall (rs1 rs2 : list jsstring) st,
      read_loop (rs1 ++ line :: rs2) st = read_loop (rs1 ++ rs2) st) /\
  (forall net net' clk o c statusText ending (rs rs' : list jsstring),
      present (cerebras (apiKeys o)) = true ->
      CerebrasStream net = FetchResponse true statusText (mkBody rs ending) ->
      CerebrasStream net' = FetchResponse true statusText (mkBody rs' ending) ->
      (exists (rs1 rs2 : list jsstring) (before after : jsstring),
          rs = rs1 ++ (before ++ 10%N :: line ++ 10%N :: after) :: rs2 /\
          rs' = rs1 ++ (before ++ 10%N :: after) :: rs2) \/
      (exists (rs1 rs2 : list jsstring) (after : jsstring),
          rs = rs1 ++ (line ++ 10%N :: after) :: rs2 /\
          rs' = rs1 ++ after :: rs2) \/
      (exists (rs1 rs2 : list jsstring) (before : jsstring),
          rs = rs1 ++ (before ++ 10%N :: line) :: rs2 /\
          rs' = rs1 ++ before :: rs2) \/
      (exists (rs1 rs2 : list jsstring),
          rs = rs1 ++ line :: rs2 /\ rs' = rs1 ++ rs2) ->
      callbacks (stream net clk o c) = callbacks (stream net' clk o c)).
Proof.
  intros Hline Hdone.
  assert (Hskip : forall st, process_line st line = st).
  { intros st. unfold process_line. rewrite Hdone.
    now rewrite JsStringFacts.eqb_refl. }
  destruct (process_read_skips Hline Hskip) as (Hinside & Hfrom & Hlast & Halone).
  split; [exact Hskip|]. split; [exact Hinside|]. split; [exact Hfrom|].
  split; [exact Hlast|]. split.
  - intros rs1 rs2 st. apply read_loop_without. exact Halone.
  - intros net net' clk o c statusText ending rs rs' Hkey Hnet Hnet' Hreads.
    rewrite (@stream_by_reads net clk o c _ _ Hkey Hnet),
            (@stream_by_reads net' clk o c _ _ Hkey Hnet').
    cbn [reads ApiService.ending].
    assert (Hloop : forall st, read_loop rs st = read_loop rs' st).
    { intros st.
      destruct Hreads as [(rs1 & rs2 & before & after & -> & ->)
                         |[(rs1 & rs2 & after & -> & ->)
                          |[(rs1 & rs2 & before & -> & ->)
                           |(rs1 & rs2 & -> & ->)]]].
      - apply read_loop_one. apply Hinside.
      - apply read_loop_one. apply Hfrom.
      - apply read_loop_one. apply Hlast.
      - apply read_loop_without. exact Halone. }
    now rewrite Hloop.
Qed.

Lemma sentinel_is_skipped_not_terminal_witness :
  callbacks
    (stream (streaming [frame "first";
                        q "data: {'choices':[{'delta':{'content':'a'}}]}"
                        ++ 10%N :: lit "data: [DONE]" ++ 10%N :: frame "late";
                        frame "last"])
            first_clock (request primary_only) empty_cache)
  = callbacks
      (stream (streaming [frame "first";
                          q "data: {'choices':[{'delta':{'content':'a'}}]}"
                          ++ 10%N :: frame "late";
                          frame "last"])
              first_clock (request primary_only) empty_cache).
Proof.
  assert (Hline : split 10%N (lit "data: [DONE]") = [lit "data: [DONE]"])
    by (vm_compute; reflexivity).
  assert (Hdone : payload (lit "data: [DONE]") = sentinel)
    by (vm_compute; reflexivity).
  apply (proj2 (proj2 (proj2 (proj2 (proj2
           (@sentinel_is_skipped_not_terminal (lit "data: [DONE]") Hline Hdone)))))
         (streaming [frame "first";
                     q "data: {'choices':[{'delta':{'content':'a'}}]}"
                     ++ 10%N :: lit "data: [DONE]" ++ 10%N :: frame "late";
                     frame "last"])
         (streaming [frame "first";
                     q "data: {'choices':[{'delta':{'content':'a'}}]}"
                     ++ 10%N :: frame "late";
                     frame "last"])
         first_clock (request primary_only) empty_cache (lit "OK") ReaderDone
         [frame "first";
          q "data: {'choices':[{'delta':{'content':'a'}}]}"
          ++ 10%N :: lit "data: [DONE]" ++ 10%N :: frame "late";
          frame "last"]
         [frame "first";
          q "data: {'choices':[{'delta':{'content':'a'}}]}"
          ++ 10%N :: frame "late";
          frame "last"]);
    try reflexivity.
  left. exists [frame "first"], [frame "last"],
    (q "data: {'choices':[{'delta':{'content':'a'}}]}"), (frame "late").
  split; reflexivity.
Defined.

End StreamTheory.

(* ================================================================== *)
(** ** More on the router and the cache *)
(* ================================================================== *)

Module RouterMore.
Import ResponseCache ApiService Scenarios JsMapFacts.

(** The cache left by a call that a provider answered while the Cerebras
    key is set and caching is on. *)
Lemma cache_after_answer
    (net : Network) (clk : Clock) (o : Options) (c : cache) (r : CallResult) :
  useCache o = true -> stream_flag o = false ->
  present (cerebras (apiKeys o)) = true ->
  settled (call net clk o c) = Resolved r ->
  requests (call net clk o c) <> [] ->
  cache_after (call net clk o c)
  = set (generateKey (systemPrompt o) (userPrompt o) (model o))
        (response r) (atStore clk) (snd (lookup clk o c)).
Proof.
  intros Hcache Hstream Hkey. unfold call, store. rewrite Hcache, Hstream, Hkey.
  destruct (lookup clk o c) as [[[|u cachedText]|] c1]; simpl;
    destruct (CerebrasCall net); simpl;
    try (destruct (present (gemini (apiKeys o))); simpl);
    try (destruct (GeminiCall net); simpl);
    intros Hres Hreq; try congruence;
    injection Hres as <-; reflexivity.
Qed.

(** Once more than [ttlMs] has passed since the answer was stored, the
    same request is no longer served from the cache: the lookup finds
    nothing, Cerebras is asked again, and the result is not marked as
    cached. *)
Theorem repeat_after_ttl_goes_to_network
    (net1 net2 : Network) (clk1 clk2 : Clock) (o : Options) (c : cache) (r : CallResult) :
  useCache o = true -> stream_flag o = false ->
  present (cerebras (apiKeys o)) = true ->
  settled (call net1 clk1 o c) = Resolved r ->
  requests (call net1 clk1 o c) <> [] ->
  atLookup clk2 - atStore clk1 > ttlMs ->
  fst (lookup clk2 o (cache_after (call net1 clk1 o c))) = None /\
  (exists rest,
     requests (call net2 clk2 o (cache_after (call net1 clk1 o c)))
     = ToCerebras (CerebrasCall net2) :: rest) /\
  (forall r2,
     settled (call net2 clk2 o (cache_after (call net1 clk1 o c))) = Resolved r2 ->
     cached r2 = false /\ provider r2 <> ProviderCache).
Proof.
  intros Hcache Hstream Hkey Hres Hreq Hold.
  rewrite (@cache_after_answer net1 clk1 o c r Hcache Hstream Hkey Hres Hreq).
  set (key := generateKey (systemPrompt o) (userPrompt o) (model o)).
  set (c1 := snd (lookup clk1 o c)).
  assert (Hlook : lookup clk2 o (set key (response r) (atStore clk1) c1)
                  = (None, JsMap.delete key (set key (response r) (atStore clk1) c1))).
  { unfold lookup. rewrite Hcache, Hstream. simpl. fold key. unfold get.
    assert (E : JsMap.get key (set key (response r) (atStore clk1) c1)
                = Some (mkEntry (response r) (atStore clk1))).
    { unfold set. apply get_set_same. }
    rewrite E. simpl.
    destruct (Z.gtb_spec (atLookup clk2 - atStore clk1) ttlMs) as [_|Hle];
      [reflexivity|lia]. }
  split; [now rewrite Hlook|].
  unfold call. rewrite Hlook, Hkey.
  destruct (CerebrasCall net2); simpl.
  - split; [eexists; reflexivity|].
    intros r2 H. injection H as <-. split; [reflexivity|discriminate].
  - destruct (present (gemini (apiKeys o))); simpl;
      [destruct (GeminiCall net2); simpl|];
      (split; [eexists; reflexivity|]); intros r2 H; try discriminate H.
    injection H as <-. split; [reflexivity|discriminate].
Qed.

Lemma repeat_after_ttl_goes_to_network_witness :
  fst (lookup (mkClock 1801201 1801400) (request primary_only)
         (cache_after (call answering first_clock (request primary_only) empty_cache)))
  = None.
Proof.
  apply (@repeat_after_ttl_goes_to_network answering answering first_clock
           (mkClock 1801201 1801400) (request primary_only) empty_cache
           (mkResult (lit "4") ProviderCerebras false None));
    vm_compute; try reflexivity.
  intros H. discriminate H.
Defined.

(** Who is asked, and when.  A provider is contacted only when its key is
    configured; Gemini is contacted only when the Cerebras key is missing
    or the Cerebras call has just failed; Cerebras is never contacted after
    Gemini; and one call makes at most two requests. *)
Theorem requests_follow_the_keys
    (net : Network) (clk : Clock) (o : Options) (c : cache) :
  let rs := requests (call net clk o c) in
  (forall x, In (ToCerebras x) rs ->
     present (cerebras (apiKeys o)) = true /\ x = CerebrasCall net) /\
  (forall x, In (ToGemini x) rs ->
     present (gemini (apiKeys o)) = true /\ x = GeminiCall net /\
     (present (cerebras (apiKeys o)) = false \/
      exists e, CerebrasCall net = Throws e)) /\
  (forall x y before after, rs <> before ++ ToGemini x :: ToCerebras y :: after) /\
  (List.length rs <= 2)%nat.
Proof.
  unfold call.
  destruct (lookup clk o c) as [[[|u cachedText]|] c1];
    destruct (present (cerebras (apiKeys o))) eqn:Hk1;
    destruct (present (gemini (apiKeys o))) eqn:Hk2;
    destruct (CerebrasCall net) eqn:Hc;
    destruct (GeminiCall net) eqn:Hg;
    simpl;
    (split; [intros x Hin; simpl in Hin;
             repeat (destruct Hin as [Hin|Hin]; try discriminate Hin;
                     try (injection Hin as <-; split; reflexivity));
             try contradiction|]);
    (split; [intros x Hin; simpl in Hin;
             repeat (destruct Hin as [Hin|Hin]; try discriminate Hin;
                     try (injection Hin as <-;
                          repeat split; try reflexivity;
                          first [left; reflexivity | right; eexists; reflexivity]));
             try contradiction|]);
    (split; [|lia]);
    intros x y before after H;
    destruct before as [|b1 [|b2 [|b3 before]]]; simpl in H; discriminate H.
Qed.

(** A call that rejects has stored nothing: the cache is as the lookup
    left it.  When only one provider is configured and it fails, the
    rejection carries that provider's message as it is. *)
Theorem failure_is_passed_on_and_not_cached
    (net : Network) (clk : Clock) (o : Options) (c : cache) (message : jsstring) :
  settled (call net clk o c) = Rejected message ->
  cache_after (call net clk o c) = snd (lookup clk o c) /\
  (present (cerebras (apiKeys o)) = true ->
   present (gemini (apiKeys o)) = false ->
   CerebrasCall net = Throws message /\
   requests (call net clk o c) = [ToCerebras (Throws message)]) /\
  (present (cerebras (apiKeys o)) = false ->
   present (gemini (apiKeys o)) = true ->
   GeminiCall net = Throws message /\
   requests (call net clk o c) = [ToGemini (Throws message)]).
Proof.
  unfold call.
  destruct (lookup clk o c) as [[[|u cachedText]|] c1];
    destruct (present (cerebras (apiKeys o))) eqn:Hk1;
    destruct (present (gemini (apiKeys o))) eqn:Hk2;
    destruct (CerebrasCall net) eqn:Hc;
    destruct (GeminiCall net) eqn:Hg;
    simpl; intros H; try discriminate H; injection H as <-;
    (split; [reflexivity|]); split; intros H1 H2;
    try discriminate H1; try discriminate H2; split; reflexivity.
Qed.

Lemma failure_is_passed_on_and_not_cached_witness :
  cache_after (call failing first_clock (request primary_only) empty_cache)
  = snd (lookup first_clock (request primary_only) empty_cache) /\
  CerebrasCall failing = Throws (lit "rate limit").
Proof.
  destruct (@failure_is_passed_on_and_not_cached failing first_clock
              (request primary_only) empty_cache (lit "rate limit"))
    as (Hcache & Hprimary & _); [vm_compute; reflexivity|].
  split; [exact Hcache|].
  apply Hprimary; vm_compute; reflexivity.
Defined.

(** With caching switched off, or with the stream flag set, [call] neither
    reads nor writes the cache, and its result is never a cached one. *)
Theorem no_cache_mode_leaves_cache_alone
    (net : Network) (clk : Clock) (o : Options) (c : cache) :
  useCache o && negb (stream_flag o) = false ->
  cache_after (call net clk o c) = c /\
  (forall c', settled (call net clk o c') = settled (call net clk o c) /\
              requests (call net clk o c') = requests (call net clk o c)) /\
  (forall r, settled (call net clk o c) = Resolved r ->
     cached r = false /\ provider r <> ProviderCache).
Proof.
  intros Hoff. unfold call, lookup, store. rewrite Hoff.
  destruct (present (cerebras (apiKeys o)));
    destruct (present (gemini (apiKeys o)));
    destruct (CerebrasCall net);
    destruct (GeminiCall net);
    simpl; (split; [reflexivity|]); (split; [intros c'; split; reflexivity|]);
    intros r H; try discriminate H; injection H as <-;
    (split; [reflexivity|discriminate]).
Qed.

Lemma no_cache_mode_leaves_cache_alone_witness :
  cache_after (call answering first_clock
                 (mkOptions (lit "S") (lit "quiz") both_keys (lit "llama-3.3-70b") false false)
                 full_cache)
  = full_cache.
Proof.
  apply no_cache_mode_leaves_cache_alone. reflexivity.
Defined.

End RouterMore.

(* ================================================================== *)
(** ** More on the cache and its keys *)
(* ================================================================== *)

Module CacheMore.
Import ResponseCache JsMapFacts.

Lemma get_delete_other (V : Type) (k other : jsstring) (m : JsMap.t V) :
  other <> k -> JsMap.get other (JsMap.delete k m) = JsMap.get other m.
Proof.
  intros Hne. induction m as [|[k' v'] m IH]; simpl; [reflexivity|].
  destruct (JsString.eqb k k') eqn:E; simpl.
  - apply JsStringFacts.eqb_eq in E. subst k'.
    apply JsStringFacts.eqb_neq in Hne. now rewrite Hne.
  - destruct (JsString.eqb other k'); [reflexivity|exact IH].
Qed.

Lemma get_absent (V : Type) (k : jsstring) (m : JsMap.t V) :
  ~ In k (JsMap.keys m) -> JsMap.get k m = None.
Proof.
  intros Hnot. destruct (JsMap.get k m) eqn:E; [|reflexivity].
  exfalso. apply Hnot. apply has_keys. unfold JsMap.has. now rewrite E.
Qed.

Lemma get_delete_same (V : Type) (k : jsstring) (m : JsMap.t V) :
  NoDup (JsMap.keys m) -> JsMap.get k (JsMap.delete k m) = None.
Proof.
  induction m as [|[k' v'] m IH]; simpl; intros Hnd; [reflexivity|].
  inversion Hnd as [|x l Hnotin Hnd']; subst.
  destruct (JsString.eqb k k') eqn:E; simpl.
  - apply JsStringFacts.eqb_eq in E. subst k'. now apply get_absent.
  - rewrite E. now apply IH.
Qed.

Lemma size_delete_present (V : Type) (k : jsstring) (m : JsMap.t V) (v : V) :
  JsMap.get k m = Some v -> S (JsMap.size (JsMap.delete k m)) = JsMap.size m.
Proof.
  induction m as [|[k' v'] m IH]; simpl; [discriminate|].
  destruct (JsString.eqb k k'); simpl; [reflexivity|].
  intros H. unfold JsMap.size in *. now rewrite IH.
Qed.

(** Expiry on lookup.  An entry is served as long as it is at most [ttlMs]
    old, the age [ttlMs] itself included, and serving it changes nothing.
    An older entry is reported as absent and the lookup removes it, and
    only it: every other key keeps its entry, time stamp included. *)
Theorem get_expires_lazily
    (key : jsstring) (now : Z) (c : cache) (entry : CacheEntry) :
  NoDup (JsMap.keys c) ->
  JsMap.get key c = Some entry ->
  (now - timestamp entry <= ttlMs ->
     get key now c = (Some (response entry), c)) /\
  (now - timestamp entry > ttlMs ->
     fst (get key now c) = None /\
     JsMap.get key (snd (get key now c)) = None /\
     S (JsMap.size (snd (get key now c))) = JsMap.size c /\
     forall other, other <> key ->
       JsMap.get other (snd (get key now c)) = JsMap.get other c).
Proof.
  intros Hnd Hget. unfold get. rewrite Hget. split; intros Hage.
  - destruct (Z.gtb_spec (now - timestamp entry) ttlMs); [lia|reflexivity].
  - destruct (Z.gtb_spec (now - timestamp entry) ttlMs); [|lia]. simpl.
    split; [reflexivity|]. split; [now apply get_delete_same|].
    split; [now apply size_delete_present with (v := entry)|].
    intros other Hne. now apply get_delete_other.
Qed.

Lemma get_expires_lazily_witness :
  get (lit "k") (100 + ttlMs) [(lit "k", mkEntry (lit "v") 100)]
  = (Some (lit "v"), [(lit "k", mkEntry (lit "v") 100)]) /\
  fst (get (lit "k") (101 + ttlMs) [(lit "k", mkEntry (lit "v") 100)]) = None.
Proof.
  destruct (@get_expires_lazily (lit "k") (100 + ttlMs)
              [(lit "k", mkEntry (lit "v") 100)] (mkEntry (lit "v") 100))
    as [Hfresh _].
  { repeat constructor. simpl. tauto. }
  { reflexivity. }
  destruct (@get_expires_lazily (lit "k") (101 + ttlMs)
              [(lit "k", mkEntry (lit "v") 100)] (mkEntry (lit "v") 100))
    as [_ Hold].
  { repeat constructor. simpl. tauto. }
  { reflexivity. }
  split.
  - apply Hfresh. unfold ttlMs. simpl. lia.
  - apply Hold. unfold ttlMs. simpl. lia.
Defined.

(** The key string joins its three parts with colons and the parts may
    hold colons themselves: moving a colon-separated piece from the end of
    a (short) system prompt to the front of the user prompt gives the same
    string, hence the same key, for two requests that differ in both. *)
Theorem key_delimiter_is_ambiguous (a b c model : jsstring) :
  (List.length (a ++ lit ":" ++ b) <= 200)%nat ->
  key_string (a ++ lit ":" ++ b) c model = key_string a (b ++ lit ":" ++ c) model /\
  generateKey (a ++ lit ":" ++ b) c model = generateKey a (b ++ lit ":" ++ c) model.
Proof.
  intros Hlen.
  assert (E : key_string (a ++ lit ":" ++ b) c model
              = key_string a (b ++ lit ":" ++ c) model).
  { unfold key_string, slice0.
    rewrite (@firstn_all2 _ 200 (a ++ lit ":" ++ b)) by exact Hlen.
    rewrite (@firstn_all2 _ 200 a).
    - now rewrite <- !app_assoc.
    - rewrite length_app in Hlen. lia. }
  split; [exact E|]. unfold generateKey. now rewrite E.
Qed.

Lemma key_delimiter_is_ambiguous_witness :
  generateKey (lit "You are a tutor" ++ lit ":" ++ lit "be brief") (lit "2+2?") (lit "m")
  = generateKey (lit "You are a tutor") (lit "be brief" ++ lit ":" ++ lit "2+2?") (lit "m").
Proof.
  apply key_delimiter_is_ambiguous. apply Nat.leb_le. vm_compute. reflexivity.
Defined.

End CacheMore.

(* ================================================================== *)
(** ** More on the streaming decoder *)
(* ================================================================== *)

Module StreamMore.
Import Json JsValue ApiService Scenarios MoreScenarios StreamTheory.

(** Whatever the network does, the callbacks of [stream] are a run of
    [onChunk] calls closed by exactly one [onComplete] or [onError]: the
    caller is always told that the call is over, once, and nothing comes
    after that. *)
Theorem stream_ends_with_one_terminal_callback
    (net : Network) (clk : Clock) (o : Options) (c : ResponseCache.cache) :
  exists chunks last,
    callbacks (stream net clk o c) = map OnChunk chunks ++ [last] /\
    is_terminal last = true /\
    List.length (filter is_terminal (callbacks (stream net clk o c))) = 1%nat.
Proof.
  assert (Hcount : forall chunks last, is_terminal last = true ->
            List.length (filter is_terminal (map OnChunk chunks ++ [last])) = 1%nat).
  { intros chunks last Hlast. rewrite filter_app. simpl. rewrite Hlast.
    rewrite length_app. simpl.
    induction chunks as [|d chunks IH]; simpl; [reflexivity|exact IH]. }
  unfold stream.
  destruct (present (cerebras (apiKeys o))); simpl.
  - destruct (CerebrasStream net) as [message|[|] statusText body]; simpl.
    + exists [], (OnError message). repeat split.
    + destruct (@read_loop_consistent (reads body) (mkSession [] []) consistent_start)
        as (chunks & texts & Hem & _ & _).
      destruct (ending body) as [|message]; simpl; rewrite Hem.
      * exists chunks, (OnComplete (fullText (read_loop (reads body) (mkSession [] [])))).
        repeat split. now apply Hcount.
      * exists chunks, (OnError message). repeat split. now apply Hcount.
    + exists [], (OnError (streaming_error statusText)). repeat split.
  - destruct (settled (call net clk (without_stream o) c)) as [r|message]; simpl.
    + exists [JString (response r)], (OnComplete (of_string (response r))).
      repeat split.
    + exists [], (OnError message). repeat split.
Qed.

(** Failures of the transport.  With the Cerebras key set: a rejected
    request gives one [onError] with its message; a response that is not OK
    gives one [onError] built from the status text, and its body is not
    decoded, whatever frames it holds; a read that fails after some reads
    gives the chunks of those reads, then [onError], and no [onComplete]. *)
Theorem transport_failure_reports_one_error
    (net : Network) (clk : Clock) (o : Options) (c : ResponseCache.cache) :
  present (cerebras (apiKeys o)) = true ->
  (forall message, CerebrasStream net = FetchRejects message ->
     callbacks (stream net clk o c) = [OnError message]) /\
  (forall statusText body, CerebrasStream net = FetchResponse false statusText body ->
     callbacks (stream net clk o c)
     = [OnError (lit "Cerebras streaming error: " ++ statusText)]) /\
  (forall statusText rs message,
     CerebrasStream net = FetchResponse true statusText (mkBody rs (ReaderFails message)) ->
     callbacks (stream net clk o c)
     = emitted (read_loop rs (mkSession [] [])) ++ [OnError message] /\
     filter is_complete (callbacks (stream net clk o c)) = []).
Proof.
  intros Hkey. unfold stream. rewrite Hkey. simpl.
  repeat split; intros.
  - now rewrite H.
  - now rewrite H.
  - now rewrite H.
  - rewrite H. simpl.
    destruct (@read_loop_consistent rs (mkSession [] []) consistent_start)
      as (chunks & texts & Hem & _ & _).
    rewrite Hem, filter_app. simpl. rewrite app_nil_r.
    clear. induction chunks as [|d chunks IH]; simpl; [reflexivity|exact IH].
Qed.

Lemma transport_failure_reports_one_error_witness :
  callbacks (stream refusing first_clock (request primary_only) empty_cache)
  = [OnError (lit "Cerebras streaming error: " ++ lit "Too Many Requests")].
Proof.
  apply (proj1 (proj2 (@transport_failure_reports_one_error refusing first_clock
                         (request primary_only) empty_cache (eq_refl true)))
           (lit "Too Many Requests") (mkBody [frame "ignored"] ReaderDone)).
  reflexivity.
Defined.

(** With the Cerebras key set, streaming does not involve the cache or
    the clock: the cache is handed back as it was, and the callbacks are
    the same for every cache and every clock.  A streamed answer is
    therefore neither served from the cache nor stored in it. *)
Theorem streaming_bypasses_the_cache
    (net : Network) (clk : Clock) (o : Options) (c : ResponseCache.cache) :
  present (cerebras (apiKeys o)) = true ->
  cache_after_stream (stream net clk o c) = c /\
  forall clk' c', callbacks (stream net clk' o c') = callbacks (stream net clk o c).
Proof.
  intros Hkey. unfold stream. rewrite Hkey. simpl.
  destruct (CerebrasStream net) as [message|[|] statusText body]; simpl;
    try (split; reflexivity).
  destruct (ending body); simpl; split; reflexivity.
Qed.

Lemma streaming_bypasses_the_cache_witness :
  cache_after_stream (stream (streaming whole_read) first_clock
                        (request primary_only) ResponseCache.full_cache)
  = ResponseCache.full_cache.
Proof.
  apply streaming_bypasses_the_cache. reflexivity.
Defined.

(** *** Carriage returns *)

Lemma trimStart_app_unit (s : jsstring) (w : code_unit) :
  trimStart s <> [] -> trimStart (s ++ [w]) = trimStart s ++ [w].
Proof.
  induction s as [|x s IH]; simpl; [congruence|].
  destruct (isWhiteSpace x); [exact IH|reflexivity].
Qed.

Lemma trimStart_all_space (s : jsstring) (w : code_unit) :
  isWhiteSpace w = true -> trimStart s = [] -> trimStart (s ++ [w]) = [].
Proof.
  intros Hw. induction s as [|x s IH]; simpl.
  - now rewrite Hw.
  - destruct (isWhiteSpace x); [exact IH|discriminate].
Qed.

(** Trailing white space does not survive [trim]. *)
Lemma trim_app_space (s : jsstring) (w : code_unit) :
  isWhiteSpace w = true -> trim (s ++ [w]) = trim s.
Proof.
  intros Hw. unfold trim, trimEnd.
  destruct (trimStart s) as [|x t] eqn:E.
  - now rewrite (@trimStart_all_space s w Hw E).
  - rewrite trimStart_app_unit by (rewrite E; discriminate).
    rewrite E, rev_app_distr. simpl. now rewrite Hw.
Qed.

Lemma startsWith_app_no_new (p s : jsstring) (c : code_unit) :
  p <> [] -> last p c <> c ->
  startsWith p (s ++ [c]) = startsWith p s.
Proof.
  revert s. induction p as [|x p IH]; intros s Hne Hlast; [congruence|].
  destruct s as [|y s]; simpl.
  - destruct p as [|x' p]; simpl in *.
    + unfold unit_eqb. destruct (N.eqb_spec x c); [congruence|reflexivity].
    + destruct (unit_eqb x c); reflexivity.
  - destruct (unit_eqb x y); simpl; [|reflexivity].
    destruct p as [|x' p]; [reflexivity|].
    apply IH; [discriminate|exact Hlast].
Qed.

Lemma startsWith_skipn_app (p s : jsstring) (c : code_unit) :
  startsWith p s = true ->
  skipn (List.length p) (s ++ [c]) = skipn (List.length p) s ++ [c].
Proof.
  revert s. induction p as [|x p IH]; intros s H; simpl; [reflexivity|].
  destruct s as [|y s]; simpl in *; [discriminate|].
  apply andb_true_iff in H. destruct H as [_ H]. now apply IH.
Qed.

Lemma removeFirst_app_unit (p s : jsstring) (c : code_unit) :
  p <> [] -> last p c <> c ->
  removeFirst p (s ++ [c]) = removeFirst p s ++ [c] \/
  (removeFirst p (s ++ [c]) = s ++ [c] /\ removeFirst p s = s).
Proof.
  intros Hne Hlast. induction s as [|y s IH].
  - right. simpl. destruct p as [|x p]; [congruence|].
    simpl. destruct p as [|x' p]; simpl in *.
    + unfold unit_eqb. destruct (N.eqb_spec x c); [congruence|]. split; reflexivity.
    + destruct (unit_eqb x c); split; reflexivity.
  - change ((y :: s) ++ [c]) with (y :: (s ++ [c])).
    assert (Hs : startsWith p (y :: s ++ [c]) = startsWith p (y :: s)).
    { apply (@startsWith_app_no_new p (y :: s) c Hne Hlast). }
    destruct p as [|x p]; [congruence|].
    cbn [removeFirst]. rewrite Hs.
    destruct (startsWith (x :: p) (y :: s)) eqn:E.
    + left. apply (@startsWith_skipn_app (x :: p) (y :: s) c E).
    + destruct IH as [IH|[IH1 IH2]].
      * left. now rewrite IH.
      * right. rewrite IH1, IH2. split; reflexivity.
Qed.

(** A line that ends with a carriage return, as in a stream whose line
    ends are CR LF, is treated exactly like the line without it: the same
    decision whether it is an event frame, the same payload, the same
    callback. *)
Theorem carriage_return_is_ignored (line : jsstring) (st : Session) :
  startsWith prefix (trim (line ++ [13%N])) = startsWith prefix (trim line) /\
  payload (line ++ [13%N]) = payload line /\
  process_line st (line ++ [13%N]) = process_line st line.
Proof.
  assert (Hcr : isWhiteSpace 13%N = true) by reflexivity.
  assert (Hpay : payload (line ++ [13%N]) = payload line).
  { unfold payload.
    assert (Hp : prefix <> []) by discriminate.
    assert (Hl : last prefix 13%N <> 13%N) by (vm_compute; discriminate).
    destruct (@removeFirst_app_unit prefix line 13%N Hp Hl) as [E|[E1 E2]].
    - etransitivity; [apply (f_equal trim); exact E|].
      now apply trim_app_space.
    - etransitivity; [apply (f_equal trim); exact E1|].
      etransitivity; [now apply trim_app_space|].
      apply (f_equal trim). symmetry. exact E2. }
  repeat split.
  - now rewrite trim_app_space.
  - exact Hpay.
  - unfold process_line. now rewrite Hpay.
Qed.

End StreamMore.

(* ================================================================== *)
(** ** The provider adapters *)
(* ================================================================== *)

Module AdapterTheory.
Import Json JsValue Adapters AdapterScenarios.

Lemma error_of_is_error_or_type_error (fallback body : jsstring) :
  forall m, error_of fallback body <> NetworkFailure m.
Proof.
  intros m. unfold error_of.
  destruct (error_message _) as [[v|]|]; try discriminate.
  destruct (truthy v); [|discriminate].
  destruct (ToString v); discriminate.
Qed.

(** A response that is not OK never yields a completion: both adapters
    throw.  The message is the provider's own [error.message] when the body
    is a JSON object carrying a non-empty string there; it is the status
    line message when the body is not JSON or is an object without an
    [error] member. *)
Theorem not_ok_response_is_thrown (statusText body : jsstring) :
  (exists e1 e2,
     Cerebras_call (HttpResponse false statusText body) = Thrown e1 /\
     Gemini_call (HttpResponse false statusText body) = Thrown e2) /\
  (forall fields e m,
     parse body = Some (JObject fields) ->
     own (lit "error") fields = Some e ->
     e <> JNull ->
     prop "message" e = Some (JString m) ->
     m <> [] ->
     Cerebras_call (HttpResponse false statusText body)
     = Thrown (ErrorWith (of_string m)) /\
     Gemini_call (HttpResponse false statusText body)
     = Thrown (ErrorWith (of_string m))) /\
  (parse body = None \/
   (exists fields, parse body = Some (JObject fields) /\
                   own (lit "error") fields = None) ->
   Cerebras_call (HttpResponse false statusText body)
   = Thrown (ErrorWith (of_string (lit "Cerebras API error: " ++ statusText))) /\
   Gemini_call (HttpResponse false statusText body)
   = Thrown (ErrorWith (of_string (lit "Gemini API error: " ++ statusText)))).
Proof.
  unfold Cerebras_call, Gemini_call, settle.
  split; [eexists; eexists; split; reflexivity|]. split.
  - intros fields e m Hparse Hown Hnull Hmsg Hm.
    unfold error_of. rewrite Hparse.
    unfold error_message, prop. rewrite Hown. unfold optional.
    destruct e; simpl in Hmsg; try discriminate Hmsg.
    unfold prop. rewrite Hmsg. simpl.
    destruct m; try congruence; split; reflexivity.
  - intros [Hparse|(fields & Hparse & Hown)]; unfold error_of; rewrite Hparse.
    + split; reflexivity.
    + unfold error_message, prop. rewrite Hown. split; reflexivity.
Qed.

Lemma not_ok_response_is_thrown_witness :
  Cerebras_call unauthorized = Thrown (ErrorWith (of_string (lit "Invalid API key"))) /\
  Gemini_call bad_gateway
  = Thrown (ErrorWith (of_string (lit "Gemini API error: " ++ lit "Bad Gateway"))).
Proof.
  split.
  - eapply (proj1 (proj2 (not_ok_response_is_thrown (lit "Unauthorized")
        (q "{'error':{'message':'Invalid API key','code':401}}"))));
      try (vm_compute; reflexivity); discriminate.
  - apply (proj2 (proj2 (not_ok_response_is_thrown (lit "Bad Gateway")
        (lit "<html>502</html>")))).
    left. vm_compute. reflexivity.
Defined.

(** Reading a member that is there. *)
Lemma strict_defined (access : json -> option json) (data : json) (v : json) :
  access data = Some v ->
  data <> JNull ->
  strict access (Some data) = Some (Some v).
Proof. intros H Hn. destruct data; try congruence; simpl; now rewrite H. Qed.

Lemma andThen_defined (access : json -> option json) (v : json) :
  v <> JNull -> andThen (Some (Some v)) access = Some (access v).
Proof. intros Hn. destruct v; try congruence; reflexivity. Qed.

(** Reading on from a member that is missing. *)
Lemma strict_undefined (access next : json -> option json) (data : json) :
  access data = None ->
  andThen (strict access (Some data)) next = None.
Proof. intros H. destruct data; simpl; try reflexivity; now rewrite H. Qed.

(** An OK response is accepted only in the adapter's own shape.  The
    Cerebras adapter returns [content] of the [message] of the first of
    [choices]; the Gemini adapter returns [text] of the first of [parts] of
    the [content] of the first of [candidates]; other members of the body do
    not matter.  A body without [choices] (without [candidates]), such as
    one of the other provider, makes the adapter throw a [TypeError], and a
    body that is not JSON a [SyntaxError]: nothing is returned then. *)
Theorem ok_response_needs_the_own_shape (statusText body : jsstring) :
  (forall data first rest msg,
     parse body = Some data ->
     prop "choices" data = Some (JArray (first :: rest)) ->
     prop "message" first = Some msg -> msg <> JNull ->
     Cerebras_call (HttpResponse true statusText body)
     = Returned (prop "content" msg)) /\
  (forall data cand rest content part parts,
     parse body = Some data ->
     prop "candidates" data = Some (JArray (cand :: rest)) ->
     prop "content" cand = Some content ->
     prop "parts" content = Some (JArray (part :: parts)) -> part <> JNull ->
     Gemini_call (HttpResponse true statusText body)
     = Returned (prop "text" part)) /\
  (forall data, parse body = Some data -> prop "choices" data = None ->
     Cerebras_call (HttpResponse true statusText body) = Thrown TypeError) /\
  (forall data, parse body = Some data -> prop "candidates" data = None ->
     Gemini_call (HttpResponse true statusText body) = Thrown TypeError) /\
  (parse body = None ->
     Cerebras_call (HttpResponse true statusText body) = Thrown SyntaxError /\
     Gemini_call (HttpResponse true statusText body) = Thrown SyntaxError).
Proof.
  unfold Cerebras_call, Gemini_call, settle.
  repeat split.
  - intros data first rest msg Hparse Hchoices Hmsg Hnull. rewrite Hparse.
    unfold Cerebras_content.
    rewrite (@strict_defined (prop "choices") data _ Hchoices)
      by (intros ->; discriminate Hchoices).
    rewrite (@andThen_defined index0 (JArray (first :: rest))) by discriminate.
    simpl index0.
    rewrite (@andThen_defined (prop "message") first)
      by (intros ->; discriminate Hmsg).
    rewrite Hmsg.
    now rewrite (@andThen_defined (prop "content") msg).
  - intros data cand rest content part parts Hparse Hcand Hcontent Hparts Hnull.
    rewrite Hparse. unfold Gemini_content.
    rewrite (@strict_defined (prop "candidates") data _ Hcand)
      by (intros ->; discriminate Hcand).
    rewrite (@andThen_defined index0 (JArray (cand :: rest))) by discriminate.
    simpl index0.
    rewrite (@andThen_defined (prop "content") cand)
      by (intros ->; discriminate Hcontent).
    rewrite Hcontent.
    rewrite (@andThen_defined (prop "parts") content)
      by (intros ->; discriminate Hparts).
    rewrite Hparts.
    rewrite (@andThen_defined index0 (JArray (part :: parts))) by discriminate.
    simpl index0.
    now rewrite (@andThen_defined (prop "text") part).
  - intros data Hparse Hnone. rewrite Hparse.
    unfold Cerebras_content. now rewrite (@strict_undefined _ _ data Hnone).
  - intros data Hparse Hnone. rewrite Hparse.
    unfold Gemini_content. now rewrite (@strict_undefined _ _ data Hnone).
  - now rewrite H.
  - now rewrite H.
Qed.

Lemma ok_response_needs_the_own_shape_witness :
  Cerebras_call Cerebras_ok
  = Returned (prop "content"
      (JObject [(lit "role", JString (lit "assistant"));
                (lit "content", JString (lit "4"))])) /\
  Cerebras_call Gemini_ok = Thrown TypeError.
Proof.
  split.
  - eapply (proj1 (ok_response_needs_the_own_shape (lit "OK")
      (q "{'id':'c1','choices':[{'index':0,'message':{'role':'assistant','content':'4'}}]}")));
      try (vm_compute; reflexivity); discriminate.
  - eapply (proj1 (proj2 (proj2 (ok_response_needs_the_own_shape (lit "OK")
      (q "{'candidates':[{'content':{'role':'model','parts':[{'text':'4'}]}}]}")))));
      vm_compute; reflexivity.
Defined.

Lemma not_ok_is_thrown (http : HttpResult) :
  (forall statusText body, http <> HttpResponse true statusText body) ->
  exists e, Cerebras_call http = Thrown e.
Proof.
  intros Hdown. destruct http as [message|[|] statusText body].
  - eexists; reflexivity.
  - exfalso. now apply (Hdown statusText body).
  - eexists; reflexivity.
Qed.

Lemma thrown_is_seen (wording : jsstring) (e : thrown) :
  agrees (Thrown e) (ApiService.Throws (message_of wording e)) = true.
Proof.
  destruct e as [t| | |m]; simpl; try reflexivity.
  - destruct (as_string t); [apply JsStringFacts.eqb_refl|reflexivity].
  - apply JsStringFacts.eqb_refl.
Qed.

Lemma thrown_seen_as_throws (e : thrown) (seen : ApiService.outcome) :
  agrees (Thrown e) seen = true -> exists message, seen = ApiService.Throws message.
Proof.
  destruct seen as [s|m]; [|intros _; now exists m].
  destruct e; discriminate.
Qed.

(** From HTTP to the router.  Both keys are set and the cache has nothing
    for the request.  Whenever the Cerebras request does not come back OK
    (the network fails, or any status that is not OK, whatever the body:
    a structured error, a body that is not JSON, [null], a message that is
    not a string), the adapter throws, whatever it throws is seen by the
    router as a failure, and if the Gemini request comes back with a
    text, [call] resolves with that text, names Gemini as provider and
    flags the failover: the failure of the primary provider does not reach
    the caller. *)
Theorem cerebras_outage_is_covered_by_gemini (cerebrasHttp : HttpResult) :
  (forall statusText body, cerebrasHttp <> HttpResponse true statusText body) ->
  (exists e, Cerebras_call cerebrasHttp = Thrown e /\
             forall wording,
               agrees (Cerebras_call cerebrasHttp)
                      (ApiService.Throws (message_of wording e)) = true) /\
  forall (net : ApiService.Network) (clk : ApiService.Clock)
         (o : ApiService.Options) (c : ResponseCache.cache)
         (geminiHttp : HttpResult) (t : jsstring),
    ApiService.present (ApiService.cerebras (ApiService.apiKeys o)) = true ->
    ApiService.present (ApiService.gemini (ApiService.apiKeys o)) = true ->
    (forall u cachedText,
       fst (ApiService.lookup clk o c) <> Some (u :: cachedText)) ->
    agrees (Cerebras_call cerebrasHttp) (ApiService.CerebrasCall net) = true ->
    Gemini_call geminiHttp = Returned (Some (JString t)) ->
    agrees (Gemini_call geminiHttp) (ApiService.GeminiCall net) = true ->
    ApiService.settled (ApiService.call net clk o c)
    = ApiService.Resolved
        (ApiService.mkResult t ApiService.ProviderGemini false (Some true)) /\
    exists message,
      ApiService.requests (ApiService.call net clk o c)
      = [ApiService.ToCerebras (ApiService.Throws message);
         ApiService.ToGemini (ApiService.Returns t)].
Proof.
  intros Hdown. destruct (not_ok_is_thrown Hdown) as [e He]. split.
  - exists e. split; [exact He|]. intros wording. rewrite He. apply thrown_is_seen.
  - intros net clk o c geminiHttp t Hk1 Hk2 Hmiss Hc Hg Hg'.
    rewrite He in Hc. apply thrown_seen_as_throws in Hc.
    destruct Hc as [message Hthrows].
    rewrite Hg in Hg'.
    assert (Hreturns : ApiService.GeminiCall net = ApiService.Returns t).
    { destruct (ApiService.GeminiCall net) as [s|m]; simpl in Hg'; [|discriminate].
      apply JsStringFacts.eqb_eq in Hg'. now subst. }
    unfold ApiService.call. rewrite Hk1, Hk2, Hthrows, Hreturns.
    destruct (ApiService.lookup clk o c) as [[[|u cachedText]|] c1]; simpl;
      try (split; [reflexivity|eexists; reflexivity]).
    exfalso. now apply (Hmiss u cachedText).
Qed.

Lemma cerebras_outage_is_covered_by_gemini_witness :
  ApiService.settled
    (ApiService.call
       (ApiService.mkNetwork
          (ApiService.Throws (lit "Cannot read properties of null"))
          (ApiService.Returns (lit "4")) Scenarios.idle_stream)
       Scenarios.first_clock (Scenarios.request Scenarios.both_keys)
       Scenarios.empty_cache)
  = ApiService.Resolved
      (ApiService.mkResult (lit "4") ApiService.ProviderGemini false (Some true)) /\
  ApiService.settled
    (ApiService.call
       (ApiService.mkNetwork (ApiService.Throws (lit "404"))
          (ApiService.Returns (lit "4")) Scenarios.idle_stream)
       Scenarios.first_clock (Scenarios.request Scenarios.both_keys)
       Scenarios.empty_cache)
  = ApiService.Resolved
      (ApiService.mkResult (lit "4") ApiService.ProviderGemini false (Some true)) /\
  ApiService.settled
    (ApiService.call
       (ApiService.mkNetwork (ApiService.Throws (lit "Invalid API key"))
          (ApiService.Returns (lit "4")) Scenarios.idle_stream)
       Scenarios.first_clock (Scenarios.request Scenarios.both_keys)
       Scenarios.empty_cache)
  = ApiService.Resolved
      (ApiService.mkResult (lit "4") ApiService.ProviderGemini false (Some true)).
Proof.
  assert (Hnull : forall statusText body,
            null_body <> HttpResponse true statusText body) by discriminate.
  assert (Hnum : forall statusText body,
            numeric_message <> HttpResponse true statusText body) by discriminate.
  assert (Hauth : forall statusText body,
            unauthorized <> HttpResponse true statusText body) by discriminate.
  split; [|split].
  - apply (proj2 (@cerebras_outage_is_covered_by_gemini null_body Hnull)
             (ApiService.mkNetwork
                (ApiService.Throws (lit "Cannot read properties of null"))
                (ApiService.Returns (lit "4")) Scenarios.idle_stream)
             Scenarios.first_clock (Scenarios.request Scenarios.both_keys)
             Scenarios.empty_cache Gemini_ok (lit "4"));
      try (vm_compute; reflexivity); discriminate.
  - apply (proj2 (@cerebras_outage_is_covered_by_gemini numeric_message Hnum)
             (ApiService.mkNetwork (ApiService.Throws (lit "404"))
                (ApiService.Returns (lit "4")) Scenarios.idle_stream)
             Scenarios.first_clock (Scenarios.request Scenarios.both_keys)
             Scenarios.empty_cache Gemini_ok (lit "4"));
      try (vm_compute; reflexivity); discriminate.
  - apply (proj2 (@cerebras_outage_is_covered_by_gemini unauthorized Hauth)
             (ApiService.mkNetwork (ApiService.Throws (lit "Invalid API key"))
                (ApiService.Returns (lit "4")) Scenarios.idle_stream)
             Scenarios.first_clock (Scenarios.request Scenarios.both_keys)
             Scenarios.empty_cache Gemini_ok (lit "4"));
      try (vm_compute; reflexivity); discriminate.
Defined.

End AdapterTheory.

(* ================================================================== *)
(** ** Sorting and object stores *)
(* ================================================================== *)

Module JsArrayFacts.
Section WithElement.

Variable A : Type.
Variable compare : A -> A -> Z.

(** What a comparator of the form [key a - key b] or [key b - key a]
    satisfies. *)
Hypothesis compare_total : forall a b, compare a b <= 0 \/ compare b a <= 0.
Hypothesis compare_trans :
  forall a b c, compare a b <= 0 -> compare b c <= 0 -> compare a c <= 0.

Lemma insert_perm (x : A) (l : list A) :
  Permutation (JsArray.insert compare x l) (x :: l).
Proof.
  induction l as [|y l IH]; simpl; [reflexivity|].
  destruct (compare x y <=? 0); [reflexivity|].
  rewrite IH. apply perm_swap.
Qed.

Lemma sort_perm (l : list A) : Permutation (JsArray.sort compare l) l.
Proof.
  induction l as [|x l IH]; simpl; [reflexivity|].
  rewrite insert_perm. now constructor.
Qed.

Lemma insert_sorted (x : A) (l : list A) :
  StronglySorted (fun a b => compare a b <= 0) l ->
  StronglySorted (fun a b => compare a b <= 0) (JsArray.insert compare x l).
Proof.
  induction l as [|y l IH]; simpl; intros Hs.
  - constructor; [constructor|constructor].
  - inversion Hs as [|y' l' Hl Hy]; subst.
    destruct (Z.leb_spec (compare x y) 0) as [Hxy|Hxy].
    + constructor; [exact Hs|]. constructor; [exact Hxy|].
      eapply Forall_impl; [|exact Hy]. intros b Hb. now apply compare_trans with y.
    + constructor; [now apply IH|].
      assert (Hyx : compare y x <= 0) by (destruct (compare_total x y); lia).
      eapply Permutation_Forall; [symmetry; apply insert_perm|].
      constructor; assumption.
Qed.

Lemma sort_sorted (l : list A) :
  StronglySorted (fun a b => compare a b <= 0) (JsArray.sort compare l).
Proof.
  induction l as [|x l IH]; simpl; [constructor|now apply insert_sorted].
Qed.

Lemma sorted_split (n : nat) (l : list A) :
  StronglySorted (fun a b => compare a b <= 0) l ->
  forall x y, In x (firstn n l) -> In y (skipn n l) -> compare x y <= 0.
Proof.
  revert n. induction l as [|a l IH]; intros n Hs x y Hx Hy.
  - destruct n; simpl in Hx; contradiction.
  - inversion Hs as [|a' l' Hl Ha]; subst.
    destruct n as [|n]; simpl in Hx, Hy; [contradiction|].
    destruct Hx as [->|Hx].
    + rewrite Forall_forall in Ha. apply Ha.
      rewrite <- (firstn_skipn n l). apply in_or_app. now right.
    + now apply (IH n).
Qed.

End WithElement.

Lemma slice_to_length (A : Type) (limit : Z) (l : list A) :
  0 <= limit ->
  List.length (JsArray.slice_to limit l) = Nat.min (Z.to_nat limit) (List.length l).
Proof.
  intros Hl. unfold JsArray.slice_to.
  destruct (Z.ltb_spec limit 0); [lia|]. apply length_firstn.
Qed.

Lemma slice_to_firstn (A : Type) (limit : Z) (l : list A) :
  exists n, JsArray.slice_to limit l = firstn n l /\
            (0 <= limit -> n = Z.to_nat limit).
Proof.
  unfold JsArray.slice_to. destruct (Z.ltb_spec limit 0).
  - eexists. split; [reflexivity|lia].
  - eexists. split; [reflexivity|reflexivity].
Qed.

Lemma firstn_sorted (A : Type) (R : A -> A -> Prop) (n : nat) (l : list A) :
  StronglySorted R l -> StronglySorted R (firstn n l).
Proof.
  revert n. induction l as [|x l IH]; intros [|n] Hs; simpl; try constructor.
  - inversion Hs; subst. now apply IH.
  - inversion Hs as [|x' l' Hl Hx]; subst.
    rewrite Forall_forall in *. intros y Hy. apply Hx.
    rewrite <- (firstn_skipn n l). apply in_or_app. now left.
Qed.

Lemma sorted_weaken (A : Type) (R R' : A -> A -> Prop) (l : list A) :
  (forall a b, R a b -> R' a b) -> StronglySorted R l -> StronglySorted R' l.
Proof.
  intros Himp. induction 1 as [|x l Hl IH Hx]; constructor; [exact IH|].
  eapply Forall_impl; [|exact Hx]. intros b. apply Himp.
Qed.

Lemma in_firstn (A : Type) (n : nat) (l : list A) (x : A) :
  In x (firstn n l) -> In x l.
Proof.
  intros H. rewrite <- (firstn_skipn n l). apply in_or_app. now left.
Qed.

End JsArrayFacts.

Module ObjectStoreFacts.
Section WithValue.

Variable V : Type.
Import ObjectStore.

Lemma ascending_weaken (b b' : Z) (rs : list (Z * V)) :
  b' <= b -> ascending b rs -> ascending b' rs.
Proof. destruct rs as [|[k v] rs]; simpl; [tauto|]. intros Hb [H1 H2]. split; [lia|exact H2]. Qed.

Lemma ascending_keys_above (b : Z) (rs : list (Z * V)) :
  ascending b rs -> Forall (fun r => b < fst r) rs.
Proof.
  revert b. induction rs as [|[k v] rs IH]; intros b H; constructor; simpl in *.
  - tauto.
  - destruct H as [Hb H]. apply IH in H.
    eapply Forall_impl; [|exact H]. simpl. intros r Hr. lia.
Qed.

Lemma ascending_app (b : Z) (rs : list (Z * V)) (k : Z) (v : V) :
  ascending b rs -> b < k -> Forall (fun r => fst r < k) rs ->
  ascending b (rs ++ [(k, v)]).
Proof.
  revert b. induction rs as [|[k' v'] rs IH]; intros b Ha Hb Hall; simpl.
  - tauto.
  - simpl in Ha. destruct Ha as [H1 H2].
    inversion Hall as [|r l Hk Hall']; subst. simpl in Hk.
    split; [exact H1|]. now apply IH.
Qed.

Lemma wf_empty : wf (empty V).
Proof. split; simpl; [exact I|constructor]. Qed.

Lemma wf_add (v : V) (s : t V) :
  wf s -> 0 < nextKey s -> wf (snd (add v s)) /\ 0 < nextKey (snd (add v s)).
Proof.
  intros [Ha Hb] Hpos. unfold add, wf. simpl. repeat split.
  - now apply ascending_app.
  - apply Forall_app. split.
    + eapply Forall_impl; [|exact Hb]. simpl. intros r Hr. lia.
    + constructor; [simpl; lia|constructor].
  - lia.
Qed.

Lemma put_row_present (id : Z) (v old : V) (rs : list (Z * V)) (b : Z) :
  ascending b rs -> In (id, old) rs ->
  put_row id v rs = map (fun r => if fst r =? id then (id, v) else r) rs.
Proof.
  revert b. induction rs as [|[k w] rs IH]; intros b Ha Hin; [contradiction|].
  simpl in Ha. destruct Ha as [Hb Ha]. simpl.
  destruct (Z.eqb_spec id k) as [->|Hne].
  - rewrite Z.eqb_refl. f_equal.
    pose proof (ascending_keys_above _ _ Ha) as Habove.
    clear -Habove. induction rs as [|[k' w'] rs IH]; simpl; [reflexivity|].
    inversion Habove as [|r l Hk Hrest]; subst. simpl in Hk.
    destruct (Z.eqb_spec k' k); [lia|]. f_equal. now apply IH.
  - destruct Hin as [Heq|Hin]; [injection Heq as -> _; congruence|].
    destruct (Z.eqb_spec k id); [congruence|].
    destruct (Z.ltb_spec id k) as [Hlt|_].
    + exfalso. pose proof (ascending_keys_above _ _ Ha) as Habove.
      rewrite Forall_forall in Habove. apply Habove in Hin. simpl in Hin. lia.
    + f_equal. now apply (IH k).
Qed.

Lemma find_key_in (id : Z) (v : V) (rs : list (Z * V)) (p : Z * V -> bool) :
  find p rs = Some (id, v) -> In (id, v) rs /\ p (id, v) = true.
Proof. intros H. apply find_some in H. exact H. Qed.

Lemma get_map_replace (id : Z) (v : V) (rs : list (Z * V)) (old : V) :
  In (id, old) rs ->
  option_map snd (find (fun r => fst r =? id)
                       (map (fun r => if fst r =? id then (id, v) else r) rs))
  = Some v.
Proof.
  induction rs as [|[k w] rs IH]; intros Hin; [contradiction|]. simpl.
  destruct (Z.eqb_spec k id) as [->|Hne]; simpl.
  - now rewrite Z.eqb_refl.
  - destruct (Z.eqb_spec k id); [congruence|].
    destruct Hin as [Heq|Hin]; [injection Heq as -> _; congruence|]. now apply IH.
Qed.

Lemma get_add_new (v : V) (s : t V) :
  wf s -> get (fst (add v s)) (snd (add v s)) = Some v.
Proof.
  intros [_ Hb]. unfold get, add. simpl.
  induction (rows s) as [|[k w] rs IH]; simpl.
  - now rewrite Z.eqb_refl.
  - inversion Hb as [|r l Hk Hrest]; subst. simpl in Hk.
    destruct (Z.eqb_spec k (nextKey s)); [lia|]. now apply IH.
Qed.

Lemma ascending_same_keys (b : Z) (rs rs' : list (Z * V)) :
  map fst rs = map fst rs' -> ascending b rs -> ascending b rs'.
Proof.
  revert b rs'. induction rs as [|[k w] rs IH]; intros b [|[k' w'] rs'] E Ha;
    simpl in *; try discriminate; [exact I|].
  injection E as -> E. destruct Ha as [Hb Ha]. split; [exact Hb|].
  now apply (IH k').
Qed.

Lemma map_replace_keys (id : Z) (v : V) (rs : list (Z * V)) :
  map fst (map (fun r => if fst r =? id then (id, v) else r) rs) = map fst rs.
Proof.
  induction rs as [|[k w] rs IH]; simpl; [reflexivity|].
  destruct (Z.eqb_spec k id) as [->|_]; simpl; now rewrite IH.
Qed.

Lemma ascending_unique (b : Z) (rs : list (Z * V)) (k : Z) (v1 v2 : V) :
  ascending b rs -> In (k, v1) rs -> In (k, v2) rs -> v1 = v2.
Proof.
  revert b. induction rs as [|[k' w] rs IH]; intros b Ha H1 H2; [contradiction|].
  simpl in Ha. destruct Ha as [Hb Ha].
  pose proof (ascending_keys_above _ _ Ha) as Habove. rewrite Forall_forall in Habove.
  destruct H1 as [E1|H1], H2 as [E2|H2].
  - congruence.
  - injection E1 as -> _. apply Habove in H2. simpl in H2. lia.
  - injection E2 as -> _. apply Habove in H1. simpl in H1. lia.
  - now apply (IH k').
Qed.

Lemma get_in (id : Z) (v : V) (s : t V) :
  wf s -> In (id, v) (rows s) -> get id s = Some v.
Proof.
  intros [Ha _] Hin. unfold get.
  destruct (find (fun r => fst r =? id) (rows s)) as [[k w]|] eqn:E.
  - apply find_some in E. destruct E as [Hin' Hk]. simpl in Hk.
    apply Z.eqb_eq in Hk. subst k. simpl. f_equal.
    eapply ascending_unique; eassumption.
  - exfalso. apply (find_none _ _ E) in Hin. simpl in Hin.
    now rewrite Z.eqb_refl in Hin.
Qed.

Lemma get_some_in (id : Z) (v : V) (s : t V) :
  get id s = Some v -> In (id, v) (rows s).
Proof.
  unfold get. destruct (find (fun r => fst r =? id) (rows s)) as [[k w]|] eqn:E;
    [|discriminate].
  simpl. intros H. injection H as <-. apply find_some in E.
  destruct E as [Hin Hk]. simpl in Hk. apply Z.eqb_eq in Hk. now subst.
Qed.

End WithValue.
End ObjectStoreFacts.

(* ================================================================== *)
(** ** Quiz reviews *)
(* ================================================================== *)

Module QuizTheory.
Import QuizReviews ObjectStoreFacts JsArrayFacts.

Lemma or_zero_id (x : Z) : or_zero x = x.
Proof. unfold or_zero. destruct (Z.eqb_spec x 0); congruence. Qed.

Lemma next_review_cases (now count : Z) :
  _calculateNextReview now count = now + 1 * DAY \/
  _calculateNextReview now count = now + 3 * DAY \/
  _calculateNextReview now count = now + 7 * DAY \/
  _calculateNextReview now count = now + 30 * DAY.
Proof.
  unfold _calculateNextReview.
  destruct (count <=? 0); [tauto|].
  destruct (count =? 1); [tauto|].
  destruct (count =? 2); tauto.
Qed.

Lemma next_review_bounds (now count : Z) :
  now + DAY <= _calculateNextReview now count <= now + 30 * DAY.
Proof.
  destruct (next_review_cases now count) as [H|[H|[H|H]]]; rewrite H;
    unfold DAY; lia.
Qed.

(** The review interval: at least one day and at most thirty, one day
    exactly after a wrong answer, and never shorter for a longer run of
    correct answers. *)
Theorem next_review_grows_with_the_streak (now : Z) :
  (forall count,
     now + DAY <= _calculateNextReview now count <= now + 30 * DAY) /\
  (forall count, count <= 0 -> _calculateNextReview now count = now + DAY) /\
  (forall count, 3 <= count -> _calculateNextReview now count = now + 30 * DAY) /\
  (forall count count',
     count <= count' ->
     _calculateNextReview now count <= _calculateNextReview now count').
Proof.
  unfold _calculateNextReview, DAY. repeat split; intros;
    repeat match goal with
           | |- context [?a <=? ?b] => destruct (Z.leb_spec a b)
           | |- context [?a =? ?b] => destruct (Z.eqb_spec a b)
           end; lia.
Qed.

(** *** The hash *)

Lemma simpleHash_is_hash_of (str : jsstring) :
  _simpleHash str = ResponseCache.hash_of str.
Proof. reflexivity. Qed.

Lemma fold_polynomial (str : jsstring) : forall h p,
  h = ToInt32 p ->
  fold_left ResponseCache.hash_step str h
  = ToInt32 (fold_left (fun acc c => 31 * acc + charCode c) str p).
Proof.
  induction str as [|c str IH]; intros h p Hh; simpl; [exact Hh|].
  apply IH. rewrite KeyTheory.hash_step_spec. subst h.
  apply Int32Facts.ToInt32_congr.
  rewrite Zplus_mod, Zmult_mod, Int32Facts.ToInt32_mod, <- Zmult_mod, <- Zplus_mod.
  reflexivity.
Qed.

(** The shift-and-subtract loop of [_simpleHash] computes the polynomial
    hash with multiplier 31, reduced to a signed 32-bit integer; the result
    is always in that range, and it is the number [generateKey] renders in
    base 36. *)
Theorem simpleHash_is_the_31_polynomial (str : jsstring) :
  _simpleHash str = ToInt32 (polynomial str) /\
  - 2 ^ 31 <= _simpleHash str < 2 ^ 31 /\
  forall systemPrompt userPrompt model,
    ResponseCache.generateKey systemPrompt userPrompt model
    = ResponseCache.toString36
        (_simpleHash (ResponseCache.key_string systemPrompt userPrompt model)).
Proof.
  assert (E : _simpleHash str = ToInt32 (polynomial str)).
  { rewrite simpleHash_is_hash_of. unfold ResponseCache.hash_of, polynomial.
    now apply fold_polynomial. }
  split; [exact E|]. split; [|reflexivity].
  rewrite E. apply Int32Facts.ToInt32_range.
Qed.

(** *** The store *)

Lemma find_filter (A : Type) (p q : A -> bool) (l : list A) :
  find p (filter q l) = find (fun x => q x && p x) l.
Proof.
  induction l as [|x l IH]; simpl; [reflexivity|].
  destruct (q x); simpl; [|exact IH].
  destruct (p x); [reflexivity|exact IH].
Qed.

Lemma existing_is_find (subject : jsstring) (hash : Z) (s : store) :
  existingForSubject subject hash s = find (matches subject hash) (ObjectStore.rows s).
Proof. unfold existingForSubject, ObjectStore.getAllByIndex. apply find_filter. Qed.

Lemma find_app_last (A : Type) (p : A -> bool) (l : list A) (x : A) :
  find p l = None -> p x = true -> find p (l ++ [x]) = Some x.
Proof.
  induction l as [|y l IH]; simpl; intros Hn Hx; [now rewrite Hx|].
  destruct (p y); [discriminate|now apply IH].
Qed.

Lemma find_replace (subject : jsstring) (hash : Z) (id : Z) (old new : Review)
    (rs : list (Z * Review)) (b : Z) :
  ObjectStore.ascending b rs ->
  find (matches subject hash) rs = Some (id, old) ->
  matches subject hash (id, new) = true ->
  find (matches subject hash)
       (map (fun r => if fst r =? id then (id, new) else r) rs)
  = Some (id, new).
Proof.
  revert b. induction rs as [|[k w] rs IH]; intros b Ha Hfind Hnew; [discriminate|].
  simpl in Ha. destruct Ha as [Hb Ha]. simpl in Hfind. simpl.
  destruct (matches subject hash (k, w)) eqn:E.
  - injection Hfind as -> ->. rewrite Z.eqb_refl. now rewrite Hnew.
  - assert (Hin : In (id, old) rs) by (apply find_some in Hfind; tauto).
    pose proof (ascending_keys_above _ _ Ha) as Habove.
    rewrite Forall_forall in Habove. apply Habove in Hin. simpl in Hin.
    destruct (Z.eqb_spec k id); [lia|]. rewrite E. now apply (IH k).
Qed.

Lemma NoDup_snoc (A : Type) (l : list A) (x : A) :
  NoDup l -> ~ In x l -> NoDup (l ++ [x]).
Proof.
  induction l as [|y l IH]; simpl; intros Hnd Hx.
  - constructor; [tauto|constructor].
  - inversion Hnd as [|y' l' Hy Hl]; subst. constructor.
    + intros Hin. apply in_app_or in Hin. destruct Hin as [Hin|[->|[]]]; tauto.
    + apply IH; tauto.
Qed.

(** What one call does to a store that satisfies the invariant. *)
Lemma save_step (now later : Z) (a : Answer) (s : store) :
  invariant s -> now <= later ->
  let hash := _simpleHash (question a) in
  let id := fst (saveQuizReview now later a s) in
  let s' := snd (saveQuizReview now later a s) in
  invariant s' /\
  exists row,
    existingForSubject (subjectId a) hash s' = Some (id, row) /\
    ObjectStore.get id s' = Some row /\
    lastAttempt row = now /\
    nextReview row = _calculateNextReview later (correctCount row) /\
    correctCount row = (if isCorrect a
                        then match existingForSubject (subjectId a) hash s with
                             | Some (_, old) => correctCount old + 1
                             | None => 1
                             end
                        else 0) /\
    match existingForSubject (subjectId a) hash s with
    | Some (id0, old) =>
        id = id0 /\ answer row = answer old /\ createdAt row = createdAt old /\
        totalAttempts row = totalAttempts old + 1 /\
        List.length (ObjectStore.rows s') = List.length (ObjectStore.rows s)
    | None =>
        id = ObjectStore.nextKey s /\ answer row = a /\ createdAt row = now /\
        totalAttempts row = 1 /\
        List.length (ObjectStore.rows s') = S (List.length (ObjectStore.rows s))
    end.
Proof.
  intros (Hwf & Hpos & Hnd & Hok) Hclock. cbv zeta.
  pose proof (next_review_bounds later) as Hbound.
  unfold saveQuizReview. cbv zeta.
  destruct (existingForSubject (subjectId a) (_simpleHash (question a)) s)
    as [[id0 old]|] eqn:Hex.
  - (* update *)
    rewrite existing_is_find in Hex.
    pose proof (find_some _ _ Hex) as [Hin Hm].
    unfold matches in Hm. simpl in Hm. apply andb_true_iff in Hm.
    destruct Hm as [Hhash Hsubj]. apply Z.eqb_eq in Hhash.
    destruct Hwf as [Hasc Hbelow].
    rewrite Forall_forall in Hok. pose proof (Hok _ Hin) as Hold. simpl in Hold.
    destruct Hold as (Hta & Hcc & Hlc & Hqh & Hnr).
    set (count := if isCorrect a then or_zero (correctCount old) + 1 else 0).
    set (new := mkReview (answer old) (questionHash old) count
                  (or_zero (totalAttempts old) + 1) now (isCorrect a)
                  (_calculateNextReview later count) (createdAt old)).
    unfold ObjectStore.put. cbn [fst snd].
    assert (Hrows : ObjectStore.put_row id0 new (ObjectStore.rows s)
                    = map (fun r => if fst r =? id0 then (id0, new) else r)
                          (ObjectStore.rows s)).
    { eapply put_row_present; eassumption. }
    assert (Hnewok : row_ok new).
    { unfold row_ok, new, count. simpl. rewrite !or_zero_id.
      pose proof (Hbound (if isCorrect a then correctCount old + 1 else 0)).
      destruct (isCorrect a); repeat split; try lia; try exact Hqh;
        try reflexivity; try (symmetry; apply Z.ltb_lt; lia). }
    assert (Hkey : forall r, In r (ObjectStore.rows s) ->
              review_key (if fst r =? id0 then (id0, new) else r) = review_key r).
    { intros [k w] Hr. simpl. destruct (Z.eqb_spec k id0) as [->|_]; [|reflexivity].
      assert (w = old) by (eapply ascending_unique; eassumption). now subst. }
    split.
    + unfold invariant, ObjectStore.wf. cbn [ObjectStore.rows ObjectStore.nextKey].
      rewrite Hrows.
      split; [split|split; [|split]].
      * eapply ascending_same_keys; [symmetry; apply map_replace_keys|exact Hasc].
      * apply Forall_forall. intros r Hr. apply in_map_iff in Hr.
        destruct Hr as ([k w] & <- & Hr).
        rewrite Forall_forall in Hbelow. pose proof (Hbelow _ Hr) as Hk.
        cbn [fst] in *. destruct (Z.eqb_spec k id0); cbn [fst]; lia.
      * lia.
      * rewrite map_map.
        rewrite (map_ext_in _ review_key); [exact Hnd|exact Hkey].
      * apply Forall_forall. intros r Hr. apply in_map_iff in Hr.
        destruct Hr as ([k w] & <- & Hr). simpl.
        destruct (Z.eqb_spec k id0); simpl; [exact Hnewok|].
        now apply (Hok (k, w)).
    + exists new. split; [|split; [|split; [|split; [|split]]]].
      * rewrite existing_is_find. cbn [ObjectStore.rows]. rewrite Hrows.
        eapply find_replace; [exact Hasc|exact Hex|].
        unfold matches, new. simpl. now rewrite Hhash, Z.eqb_refl, Hsubj.
      * unfold ObjectStore.get. cbn [ObjectStore.rows]. rewrite Hrows.
        eapply get_map_replace. exact Hin.
      * reflexivity.
      * reflexivity.
      * unfold new, count. simpl. rewrite or_zero_id. reflexivity.
      * repeat split; try reflexivity.
        -- unfold new. simpl. now rewrite or_zero_id.
        -- cbn [ObjectStore.rows]. rewrite Hrows. apply length_map.
  - (* new entry *)
    rewrite existing_is_find in Hex.
    set (new := mkReview a (_simpleHash (question a))
                  (if isCorrect a then 1 else 0) 1 now (isCorrect a)
                  (_calculateNextReview later (if isCorrect a then 1 else 0)) now).
    assert (Hnewok : row_ok new).
    { unfold row_ok, new. simpl.
      pose proof (Hbound (if isCorrect a then 1 else 0)).
      destruct (isCorrect a); repeat split; try lia; reflexivity. }
    destruct (wf_add new Hwf Hpos) as [Hwf' Hpos'].
    split.
    + split; [exact Hwf'|]. split; [exact Hpos'|]. split.
      * simpl. rewrite map_app. simpl. apply NoDup_snoc; [exact Hnd|].
        intros Hdup. apply in_map_iff in Hdup. destruct Hdup as ([k w] & Hk & Hin).
        pose proof (find_none _ _ Hex _ Hin) as Hno.
        unfold review_key in Hk. simpl in Hk. injection Hk as Hs Hh.
        unfold matches in Hno. simpl in Hno.
        rewrite Hh, Z.eqb_refl, Hs, JsStringFacts.eqb_refl in Hno. discriminate.
      * simpl. apply Forall_app. split; [exact Hok|].
        constructor; [exact Hnewok|constructor].
    + exists new. split; [|split; [|split; [|split; [|split]]]].
      * rewrite existing_is_find. simpl fst. simpl ObjectStore.rows.
        apply find_app_last; [exact Hex|].
        unfold matches, new. simpl.
        now rewrite Z.eqb_refl, JsStringFacts.eqb_refl.
      * now apply get_add_new.
      * reflexivity.
      * reflexivity.
      * reflexivity.
      * repeat split. simpl. rewrite length_app. simpl. lia.
Qed.

Lemma invariant_empty : invariant (ObjectStore.empty Review).
Proof.
  split; [apply wf_empty|]. split; [simpl; lia|].
  split; simpl; constructor.
Qed.

Lemma run_invariant (saves : list Save) : forall s,
  Forall timely saves -> invariant s -> invariant (run saves s).
Proof.
  unfold run. induction saves as [|x saves IH]; intros s Ht Hs; simpl; [exact Hs|].
  inversion Ht as [|x' l Hx Hrest]; subst.
  apply IH; [exact Hrest|].
  now apply (save_step (saved x) Hs Hx).
Qed.

Lemma NoDup_map_eq (A B : Type) (f : A -> B) (l : list A) (x y : A) :
  NoDup (map f l) -> In x l -> In y l -> f x = f y -> x = y.
Proof.
  induction l as [|z l IH]; simpl; intros Hnd Hx Hy E; [contradiction|].
  inversion Hnd as [|b l' Hz Hl]; subst.
  destruct Hx as [->|Hx], Hy as [->|Hy].
  - reflexivity.
  - exfalso. apply Hz. rewrite E. now apply in_map.
  - exfalso. apply Hz. rewrite <- E. now apply in_map.
  - now apply IH.
Qed.

(** Whatever answers are saved, starting from the empty store, the store
    holds at most one review per subject and question hash, and every
    review in it has been attempted at least once, has a run of correct
    answers between zero and the number of attempts, records a last answer
    as correct exactly when that run is not zero, carries the hash of its
    own question, and is due no earlier than one day after its last
    attempt. *)
Theorem reviews_stay_consistent (saves : list Save) :
  Forall timely saves ->
  let s := run saves (ObjectStore.empty Review) in
  (forall id1 r1 id2 r2,
     In (id1, r1) (ObjectStore.rows s) -> In (id2, r2) (ObjectStore.rows s) ->
     subjectId (answer r1) = subjectId (answer r2) ->
     questionHash r1 = questionHash r2 ->
     id1 = id2 /\ r1 = r2) /\
  (forall id r,
     In (id, r) (ObjectStore.rows s) ->
     1 <= totalAttempts r /\
     0 <= correctCount r <= totalAttempts r /\
     lastCorrect r = (0 <? correctCount r) /\
     questionHash r = _simpleHash (question (answer r)) /\
     lastAttempt r + DAY <= nextReview r).
Proof.
  intros Ht s.
  destruct (run_invariant Ht invariant_empty) as (_ & _ & Hnd & Hok).
  fold s in Hnd, Hok. split.
  - intros id1 r1 id2 r2 H1 H2 Hs Hh.
    assert (E : (id1, r1) = (id2, r2)).
    { eapply NoDup_map_eq; [exact Hnd|exact H1|exact H2|].
      unfold review_key. simpl. now rewrite Hs, Hh. }
    injection E as -> ->. split; reflexivity.
  - intros id r Hin. rewrite Forall_forall in Hok. exact (Hok _ Hin).
Qed.

Lemma reviews_stay_consistent_witness :
  1 <= totalAttempts (mkReview (answered "net" "Aa" true) 2112 0 2 20 false (21 + DAY) 10) /\
  0 <= 0 <= 2 /\
  false = (0 <? 0) /\
  2112 = _simpleHash (lit "Aa") /\
  20 + DAY <= 21 + DAY.
Proof.
  apply (proj2 (@reviews_stay_consistent
                  [mkSave 10 11 (answered "net" "Aa" true);
                   mkSave 20 21 (answered "net" "Aa" false)]
                  ltac:(repeat constructor; unfold timely; simpl; lia))
           1 (mkReview (answered "net" "Aa" true) 2112 0 2 20 false (21 + DAY) 10)).
  vm_compute. left. reflexivity.
Defined.

(** Saving an answer, in any store reached from the empty one.  The
    review of that question is afterwards found under the key the call
    returns.  A wrong answer sets its run of correct answers to zero and
    makes it due one day after the scheduling time, whatever its history; a
    correct answer lengthens the run by one (starting at one for a new
    question) and makes it due at least three days later.  A question seen
    before keeps the stored answer object and creation time of its first
    save, and no record is added for it. *)
Theorem answer_schedules_next_review
    (saves : list Save) (now later : Z) (a : Answer) :
  Forall timely saves -> now <= later ->
  let s := run saves (ObjectStore.empty Review) in
  let hash := _simpleHash (question a) in
  let id := fst (saveQuizReview now later a s) in
  let s' := snd (saveQuizReview now later a s) in
  exists row,
    ObjectStore.get id s' = Some row /\
    existingForSubject (subjectId a) hash s' = Some (id, row) /\
    lastAttempt row = now /\
    (isCorrect a = false ->
       correctCount row = 0 /\ nextReview row = later + DAY) /\
    (isCorrect a = true ->
       1 <= correctCount row /\ later + 3 * DAY <= nextReview row) /\
    (forall id0 old,
       existingForSubject (subjectId a) hash s = Some (id0, old) ->
       id = id0 /\ answer row = answer old /\ createdAt row = createdAt old /\
       totalAttempts row = totalAttempts old + 1 /\
       (isCorrect a = true -> correctCount row = correctCount old + 1) /\
       List.length (ObjectStore.rows s') = List.length (ObjectStore.rows s)) /\
    (existingForSubject (subjectId a) hash s = None ->
       answer row = a /\ createdAt row = now /\ totalAttempts row = 1 /\
       List.length (ObjectStore.rows s') = S (List.length (ObjectStore.rows s))).
Proof.
  intros Ht Hclock s hash id s'.
  pose proof (run_invariant Ht invariant_empty) as Hinv. fold s in Hinv.
  destruct (save_step a Hinv Hclock) as (Hinv' & row & Hex' & Hget & Hla & Hnr & Hcc & Hcase).
  fold hash in Hex', Hcc, Hcase. fold id in Hex', Hget, Hcase. fold s' in Hex', Hget, Hcase.
  exists row. split; [exact Hget|]. split; [exact Hex'|]. split; [exact Hla|].
  assert (Hold : forall id0 old,
            existingForSubject (subjectId a) hash s = Some (id0, old) ->
            0 <= correctCount old).
  { intros id0 old Hex. unfold hash in Hex. rewrite existing_is_find in Hex.
    apply find_some in Hex. destruct Hex as [Hin _].
    destruct Hinv as (_ & _ & _ & Hok). rewrite Forall_forall in Hok.
    apply Hok in Hin. simpl in Hin. unfold row_ok in Hin. lia. }
  split; [|split; [|split]].
  - intros Hwrong. rewrite Hwrong in Hcc. split; [exact Hcc|].
    rewrite Hnr, Hcc. reflexivity.
  - intros Hright. rewrite Hright in Hcc.
    assert (H1 : 1 <= correctCount row).
    { destruct (existingForSubject (subjectId a) hash s) as [[id0 old]|] eqn:Hex.
      - pose proof (Hold id0 old eq_refl). lia.
      - lia. }
    split; [exact H1|]. rewrite Hnr.
    unfold _calculateNextReview, DAY.
    repeat match goal with
           | |- context [?x <=? ?y] => destruct (Z.leb_spec x y)
           | |- context [?x =? ?y] => destruct (Z.eqb_spec x y)
           end; lia.
  - intros id0 old Hex. rewrite Hex in Hcase, Hcc.
    destruct Hcase as (H1 & H2 & H3 & H4 & H5).
    repeat split; try assumption.
    intros Hright. now rewrite Hright in Hcc.
  - intros Hex. rewrite Hex in Hcase. tauto.
Qed.

Lemma answer_schedules_next_review_witness :
  exists row,
    ObjectStore.get 1
      (snd (saveQuizReview 20 21 (answered "net" "What is TCP?" false)
              (run [mkSave 10 11 (answered "net" "What is TCP?" true)]
                   (ObjectStore.empty Review))))
    = Some row /\
    correctCount row = 0 /\ nextReview row = 21 + DAY.
Proof.
  destruct (@answer_schedules_next_review
              [mkSave 10 11 (answered "net" "What is TCP?" true)]
              20 21 (answered "net" "What is TCP?" false))
    as (row & Hget & _ & _ & Hwrong & _).
  - repeat constructor. unfold timely. simpl. lia.
  - lia.
  - exists row. split; [exact Hget|]. apply Hwrong. reflexivity.
Defined.

(** Reviews are told apart by the hash of the question alone.  When two
    different questions of one subject have the same hash, the second is
    not stored: saving it counts as one more attempt at the first, under
    the first one's key, and the stored question text stays the first
    one's. *)
Theorem colliding_questions_share_a_review
    (saves : list Save) (now1 later1 now2 later2 : Z) (a1 a2 : Answer) :
  Forall timely saves -> now1 <= later1 -> now2 <= later2 ->
  subjectId a1 = subjectId a2 ->
  _simpleHash (question a1) = _simpleHash (question a2) ->
  let s := run saves (ObjectStore.empty Review) in
  let s1 := snd (saveQuizReview now1 later1 a1 s) in
  let id1 := fst (saveQuizReview now1 later1 a1 s) in
  let s2 := snd (saveQuizReview now2 later2 a2 s1) in
  let id2 := fst (saveQuizReview now2 later2 a2 s1) in
  id2 = id1 /\
  List.length (ObjectStore.rows s2) = List.length (ObjectStore.rows s1) /\
  exists row1 row2,
    ObjectStore.get id1 s1 = Some row1 /\
    ObjectStore.get id1 s2 = Some row2 /\
    answer row2 = answer row1 /\
    totalAttempts row2 = totalAttempts row1 + 1.
Proof.
  intros Ht Hc1 Hc2 Hsubj Hhash s s1 id1 s2 id2.
  pose proof (run_invariant Ht invariant_empty) as Hinv. fold s in Hinv.
  destruct (save_step a1 Hinv Hc1) as (Hinv1 & row1 & Hex1 & Hget1 & _).
  fold s1 in Hinv1, Hex1, Hget1. fold id1 in Hex1, Hget1.
  destruct (save_step a2 Hinv1 Hc2) as (_ & row2 & _ & Hget2 & _ & _ & _ & Hcase).
  fold s2 in Hget2, Hcase. fold id2 in Hget2, Hcase.
  rewrite <- Hsubj, <- Hhash, Hex1 in Hcase.
  destruct Hcase as (Hid & Hans & _ & Hta & Hlen).
  split; [exact Hid|]. split; [exact Hlen|].
  exists row1, row2. rewrite Hid in Hget2. repeat split; assumption.
Qed.

Lemma colliding_questions_share_a_review_witness :
  fst (saveQuizReview 20 21 (answered "net" "BB" true)
         (snd (saveQuizReview 10 11 (answered "net" "Aa" true)
                 (run [] (ObjectStore.empty Review)))))
  = fst (saveQuizReview 10 11 (answered "net" "Aa" true)
           (run [] (ObjectStore.empty Review))).
Proof.
  apply (@colliding_questions_share_a_review [] 10 11 20 21
           (answered "net" "Aa" true) (answered "net" "BB" true)).
  - constructor.
  - lia.
  - lia.
  - reflexivity.
  - vm_compute. reflexivity.
Defined.

(** *** Reviews that are due *)

Lemma due_review_members (now : Z) (subject : jsstring) (limit : Z) (s : store) :
  forall r, In r (getDueReviews now subject limit s) ->
    In r (ObjectStore.rows s) /\
    subjectId (answer (snd r)) = subject /\
    nextReview (snd r) <= now.
Proof.
  intros r Hr.
  destruct (slice_to_firstn limit
              (JsArray.sort by_due_time (due_now now subject s))) as (n & Hn & _).
  change (getDueReviews now subject limit s)
    with (JsArray.slice_to limit
            (JsArray.sort by_due_time (due_now now subject s))) in Hr.
  rewrite Hn in Hr. apply in_firstn in Hr.
  apply (Permutation_in _ (sort_perm by_due_time (due_now now subject s))) in Hr.
  unfold due_now, ObjectStore.getAllByIndex in Hr.
  apply filter_In in Hr. destruct Hr as [Hr Hdue].
  apply filter_In in Hr. destruct Hr as [Hr Hsubj].
  split; [exact Hr|]. split.
  - now apply JsStringFacts.eqb_eq.
  - now apply Z.leb_le.
Qed.

(** [getDueReviews] returns reviews of the subject that are in the store
    and due, ordered by due time, earliest first, and they are the ones due
    earliest: together with some remainder they make up all due reviews of
    the subject, and nothing in the remainder is due before anything
    returned.  For a limit that is not negative their number is the limit,
    or the number of due reviews if that is smaller. *)
Theorem due_reviews_are_the_earliest
    (now : Z) (subject : jsstring) (limit : Z) (s : store) :
  let result := getDueReviews now subject limit s in
  (forall r, In r result ->
     In r (ObjectStore.rows s) /\
     subjectId (answer (snd r)) = subject /\
     nextReview (snd r) <= now) /\
  StronglySorted (fun a b => nextReview (snd a) <= nextReview (snd b)) result /\
  (exists rest,
     Permutation (result ++ rest) (due_now now subject s) /\
     forall x y, In x result -> In y rest ->
       nextReview (snd x) <= nextReview (snd y)) /\
  (0 <= limit ->
     List.length result
     = Nat.min (Z.to_nat limit) (List.length (due_now now subject s))).
Proof.
  intros result.
  assert (Htotal : forall a b, by_due_time a b <= 0 \/ by_due_time b a <= 0)
    by (intros a b; unfold by_due_time; lia).
  assert (Htrans : forall a b c, by_due_time a b <= 0 -> by_due_time b c <= 0 ->
                     by_due_time a c <= 0)
    by (intros a b c; unfold by_due_time; lia).
  set (sorted := JsArray.sort by_due_time (due_now now subject s)).
  assert (Hperm : Permutation sorted (due_now now subject s))
    by apply sort_perm.
  assert (Hsorted : StronglySorted (fun a b => by_due_time a b <= 0) sorted)
    by (apply sort_sorted; assumption).
  destruct (slice_to_firstn limit sorted) as (n & Hn & Hlimit).
  assert (Hresult : result = firstn n sorted) by exact Hn.
  split; [|split; [|split]].
  - apply due_review_members.
  - rewrite Hresult.
    apply firstn_sorted with (n := n) in Hsorted.
    eapply sorted_weaken; [|exact Hsorted].
    intros a b. unfold by_due_time. lia.
  - exists (skipn n sorted). rewrite Hresult. split.
    + now rewrite firstn_skipn.
    + intros x y Hx Hy.
      pose proof (@sorted_split _ by_due_time n sorted Hsorted x y Hx Hy) as H.
      unfold by_due_time in H. lia.
  - intros Hlimit0. rewrite Hresult, (Hlimit Hlimit0), length_firstn.
    now rewrite (Permutation_length Hperm).
Qed.

(** A review that has just been saved is not due until a day has passed
    since it was scheduled: before that, [getDueReviews] does not return
    it, for any subject and any limit. *)
Theorem saved_review_is_not_due_for_a_day
    (saves : list Save) (now later : Z) (a : Answer)
    (t : Z) (subject : jsstring) (limit : Z) :
  Forall timely saves -> now <= later ->
  t < later + DAY ->
  let s := run saves (ObjectStore.empty Review) in
  let id := fst (saveQuizReview now later a s) in
  let s' := snd (saveQuizReview now later a s) in
  forall r, ~ In (id, r) (getDueReviews t subject limit s').
Proof.
  intros Ht Hclock Hearly s id s' r Hin.
  pose proof (run_invariant Ht invariant_empty) as Hinv. fold s in Hinv.
  destruct (save_step a Hinv Hclock) as (Hinv' & row & _ & Hget & _ & Hnr & _).
  fold s' in Hinv', Hget. fold id in Hget.
  destruct (due_review_members _ _ _ _ _ Hin) as (Hrows & _ & Hdue). simpl in Hdue.
  destruct Hinv' as (Hwf & _).
  rewrite (@get_in _ id r s' Hwf Hrows) in Hget. injection Hget as ->.
  pose proof (next_review_bounds later) as Hbound.
  specialize (Hbound (correctCount row)). lia.
Qed.

Lemma saved_review_is_not_due_for_a_day_witness :
  ~ In (1, mkReview (answered "net" "Aa" false) 2112 0 1 10 false (11 + DAY) 10)
       (getDueReviews (11 + DAY - 1) (lit "net") 10
          (snd (saveQuizReview 10 11 (answered "net" "Aa" false)
                  (run [] (ObjectStore.empty Review))))).
Proof.
  apply (@saved_review_is_not_due_for_a_day [] 10 11 (answered "net" "Aa" false)
           (11 + DAY - 1) (lit "net") 10).
  - constructor.
  - lia.
  - lia.
Defined.

End QuizTheory.

(* ================================================================== *)
(** ** Tool history *)
(* ================================================================== *)

Module ToolTheory.
Import ToolHistory JsArrayFacts.

Lemma counted_cons (c : option Count) (e : Z * Usage) (l : list (Z * Usage)) :
  counted c (e :: l)
  = counted (Some (let start := match c with Some x => x | None => mkCount 0 0 end in
                   mkCount (count start + 1)
                           (if timestamp (snd e) >? lastUsed start
                            then timestamp (snd e) else lastUsed start))) l.
Proof.
  set (start := match c with Some x => x | None => mkCount 0 0 end).
  assert (Hmax : Z.max (lastUsed start) (timestamp (snd e))
                 = if timestamp (snd e) >? lastUsed start
                   then timestamp (snd e) else lastUsed start)
    by (destruct (Z.gtb_spec (timestamp (snd e)) (lastUsed start)); lia).
  destruct l as [|e' l]; unfold counted; fold start;
    cbn [count lastUsed map fold_left]; rewrite Hmax; f_equal; f_equal;
    cbn [List.length]; lia.
Qed.

Lemma count_loop (id : jsstring) (l : list (Z * Usage)) (acc : JsMap.t Count) :
  inherited id = false ->
  JsMap.get id (fold_left count_entry l acc)
  = counted (JsMap.get id acc) (of_tool id l).
Proof.
  intros Hid. revert acc. induction l as [|e l IH]; intros acc; [reflexivity|].
  cbn [fold_left of_tool filter]. rewrite IH. fold (of_tool id l).
  unfold count_entry.
  destruct (JsString.eqb (toolId (snd e)) id) eqn:E.
  - apply JsStringFacts.eqb_eq in E. rewrite E, Hid.
    rewrite JsMapFacts.get_set_same, counted_cons. reflexivity.
  - apply JsStringFacts.eqb_neq in E.
    destruct (inherited (toolId (snd e))); [reflexivity|].
    rewrite JsMapFacts.get_set_other by congruence. reflexivity.
Qed.

Lemma count_loop_inherited (id : jsstring) (l : list (Z * Usage)) (acc : JsMap.t Count) :
  inherited id = true ->
  JsMap.get id (fold_left count_entry l acc) = JsMap.get id acc.
Proof.
  intros Hid. revert acc. induction l as [|e l IH]; intros acc; [reflexivity|].
  cbn [fold_left]. rewrite IH. unfold count_entry.
  destruct (inherited (toolId (snd e))) eqn:E; [reflexivity|].
  apply JsMapFacts.get_set_other. intros ->. congruence.
Qed.

(** [getToolUsageCounts] has, for every tool id that is not the name of a
    property inherited from [Object.prototype], an entry exactly when the
    subject has a usage of that tool, with the number of these usages as
    [count] and the largest of their timestamps (and 0) as [lastUsed].
    Under an inherited name such as [constructor] or [toString] the object
    returned has no own entry, however often such a tool was used. *)
Theorem usage_counts_summarise_each_tool
    (subject id : jsstring) (s : store) :
  JsMap.get id (getToolUsageCounts subject s)
  = if inherited id then None
    else summary (of_tool id (of_subject subject s)).
Proof.
  unfold getToolUsageCounts.
  destruct (inherited id) eqn:Hid.
  - now rewrite count_loop_inherited.
  - rewrite count_loop by exact Hid. cbn [JsMap.get JsMap.empty].
    unfold counted, summary.
    destruct (of_tool id (of_subject subject s)); [reflexivity|].
    cbn [count lastUsed]. f_equal.
Qed.

(** The newest [limit] of a list of usages: what [sort] and [slice] of
    [getRecentTools] and [getAllToolHistory] compute. *)
Lemma newest_slice (limit : Z) (l : list (Z * Usage)) :
  let result := JsArray.slice_to limit (JsArray.sort newest_first l) in
  StronglySorted (fun a b => timestamp (snd b) <= timestamp (snd a)) result /\
  (exists rest,
     Permutation (result ++ rest) l /\
     forall x y, In x result -> In y rest ->
       timestamp (snd y) <= timestamp (snd x)) /\
  (0 <= limit ->
     List.length result = Nat.min (Z.to_nat limit) (List.length l)).
Proof.
  intros result.
  assert (Htotal : forall a b, newest_first a b <= 0 \/ newest_first b a <= 0)
    by (intros a b; unfold newest_first; lia).
  assert (Htrans : forall a b c, newest_first a b <= 0 -> newest_first b c <= 0 ->
                     newest_first a c <= 0)
    by (intros a b c; unfold newest_first; lia).
  set (sorted := JsArray.sort newest_first l).
  assert (Hperm : Permutation sorted l) by apply sort_perm.
  assert (Hsorted : StronglySorted (fun a b => newest_first a b <= 0) sorted)
    by (apply sort_sorted; assumption).
  destruct (slice_to_firstn limit sorted) as (n & Hn & Hlimit).
  assert (Hresult : result = firstn n sorted) by exact Hn.
  split; [|split].
  - rewrite Hresult.
    apply firstn_sorted with (n := n) in Hsorted.
    eapply sorted_weaken; [|exact Hsorted].
    intros a b. unfold newest_first. lia.
  - exists (skipn n sorted). rewrite Hresult. split.
    + now rewrite firstn_skipn.
    + intros x y Hx Hy.
      pose proof (@sorted_split _ newest_first n sorted Hsorted x y Hx Hy) as H.
      unfold newest_first in H. lia.
  - intros Hlimit0. rewrite Hresult, (Hlimit Hlimit0), length_firstn.
    now rewrite (Permutation_length Hperm).
Qed.

(** [getRecentTools] returns usages of the subject, newest first, and they
    are the newest ones: with some remainder they make up all usages of the
    subject, and nothing in the remainder is newer than anything returned.
    For a limit that is not negative their number is the limit, or the
    number of usages of the subject if that is smaller.
    [getAllToolHistory] does the same over the usages of all subjects, and
    the number of these is [getTotalToolExecutions]. *)
Theorem recent_tools_are_the_newest
    (subject : jsstring) (limit : Z) (s : store) :
  let recent := getRecentTools subject limit s in
  let history := getAllToolHistory limit s in
  (forall e, In e recent ->
     In e (ObjectStore.rows s) /\ subjectId (snd e) = subject) /\
  StronglySorted (fun a b => timestamp (snd b) <= timestamp (snd a)) recent /\
  (exists rest,
     Permutation (recent ++ rest) (of_subject subject s) /\
     forall x y, In x recent -> In y rest ->
       timestamp (snd y) <= timestamp (snd x)) /\
  StronglySorted (fun a b => timestamp (snd b) <= timestamp (snd a)) history /\
  (exists rest,
     Permutation (history ++ rest) (ObjectStore.rows s) /\
     forall x y, In x history -> In y rest ->
       timestamp (snd y) <= timestamp (snd x)) /\
  (0 <= limit ->
     List.length recent
     = Nat.min (Z.to_nat limit) (List.length (of_subject subject s)) /\
     List.length history
     = Nat.min (Z.to_nat limit) (getTotalToolExecutions s)).
Proof.
  intros recent history.
  destruct (newest_slice limit (of_subject subject s)) as (Hs1 & Hr1 & Hl1).
  destruct (newest_slice limit (ObjectStore.getAll s)) as (Hs2 & Hr2 & Hl2).
  split; [|split; [exact Hs1|split; [exact Hr1|split; [exact Hs2|split; [exact Hr2|]]]]].
  - intros e He. destruct Hr1 as (rest & Hperm & _).
    assert (Hin : In e (of_subject subject s)).
    { apply (Permutation_in _ Hperm). apply in_or_app. now left. }
    unfold of_subject, ObjectStore.getAllByIndex in Hin.
    apply filter_In in Hin. destruct Hin as [Hin Hsub].
    split; [exact Hin|]. now apply JsStringFacts.eqb_eq.
  - intros H0. split; [now apply Hl1|now apply Hl2].
Qed.

End ToolTheory.

(* ================================================================== *)
(** ** Settings and global statistics *)
(* ================================================================== *)

Module StatsTheory.
Import Json GlobalStats.

(** [setGlobalStat] followed by [getGlobalStat] of the same key gives the
    value stored, unless that value is [null] or [undefined], in which
    case it gives the default of the read; so a stored [false], [0] or
    empty string is read back as stored.  A read of any other key is what
    it was before the write.  [setSetting] and [getSetting] behave the
    same. *)
Theorem stored_value_is_read_back_unless_nullish
    (key : jsstring) (value : option json) (defaultValue : json) (s : store) :
  let read_back :=
    match value with
    | None => defaultValue
    | Some JNull => defaultValue
    | Some v => v
    end in
  getGlobalStat key defaultValue (setGlobalStat key value s) = read_back /\
  getSetting key defaultValue (setSetting key value s) = read_back /\
  forall other,
    other <> key ->
    getGlobalStat other defaultValue (setGlobalStat key value s)
    = getGlobalStat other defaultValue s /\
    getSetting other defaultValue (setSetting key value s)
    = getSetting other defaultValue s.
Proof.
  intros read_back.
  unfold getGlobalStat, setGlobalStat, getSetting, setSetting.
  rewrite JsMapFacts.get_set_same.
  split; [|split].
  - subst read_back. destruct value as [[]|]; reflexivity.
  - subst read_back. destruct value as [[]|]; reflexivity.
  - intros other Hne. now rewrite JsMapFacts.get_set_other.
Qed.

Lemma includes_strings (topic : jsstring) (l : list jsstring) :
  includes topic (map JString l) = true <-> In topic l.
Proof.
  unfold includes. rewrite existsb_exists. split.
  - intros (e & Hin & He). apply in_map_iff in Hin.
    destruct Hin as (t & <- & Hin). apply JsStringFacts.eqb_eq in He. now subst.
  - intros Hin. exists (JString topic). split; [now apply in_map|].
    apply JsStringFacts.eqb_refl.
Qed.

Lemma NoDup_add_last (A : Type) (l : list A) (x : A) :
  NoDup l -> ~ In x l -> NoDup (l ++ [x]).
Proof.
  intros Hl Hx. apply NoDup_app; [exact Hl|repeat constructor; intros []|].
  intros y Hy [<-|[]]. contradiction.
Qed.

(** One call of [addLearnedTopic] on a store that holds the distinct
    topics [l]. *)
Lemma learn_step (topic : jsstring) (l : list jsstring) (s : store) :
  getGlobalStat (lit "topicsLearned") (JArray []) s = JArray (map JString l) ->
  NoDup l ->
  exists l' s',
    addLearnedTopic topic s = Some (List.length l', s') /\
    getGlobalStat (lit "topicsLearned") (JArray []) s' = JArray (map JString l') /\
    NoDup l' /\
    l' = (if in_dec (list_eq_dec N.eq_dec) topic l then l else l ++ [topic]) /\
    forall other, other <> lit "topicsLearned" ->
      JsMap.get other s' = JsMap.get other s.
Proof.
  intros Hs Hl. unfold addLearnedTopic. rewrite Hs.
  destruct (in_dec (list_eq_dec N.eq_dec) topic l) as [Hin|Hnot].
  - exists l, s. apply includes_strings in Hin. rewrite Hin.
    rewrite length_map. repeat split; assumption.
  - exists (l ++ [topic]), (setGlobalStat (lit "topicsLearned")
                             (Some (JArray (map JString l ++ [JString topic]))) s).
    destruct (includes topic (map JString l)) eqn:E;
      [apply includes_strings in E; contradiction|].
    rewrite !length_app, length_map. repeat split.
    + unfold getGlobalStat, setGlobalStat. rewrite JsMapFacts.get_set_same.
      cbn [value_or]. now rewrite map_app.
    + now apply NoDup_add_last.
    + intros other Hne. unfold setGlobalStat. now apply JsMapFacts.get_set_other.
Qed.

(** Starting from a store whose [topicsLearned] holds distinct topics (or
    nothing at all), any sequence of [addLearnedTopic] calls succeeds and
    leaves distinct topics: those stored before and those added, and no
    other.  Adding one of them again then changes nothing and returns
    their number.  No other key of the store is touched. *)
Theorem learned_topics_stay_distinct
    (topics l0 : list jsstring) (s : store) :
  getGlobalStat (lit "topicsLearned") (JArray []) s = JArray (map JString l0) ->
  NoDup l0 ->
  exists l s',
    learn topics s = Some s' /\
    getGlobalStat (lit "topicsLearned") (JArray []) s' = JArray (map JString l) /\
    NoDup l /\
    (forall t, In t l <-> In t l0 \/ In t topics) /\
    (forall t, In t l -> addLearnedTopic t s' = Some (List.length l, s')) /\
    (forall other, other <> lit "topicsLearned" ->
       JsMap.get other s' = JsMap.get other s).
Proof.
  revert l0 s. induction topics as [|t topics IH]; intros l0 s Hs Hl.
  - exists l0, s. cbn [learn]. repeat split; try assumption; try tauto.
    + intros [H|[]]; exact H.
    + intros t Ht. unfold addLearnedTopic. rewrite Hs.
      apply includes_strings in Ht. rewrite Ht. now rewrite length_map.
  - destruct (@learn_step t l0 s Hs Hl) as (l1 & s1 & Hadd & Hs1 & Hl1 & Hl1eq & Hother1).
    destruct (IH l1 s1 Hs1 Hl1) as (l & s' & Hrun & Hs' & Hnd & Hin & Hidem & Hother).
    exists l, s'. cbn [learn]. rewrite Hadd.
    split; [exact Hrun|]. split; [exact Hs'|]. split; [exact Hnd|].
    split; [|split; [exact Hidem|]].
    + intros x. rewrite Hin. rewrite Hl1eq.
      destruct (in_dec (list_eq_dec N.eq_dec) t l0) as [Ht|Ht].
      * cbn [In]. split; [tauto|]. intros [H|[<-|H]]; tauto.
      * rewrite in_app_iff. cbn [In]. split; [|tauto].
        intros [[H|[<-|[]]]|H]; tauto.
    + intros other Hne. rewrite Hother by exact Hne. now apply Hother1.
Qed.

Lemma learned_topics_stay_distinct_witness :
  exists l s',
    learn [lit "tcp"; lit "udp"; lit "tcp"] (JsMap.empty (option json)) = Some s' /\
    getGlobalStat (lit "topicsLearned") (JArray []) s' = JArray (map JString l) /\
    NoDup l /\
    (forall t, In t l <-> In t [] \/ In t [lit "tcp"; lit "udp"; lit "tcp"]) /\
    (forall t, In t l -> addLearnedTopic t s' = Some (List.length l, s')) /\
    (forall other, other <> lit "topicsLearned" ->
       JsMap.get other s' = JsMap.get other (JsMap.empty (option json))).
Proof.
  apply (@learned_topics_stay_distinct
           [lit "tcp"; lit "udp"; lit "tcp"] [] (JsMap.empty (option json))).
  - reflexivity.
  - constructor.
Defined.

End StatsTheory.

(* ================================================================== *)
(** ** Per-subject analytics *)
(* ================================================================== *)

Module AnalyticsTheory.
Import Analytics.

Lemma update_existing (scoredAt accessedAt : Z) (subject : jsstring)
    (u : Updates) (s : store) (r : Record_) :
  getAnalytics subject s = Some r ->
  updateAnalytics scoredAt accessedAt subject u s
  = Some (JsMap.set subject (merge scoredAt accessedAt r u) s).
Proof. intros H. unfold updateAnalytics. now rewrite H. Qed.

Lemma update_missing (scoredAt accessedAt : Z) (subject : jsstring)
    (u : Updates) (s : store) :
  getAnalytics subject s = None -> reads_existing u = true ->
  updateAnalytics scoredAt accessedAt subject u s = None.
Proof. intros H Hu. unfold updateAnalytics. now rewrite H, Hu. Qed.

(** The record of [subject] after one call of the sequence. *)
Lemma run_step_other (c : Call) (subject : jsstring) (s : store) :
  c_subject c <> subject ->
  getAnalytics subject
    (match updateAnalytics (c_scoredAt c) (c_accessedAt c)
                           (c_subject c) (c_updates c) s with
     | Some s' => s'
     | None => s
     end)
  = getAnalytics subject s.
Proof.
  intros Hne. unfold updateAnalytics.
  destruct (getAnalytics (c_subject c) s).
  - unfold getAnalytics. apply JsMapFacts.get_set_other. congruence.
  - destruct (reads_existing (c_updates c)); [reflexivity|].
    unfold getAnalytics. apply JsMapFacts.get_set_other. congruence.
Qed.

(** A subject without a record never gets one from updates that carry
    study time, a quiz score, a session or a weak topic: [getAnalytics]
    resolves with [undefined] for it, its default object being behind a
    promise that is always truthy, and [updateAnalytics] then rejects
    before it writes.  The updates that [endSession] and [recordQuiz] send
    are of this kind, so from an empty store they record nothing. *)
Theorem updates_never_create_the_first_record
    (calls : list Call) (subject : jsstring) (s : store) :
  Forall (fun c => reads_existing (c_updates c) = true) calls ->
  getAnalytics subject s = None ->
  getAnalytics subject (run calls s) = None.
Proof.
  unfold run. revert s. induction calls as [|c calls IH]; intros s Hall Hs;
    [exact Hs|].
  inversion Hall as [|c' calls' Hc Hrest]; subst.
  cbn [fold_left]. apply IH; [exact Hrest|].
  destruct (JsString.eqb (c_subject c) subject) eqn:E.
  - apply JsStringFacts.eqb_eq in E. rewrite E.
    rewrite update_missing by assumption. exact Hs.
  - apply JsStringFacts.eqb_neq in E. rewrite run_step_other by exact E. exact Hs.
Qed.

Lemma updates_never_create_the_first_record_witness :
  getAnalytics (lit "networks")
    (run [mkCall 10 11 (lit "networks")
            (session_update 5 (mkStudySession 10 5 2));
          mkCall 20 21 (lit "networks") (quiz_update 7 10);
          mkCall 30 31 (lit "networks") (weak_topic_update (lit "subnetting"))]
         (JsMap.empty Record_))
  = None.
Proof.
  apply (@updates_never_create_the_first_record
           [mkCall 10 11 (lit "networks")
              (session_update 5 (mkStudySession 10 5 2));
            mkCall 20 21 (lit "networks") (quiz_update 7 10);
            mkCall 30 31 (lit "networks") (weak_topic_update (lit "subnetting"))]
           (lit "networks") (JsMap.empty Record_)).
  - repeat constructor.
  - reflexivity.
Defined.

Lemma last_of_app (A : Type) (a b : list A) (d : A) :
  b <> [] -> last (a ++ b) d = last b d.
Proof.
  intros Hb. induction a as [|x a IH]; [reflexivity|].
  cbn [app last]. rewrite IH.
  destruct (a ++ b) eqn:E; [|reflexivity].
  apply app_eq_nil in E. destruct E as [_ E]. contradiction.
Qed.

Lemma slice_last_suffix (A : Type) (n : nat) (l : list A) :
  (exists dropped, l = dropped ++ JsArray.slice_last n l) /\
  List.length (JsArray.slice_last n l) = Nat.min n (List.length l).
Proof.
  unfold JsArray.slice_last. split.
  - exists (firstn (List.length l - n) l). now rewrite firstn_skipn.
  - rewrite length_skipn. lia.
Qed.

(** An update with a session, for a subject that has a record, stores the
    sessions the record had followed by the new one, cut down to the last
    hundred: what is stored is a suffix of that list, ends with the new
    session and has at most a hundred elements. *)
Theorem sessions_keep_the_last_hundred
    (scoredAt accessedAt : Z) (subject : jsstring) (u : Updates)
    (x : StudySession) (s : store) (r : Record_) :
  getAnalytics subject s = Some r ->
  u_session u = Some x ->
  exists s' r' kept,
    updateAnalytics scoredAt accessedAt subject u s = Some s' /\
    getAnalytics subject s' = Some r' /\
    sessions r' = Some kept /\
    (exists dropped, list_or_empty (sessions r) ++ [x] = dropped ++ kept) /\
    last kept x = x /\
    List.length kept
    = Nat.min 100 (S (List.length (list_or_empty (sessions r)))).
Proof.
  intros Hr Hx.
  exists (JsMap.set subject (merge scoredAt accessedAt r u) s),
         (merge scoredAt accessedAt r u).
  set (all := list_or_empty (sessions r) ++ [x]).
  assert (Hlen : List.length all = S (List.length (list_or_empty (sessions r))))
    by (unfold all; rewrite length_app; simpl; lia).
  exists (if (100 <? Z.of_nat (List.length all))
          then JsArray.slice_last 100 all else all).
  split; [now apply update_existing|].
  split; [apply JsMapFacts.get_set_same|].
  split; [unfold merge; cbn [sessions]; now rewrite Hx|].
  destruct (slice_last_suffix 100 all) as ((dropped & Hdrop) & Hcut).
  destruct (Z.ltb_spec 100 (Z.of_nat (List.length all))) as [Hlong|Hshort].
  - split; [now exists dropped|]. split.
    + assert (Hne : JsArray.slice_last 100 all <> []).
      { intros E. rewrite E in Hcut. cbn [List.length] in Hcut. lia. }
      pose proof (f_equal (fun l => last l x) Hdrop) as Hlast. cbv beta in Hlast.
      rewrite (@last_of_app _ dropped _ x Hne) in Hlast.
      unfold all in Hlast at 1. rewrite last_last in Hlast. now symmetry.
    + rewrite Hcut, <- Hlen. reflexivity.
  - split; [now exists []|]. split.
    + unfold all. apply last_last.
    + rewrite Hlen in *. lia.
Qed.

Lemma sessions_keep_the_last_hundred_witness :
  exists s' r' kept,
    updateAnalytics 10 11 (lit "networks")
      (session_update 5 (mkStudySession 10 5 2))
      (JsMap.set (lit "networks") (mkRecord None None None None (Some 1))
                 (JsMap.empty Record_)) = Some s' /\
    getAnalytics (lit "networks") s' = Some r' /\
    sessions r' = Some kept /\
    (exists dropped,
       list_or_empty (sessions (mkRecord None None None None (Some 1)))
       ++ [mkStudySession 10 5 2] = dropped ++ kept) /\
    last kept (mkStudySession 10 5 2) = mkStudySession 10 5 2 /\
    List.length kept
    = Nat.min 100
        (S (List.length
              (list_or_empty (sessions (mkRecord None None None None (Some 1)))))).
Proof.
  apply (@sessions_keep_the_last_hundred 10 11 (lit "networks")
           (session_update 5 (mkStudySession 10 5 2))
           (mkStudySession 10 5 2)
           (JsMap.set (lit "networks") (mkRecord None None None None (Some 1))
                      (JsMap.empty Record_))
           (mkRecord None None None None (Some 1))).
  - reflexivity.
  - reflexivity.
Defined.

(** *** Weak topics *)

Lemma existsb_eqb (x : jsstring) (l : list jsstring) :
  existsb (JsString.eqb x) l = true <-> In x l.
Proof.
  rewrite existsb_exists. split.
  - intros (y & Hy & E). apply JsStringFacts.eqb_eq in E. now subst.
  - intros H. exists x. split; [exact H|apply JsStringFacts.eqb_refl].
Qed.

Lemma unique_in (l seen : list jsstring) (y : jsstring) :
  In y (unique seen l) <-> In y l /\ ~ In y seen.
Proof.
  revert seen. induction l as [|x l IH]; intros seen; cbn [unique In]; [tauto|].
  destruct (existsb (JsString.eqb x) seen) eqn:E.
  - apply existsb_eqb in E. rewrite IH. split; [tauto|].
    intros [[<-|H] Hn]; [contradiction|tauto].
  - assert (Hx : ~ In x seen) by (intros H; apply existsb_eqb in H; congruence).
    cbn [In]. rewrite IH. cbn [In]. split.
    + intros [<-|[H Hn]]; [tauto|]. tauto.
    + intros [[<-|H] Hn]; [tauto|].
      destruct (list_eq_dec N.eq_dec x y) as [->|Hne]; [tauto|]. right. tauto.
Qed.

Lemma unique_NoDup (l seen : list jsstring) : NoDup (unique seen l).
Proof.
  revert seen. induction l as [|x l IH]; intros seen; cbn [unique]; [constructor|].
  destruct (existsb (JsString.eqb x) seen); [apply IH|].
  constructor; [|apply IH]. rewrite unique_in. cbn [In]. tauto.
Qed.

Lemma unique_id (l seen : list jsstring) :
  NoDup l -> (forall y, In y l -> ~ In y seen) -> unique seen l = l.
Proof.
  revert seen. induction l as [|x l IH]; intros seen Hnd Hsep; [reflexivity|].
  inversion Hnd as [|x' l' Hx Hl]; subst. cbn [unique].
  destruct (existsb (JsString.eqb x) seen) eqn:E.
  - apply existsb_eqb in E. exfalso. apply (Hsep x); [now left|exact E].
  - f_equal. apply IH; [exact Hl|].
    intros y Hy [<-|Hs]; [contradiction|]. apply (Hsep y); [now right|exact Hs].
Qed.

Lemma unique_drops_known (l : list jsstring) (t : jsstring) :
  NoDup l -> In t l -> unique [] (l ++ [t]) = l.
Proof.
  intros Hnd Hin.
  assert (Hgen : forall l1 seen,
            NoDup l1 -> (forall y, In y l1 -> ~ In y seen) ->
            (In t l1 \/ In t seen) ->
            unique seen (l1 ++ [t]) = l1).
  { induction l1 as [|x l1 IH]; intros seen Hnd1 Hsep Ht.
    - cbn [app unique]. destruct Ht as [[]|Ht].
      apply existsb_eqb in Ht. now rewrite Ht.
    - inversion Hnd1 as [|x' l' Hx Hl]; subst. cbn [app unique].
      destruct (existsb (JsString.eqb x) seen) eqn:E.
      + apply existsb_eqb in E. exfalso. apply (Hsep x); [now left|exact E].
      + f_equal. apply IH; [exact Hl| |].
        * intros y Hy [<-|Hs]; [contradiction|]. apply (Hsep y); [now right|exact Hs].
        * destruct Ht as [[<-|Ht]|Ht]; [right; now left|now left|right; now right]. }
  apply Hgen; [exact Hnd|intros y _ []|now left].
Qed.

(** An update with a weak topic that is not the empty string, for a
    subject that has a record, stores the weak topics without duplicates:
    exactly the topics the record had and the new one.  When the record's
    topics were distinct already they keep their order, and the new topic
    is appended only if it was not among them. *)
Theorem weak_topics_are_stored_once
    (scoredAt accessedAt : Z) (subject : jsstring) (u : Updates)
    (topic : jsstring) (s : store) (r : Record_) :
  getAnalytics subject s = Some r ->
  u_weakTopic u = Some topic ->
  JsString.truthy topic = true ->
  exists s' r' stored,
    updateAnalytics scoredAt accessedAt subject u s = Some s' /\
    getAnalytics subject s' = Some r' /\
    weakTopics r' = Some stored /\
    NoDup stored /\
    (forall y, In y stored <-> In y (list_or_empty (weakTopics r)) \/ y = topic) /\
    (NoDup (list_or_empty (weakTopics r)) ->
     stored = if in_dec (list_eq_dec N.eq_dec) topic (list_or_empty (weakTopics r))
              then list_or_empty (weakTopics r)
              else list_or_empty (weakTopics r) ++ [topic]).
Proof.
  intros Hr Hu Ht.
  exists (JsMap.set subject (merge scoredAt accessedAt r u) s),
         (merge scoredAt accessedAt r u),
         (unique [] (list_or_empty (weakTopics r) ++ [topic])).
  split; [now apply update_existing|].
  split; [apply JsMapFacts.get_set_same|].
  split; [unfold merge; cbn [weakTopics]; now rewrite Hu, Ht|].
  split; [apply unique_NoDup|].
  split.
  - intros y. rewrite unique_in, in_app_iff. cbn [In]. split.
    + intros [[H|[<-|[]]] _]; tauto.
    + intros [H | ->]; tauto.
  - intros Hnd.
    destruct (in_dec (list_eq_dec N.eq_dec) topic (list_or_empty (weakTopics r)))
      as [Hin|Hnot].
    + now apply unique_drops_known.
    + apply unique_id.
      * apply NoDup_app; [exact Hnd|repeat constructor; intros []|].
        intros y Hy [<-|[]]. contradiction.
      * intros y _ [].
Qed.

Lemma weak_topics_are_stored_once_witness :
  exists s' r' stored,
    updateAnalytics 10 11 (lit "networks") (weak_topic_update (lit "subnetting"))
      (JsMap.set (lit "networks")
         (mkRecord None None (Some [lit "subnetting"; lit "routing"]) None (Some 1))
         (JsMap.empty Record_)) = Some s' /\
    getAnalytics (lit "networks") s' = Some r' /\
    weakTopics r' = Some stored /\
    NoDup stored /\
    (forall y, In y stored <->
       In y (list_or_empty
               (weakTopics (mkRecord None None
                              (Some [lit "subnetting"; lit "routing"]) None (Some 1))))
       \/ y = lit "subnetting") /\
    (NoDup (list_or_empty
              (weakTopics (mkRecord None None
                             (Some [lit "subnetting"; lit "routing"]) None (Some 1)))) ->
     stored = if in_dec (list_eq_dec N.eq_dec) (lit "subnetting")
                   (list_or_empty
                      (weakTopics (mkRecord None None
                                     (Some [lit "subnetting"; lit "routing"])
                                     None (Some 1))))
              then list_or_empty
                     (weakTopics (mkRecord None None
                                    (Some [lit "subnetting"; lit "routing"])
                                    None (Some 1)))
              else list_or_empty
                     (weakTopics (mkRecord None None
                                    (Some [lit "subnetting"; lit "routing"])
                                    None (Some 1)))
                   ++ [lit "subnetting"]).
Proof.
  apply (@weak_topics_are_stored_once 10 11 (lit "networks")
           (weak_topic_update (lit "subnetting")) (lit "subnetting")
           (JsMap.set (lit "networks")
              (mkRecord None None (Some [lit "subnetting"; lit "routing"]) None (Some 1))
              (JsMap.empty Record_))
           (mkRecord None None (Some [lit "subnetting"; lit "routing"]) None (Some 1))).
  - reflexivity.
  - reflexivity.
  - reflexivity.
Defined.

(** *** Totals over a sequence of updates *)

Lemma merge_totals (scoredAt accessedAt : Z) (r : Record_) (u : Updates) :
  number_or_zero (studyTime (merge scoredAt accessedAt r u))
  = number_or_zero (studyTime r) + number_or_zero (u_studyTime u) /\
  List.length (list_or_empty (quizScores (merge scoredAt accessedAt r u)))
  = (List.length (list_or_empty (quizScores r))
     + match u_quizScore u with Some _ => 1 | None => 0 end)%nat.
Proof.
  unfold merge. cbn [studyTime quizScores]. split.
  - destruct (u_studyTime u) as [m|]; cbn [given_number number_or_zero]; [|lia].
    destruct (Z.eqb_spec m 0); cbn [negb number_or_zero]; lia.
  - destruct (u_quizScore u); cbn [list_or_empty]; [|lia].
    rewrite length_app. reflexivity.
Qed.

(** For a subject that has a record, any sequence of updates leaves a
    record whose study time is the study time it had plus the study times
    of the updates sent for that subject, and whose quiz scores are as
    many as it had plus the updates for that subject that carried a score;
    updates for other subjects do not count. *)
Theorem study_time_and_scores_add_up
    (calls : list Call) (subject : jsstring) (s : store) (r : Record_) :
  getAnalytics subject s = Some r ->
  exists r',
    getAnalytics subject (run calls s) = Some r' /\
    number_or_zero (studyTime r')
    = number_or_zero (studyTime r) + study_minutes subject calls /\
    List.length (list_or_empty (quizScores r'))
    = (List.length (list_or_empty (quizScores r)) + quiz_count subject calls)%nat.
Proof.
  unfold run. revert s r. induction calls as [|c calls IH]; intros s r Hr.
  - exists r. cbn [fold_left study_minutes quiz_count]. split; [exact Hr|].
    split; lia.
  - cbn [fold_left study_minutes quiz_count].
    destruct (JsString.eqb (c_subject c) subject) eqn:E.
    + apply JsStringFacts.eqb_eq in E.
      rewrite E, (@update_existing (c_scoredAt c) (c_accessedAt c) subject (c_updates c) s r Hr).
      destruct (IH (JsMap.set subject
                      (merge (c_scoredAt c) (c_accessedAt c) r (c_updates c)) s)
                   (merge (c_scoredAt c) (c_accessedAt c) r (c_updates c)))
        as (r' & Hget & Htime & Hquiz);
        [apply JsMapFacts.get_set_same|].
      exists r'. split; [exact Hget|].
      destruct (merge_totals (c_scoredAt c) (c_accessedAt c) r (c_updates c))
        as (Ht & Hq).
      rewrite Htime, Hquiz, Ht, Hq. split; lia.
    + apply JsStringFacts.eqb_neq in E.
      destruct (IH (match updateAnalytics (c_scoredAt c) (c_accessedAt c)
                            (c_subject c) (c_updates c) s with
                    | Some s' => s'
                    | None => s
                    end) r) as (r' & Hget & Htime & Hquiz).
      * rewrite run_step_other by exact E. exact Hr.
      * exists r'. split; [exact Hget|]. rewrite Htime, Hquiz. split; lia.
Qed.

Lemma study_time_and_scores_add_up_witness :
  exists r',
    getAnalytics (lit "networks")
      (run [mkCall 10 11 (lit "networks")
              (session_update 5 (mkStudySession 10 5 2));
            mkCall 20 21 (lit "crypto") (quiz_update 7 10);
            mkCall 30 31 (lit "networks") (quiz_update 8 10)]
           (JsMap.set (lit "networks") (mkRecord (Some 3) None None None (Some 1))
                      (JsMap.empty Record_)))
    = Some r' /\
    number_or_zero (studyTime r')
    = number_or_zero (studyTime (mkRecord (Some 3) None None None (Some 1)))
      + study_minutes (lit "networks")
          [mkCall 10 11 (lit "networks")
             (session_update 5 (mkStudySession 10 5 2));
           mkCall 20 21 (lit "crypto") (quiz_update 7 10);
           mkCall 30 31 (lit "networks") (quiz_update 8 10)] /\
    List.length (list_or_empty (quizScores r'))
    = Nat.add
        (List.length
           (list_or_empty (quizScores (mkRecord (Some 3) None None None (Some 1)))))
        (quiz_count (lit "networks")
           [mkCall 10 11 (lit "networks")
              (session_update 5 (mkStudySession 10 5 2));
            mkCall 20 21 (lit "crypto") (quiz_update 7 10);
            mkCall 30 31 (lit "networks") (quiz_update 8 10)]).
Proof.
  apply (@study_time_and_scores_add_up
           [mkCall 10 11 (lit "networks")
              (session_update 5 (mkStudySession 10 5 2));
            mkCall 20 21 (lit "crypto") (quiz_update 7 10);
            mkCall 30 31 (lit "networks") (quiz_update 8 10)]
           (lit "networks")
           (JsMap.set (lit "networks") (mkRecord (Some 3) None None None (Some 1))
                      (JsMap.empty Record_))
           (mkRecord (Some 3) None None None (Some 1))).
  reflexivity.
Defined.

End AnalyticsTheory.

(* ================================================================== *)
(** ** Documents and their chunks *)
(* ================================================================== *)

Module DocumentTheory.
Import Documents ObjectStoreFacts.

Lemma add_chunks_rows (document : Z) (subject : jsstring) (clock : nat -> Z)
    (l : list ChunkText) : forall (i : nat) (s : ObjectStore.t Chunk),
  ObjectStore.rows (add_chunks document subject clock i l s)
  = ObjectStore.rows s
    ++ added document subject clock i (ObjectStore.nextKey s) l.
Proof.
  induction l as [|c l IH]; intros i s; cbn [add_chunks added].
  - now rewrite app_nil_r.
  - rewrite IH. unfold ObjectStore.add.
    cbn [snd ObjectStore.rows ObjectStore.nextKey].
    now rewrite <- app_assoc.
Qed.

Lemma added_of_document (document : Z) (subject : jsstring) (clock : nat -> Z)
    (l : list ChunkText) : forall (i : nat) (key : Z),
  Forall (fun r => documentId (snd r) = document
                   /\ subjectId (snd r) = subject)
         (added document subject clock i key l) /\
  map (fun r => content (snd r)) (added document subject clock i key l) = l /\
  map fst (added document subject clock i key l)
  = map (fun n => key + Z.of_nat n) (seq 0 (List.length l)).
Proof.
  induction l as [|c l IH]; intros i key; cbn [added map List.length seq].
  - repeat split. constructor.
  - destruct (IH (S i) (key + 1)) as (Hall & Hcontent & Hkeys).
    split; [constructor; [now split|exact Hall]|].
    split; [now rewrite Hcontent|].
    rewrite Hkeys, <- seq_shift, map_map. f_equal; [simpl; lia|].
    apply map_ext. intros n. lia.
Qed.

Lemma filter_all (A : Type) (p : A -> bool) (l : list A) :
  Forall (fun x => p x = true) l -> filter p l = l.
Proof.
  induction 1 as [|x l Hx Hl IH]; cbn [filter]; [reflexivity|].
  now rewrite Hx, IH.
Qed.

Lemma filter_none (A : Type) (p : A -> bool) (l : list A) :
  Forall (fun x => p x = false) l -> filter p l = [].
Proof.
  induction 1 as [|x l Hx Hl IH]; cbn [filter]; [reflexivity|].
  now rewrite Hx, IH.
Qed.

(** [saveChunks] resolves with the number of chunks given and adds one
    record per chunk, in the order given, each with the document, the
    subject and its own reading of the clock, under consecutive keys from
    the generator.  Afterwards [getChunksForDocument] returns for that
    document what it returned before followed by these records, whose
    contents are the chunks given; for any other document, and for the
    documents store, nothing changes. *)
Theorem saved_chunks_are_found_under_their_document
    (document : Z) (subject : jsstring) (clock : nat -> Z)
    (l : list ChunkText) (db : Db) :
  let db' := snd (saveChunks document subject clock l db) in
  let new := added document subject clock 0 (ObjectStore.nextKey (chunks db)) l in
  fst (saveChunks document subject clock l db) = List.length l /\
  getChunksForDocument document db' = getChunksForDocument document db ++ new /\
  map (fun r => content (snd r)) new = l /\
  map fst new
  = map (fun n => ObjectStore.nextKey (chunks db) + Z.of_nat n)
        (seq 0 (List.length l)) /\
  (forall other, other <> document ->
     getChunksForDocument other db' = getChunksForDocument other db) /\
  documents db' = documents db.
Proof.
  intros db' new.
  destruct (added_of_document document subject clock l 0
              (ObjectStore.nextKey (chunks db))) as (Hall & Hcontent & Hkeys).
  fold new in Hall, Hcontent, Hkeys.
  assert (Hrows : ObjectStore.rows (chunks db')
                  = ObjectStore.rows (chunks db) ++ new)
    by apply add_chunks_rows.
  split; [reflexivity|].
  split; [|split; [exact Hcontent|split; [exact Hkeys|split; [|reflexivity]]]].
  - unfold getChunksForDocument, ObjectStore.getAllByIndex.
    rewrite Hrows, filter_app. f_equal. apply filter_all.
    eapply Forall_impl; [|exact Hall]. intros r [Hr _]. now apply Z.eqb_eq.
  - intros other Hne. unfold getChunksForDocument, ObjectStore.getAllByIndex.
    rewrite Hrows, filter_app.
    rewrite (@filter_none _ _ new); [apply app_nil_r|].
    eapply Forall_impl; [|exact Hall]. intros r [Hr _]. apply Z.eqb_neq. congruence.
Qed.

(** *** Deleting *)

Lemma filter_twice (A : Type) (p q : A -> bool) (l : list A) :
  filter q (filter p l) = filter (fun x => p x && q x) l.
Proof.
  induction l as [|x l IH]; cbn [filter]; [reflexivity|].
  destruct (p x); cbn [filter andb]; [|exact IH].
  destruct (q x); now rewrite IH.
Qed.

Lemma delete_each_rows (V : Type) (ds : list (Z * V)) : forall (s : ObjectStore.t V),
  ObjectStore.rows
    (fold_left (fun s d => ObjectStore.delete (fst d) s) ds s)
  = filter (fun r => negb (existsb (fun d => fst d =? fst r) ds))
           (ObjectStore.rows s).
Proof.
  induction ds as [|d ds IH]; intros s; cbn [fold_left existsb].
  - cbn [negb]. symmetry. apply filter_all. apply Forall_forall. reflexivity.
  - rewrite IH. unfold ObjectStore.delete. cbn [ObjectStore.rows].
    rewrite filter_twice. apply filter_ext. intros r.
    rewrite negb_orb. f_equal. f_equal. apply Z.eqb_sym.
Qed.

Lemma indexed_keys (V : Type) (p : V -> bool) (b : Z) (rs : list (Z * V)) (r : Z * V) :
  ObjectStore.ascending b rs -> In r rs ->
  existsb (fun d => fst d =? fst r) (filter (fun x => p (snd x)) rs) = p (snd r).
Proof.
  intros Ha Hr. destruct (p (snd r)) eqn:E.
  - apply existsb_exists. exists r. split; [|apply Z.eqb_refl].
    apply filter_In. now split.
  - destruct (existsb (fun d => fst d =? fst r) (filter (fun x => p (snd x)) rs))
      eqn:Ex; [|reflexivity].
    apply existsb_exists in Ex. destruct Ex as (d & Hd & Hk).
    apply filter_In in Hd. destruct Hd as [Hd Hp]. apply Z.eqb_eq in Hk.
    destruct d as [k v], r as [k' v']. cbn [fst snd] in *. subst k'.
    rewrite (@ascending_unique _ b rs k v v' Ha Hd Hr) in Hp. congruence.
Qed.

Lemma find_after_filter (V : Type) (id other : Z) (rs : list (Z * V)) :
  find (fun r => fst r =? other) (filter (fun r => negb (fst r =? id)) rs)
  = if other =? id then None else find (fun r => fst r =? other) rs.
Proof.
  induction rs as [|[k v] rs IH]; simpl.
  - now destruct (other =? id).
  - destruct (Z.eqb_spec k id) as [Hk|Hk]; simpl.
    + rewrite IH. subst k. rewrite (Z.eqb_sym id other).
      now destruct (other =? id).
    + rewrite IH. destruct (Z.eqb_spec k other) as [<-|Hne]; [|reflexivity].
      destruct (Z.eqb_spec k id); [contradiction|reflexivity].
Qed.

Lemma get_after_delete (V : Type) (id other : Z) (s : ObjectStore.t V) :
  ObjectStore.get other (ObjectStore.delete id s)
  = if other =? id then None else ObjectStore.get other s.
Proof.
  unfold ObjectStore.get, ObjectStore.delete. cbn [ObjectStore.rows].
  rewrite find_after_filter. now destruct (other =? id).
Qed.

(** [deleteDocument] removes, from a chunk store with distinct keys,
    exactly the chunks of the document: what is left are the other
    records, in their order, so the document has no chunks afterwards and
    every other document has the chunks it had.  The document itself is no
    longer in the documents store and every other document is. *)
Theorem deleting_a_document_deletes_its_chunks
    (document : Z) (db : Db) :
  ObjectStore.wf (chunks db) ->
  let db' := deleteDocument document db in
  ObjectStore.rows (chunks db')
  = filter (fun r => negb (documentId (snd r) =? document))
           (ObjectStore.rows (chunks db)) /\
  getChunksForDocument document db' = [] /\
  (forall other, other <> document ->
     getChunksForDocument other db' = getChunksForDocument other db) /\
  ObjectStore.get document (documents db') = None /\
  (forall other, other <> document ->
     ObjectStore.get other (documents db')
     = ObjectStore.get other (documents db)).
Proof.
  intros (Ha & _) db'.
  assert (Hrows : ObjectStore.rows (chunks db')
                  = filter (fun r => negb (documentId (snd r) =? document))
                           (ObjectStore.rows (chunks db))).
  { unfold db', deleteDocument. cbn [chunks].
    rewrite delete_each_rows. apply filter_ext_in. intros r Hr. f_equal.
    unfold getChunksForDocument, ObjectStore.getAllByIndex.
    exact (indexed_keys (fun c => documentId c =? document) _ _ _ Ha Hr). }
  split; [exact Hrows|]. split; [|split; [|split]].
  - unfold getChunksForDocument, ObjectStore.getAllByIndex.
    rewrite Hrows, filter_twice. apply filter_none. apply Forall_forall.
    intros r _. now destruct (documentId (snd r) =? document).
  - intros other Hne. unfold getChunksForDocument, ObjectStore.getAllByIndex.
    rewrite Hrows, filter_twice. apply filter_ext. intros r.
    destruct (Z.eqb_spec (documentId (snd r)) document) as [E|E]; cbn [negb andb];
      [|reflexivity].
    symmetry. apply Z.eqb_neq. congruence.
  - unfold db', deleteDocument. cbn [documents].
    now rewrite get_after_delete, Z.eqb_refl.
  - intros other Hne. unfold db', deleteDocument. cbn [documents].
    rewrite get_after_delete. destruct (Z.eqb_spec other document); [contradiction|].
    reflexivity.
Qed.

Lemma deleting_a_document_deletes_its_chunks_witness :
  let db :=
    snd (saveChunks 2 (lit "networks") (fun i => 200 + Z.of_nat i)
           [mkChunkText (lit "gamma") 1 0 5]
           (snd (saveChunks 1 (lit "networks") (fun i => 100 + Z.of_nat i)
                   [mkChunkText (lit "alpha") 1 0 5; mkChunkText (lit "beta") 2 5 9]
                   (mkDb (ObjectStore.empty Document) (ObjectStore.empty Chunk))))) in
  let db' := deleteDocument 1 db in
  ObjectStore.rows (chunks db')
  = filter (fun r => negb (documentId (snd r) =? 1))
           (ObjectStore.rows (chunks db)) /\
  getChunksForDocument 1 db' = [] /\
  (forall other, other <> 1 ->
     getChunksForDocument other db' = getChunksForDocument other db) /\
  ObjectStore.get 1 (documents db') = None /\
  (forall other, other <> 1 ->
     ObjectStore.get other (documents db')
     = ObjectStore.get other (documents db)).
Proof.
  apply (@deleting_a_document_deletes_its_chunks 1
           (snd (saveChunks 2 (lit "networks") (fun i => 200 + Z.of_nat i)
                   [mkChunkText (lit "gamma") 1 0 5]
                   (snd (saveChunks 1 (lit "networks") (fun i => 100 + Z.of_nat i)
                           [mkChunkText (lit "alpha") 1 0 5;
                            mkChunkText (lit "beta") 2 5 9]
                           (mkDb (ObjectStore.empty Document)
                                 (ObjectStore.empty Chunk))))))).
  split.
  - simpl. repeat split; lia.
  - simpl. repeat constructor.
Defined.

End DocumentTheory.
